(** * Restaurant service: order store, fulfillment and broadcast hub

    A shallow embedding of the order pipeline of the restaurant service
    ([internal/db/repository/order_repo.go], [internal/service/order.go],
    [internal/websockets/hub.go]) together with the properties stated for
    it.

    Modelling conventions.
    - A UUID is a natural number ([N]).  Identifiers that PostgreSQL draws
      with [uuid_generate_v4()] come from a generator carried by the world;
      primary-key and unique constraints are checked on insertion, as the
      database does.
    - Monetary amounts ([float64] in Go, [DECIMAL(10,2)] in the schema) are
      exact integers counting cents; rounding is outside the model.
    - A table is the list of its rows in insertion order.  A Go struct that
      is scanned from a row keeps its [db:"-"] fields at their zero value
      inside the table, as [sqlx] leaves them.
    - Every SQL statement is issued through [exec], which numbers the
      statements and lets the storage layer fail any of them (connection
      or driver failure).
    - [time.Now()] reads a clock carried by the world.
    - Go ranges over a map in an order chosen by the runtime: [go_range]
      visits every entry once, in the order given by a sequence of picks
      that is a parameter of the model.
    - The hub is modelled sequentially: one call, or one round of the loop
      of [Run], at a time. *)

From Stdlib Require Import ZArith NArith List Ascii String Bool Lia Permutation Sorted.
From stdpp Require Import base numbers list strings gmap pretty.

Import ListNotations.
Local Open Scope string_scope.
Local Open Scope Z_scope.
Local Open Scope list_scope.

(** ** Models ([internal/models]) *)

Abbreviation UUID := N (only parsing).
Abbreviation Time := Z (only parsing).

Definition OrderStatus := string.
Definition OrderStatusNew : OrderStatus := "new".
Definition OrderStatusInProgress : OrderStatus := "in_progress".
Definition OrderStatusCompleted : OrderStatus := "completed".
Definition OrderStatusCancelled : OrderStatus := "cancelled".

Definition OrderItemStatus := string.
Definition OrderItemStatusPending : OrderItemStatus := "pending".
Definition OrderItemStatusInProgress : OrderItemStatus := "in_progress".
Definition OrderItemStatusCompleted : OrderItemStatus := "completed".
Definition OrderItemStatusCancelled : OrderItemStatus := "cancelled".

Record OrderItemModifier := mkOrderItemModifier {
  mod_ID : UUID;
  mod_OrderItemID : UUID;
  mod_ModifierOptionID : UUID;
  mod_PriceAdjustment : Z;
  mod_CreatedAt : Time;
  mod_Name : string
}.

Record OrderItem := mkOrderItem {
  item_ID : UUID;
  item_OrderID : UUID;
  item_MenuItemID : UUID;
  item_StationID : UUID;
  item_Quantity : Z;
  item_Price : Z;
  item_Status : OrderItemStatus;
  item_SpecialInstructions : option string;
  item_SentToStationAt : option Time;
  item_CompletedAt : option Time;
  item_CreatedAt : Time;
  item_UpdatedAt : Time;
  item_Name : string;
  item_Modifiers : list OrderItemModifier
}.

Record Order := mkOrder {
  order_ID : UUID;
  order_UserID : UUID;
  order_OrderNumber : string;
  order_Status : OrderStatus;
  order_Total : Z;
  order_OrderedAt : Time;
  order_CompletedAt : option Time;
  order_CreatedAt : Time;
  order_UpdatedAt : Time;
  order_Items : list OrderItem
}.

Record OrderModifierRequest := mkOrderModifierRequest {
  req_OptionID : UUID
}.

Record OrderItemRequest := mkOrderItemRequest {
  req_MenuItemID : UUID;
  req_Quantity : Z;
  req_SpecialInstructions : option string;
  req_Modifiers : list OrderModifierRequest
}.

Record OrderRequest := mkOrderRequest {
  req_Items : list OrderItemRequest
}.

Record MenuItem := mkMenuItem {
  menu_ID : UUID;
  menu_Name : string;
  menu_Price : Z
}.

Record ModifierOption := mkModifierOption {
  option_ID : UUID;
  option_Name : string;
  option_PriceAdjustment : Z
}.

Record RoutingRule := mkRoutingRule {
  rule_ID : UUID;
  rule_MenuItemID : UUID;
  rule_StationID : UUID;
  rule_Priority : Z
}.

Record Printer := mkPrinter {
  printer_ID : UUID;
  printer_Name : string
}.

Record Display := mkDisplay {
  display_ID : UUID;
  display_Name : string
}.

Record Station := mkStation {
  station_ID : UUID;
  station_Name : string;
  station_PrinterID : option UUID;
  station_DisplayID : option UUID;
  station_Printer : option Printer;
  station_Display : option Display
}.

(** Field updates (Go assignments to struct fields, SQL [SET] clauses). *)

Definition item_with_Status (s : OrderItemStatus) (i : OrderItem) : OrderItem :=
  mkOrderItem (item_ID i) (item_OrderID i) (item_MenuItemID i) (item_StationID i)
    (item_Quantity i) (item_Price i) s (item_SpecialInstructions i)
    (item_SentToStationAt i) (item_CompletedAt i) (item_CreatedAt i)
    (item_UpdatedAt i) (item_Name i) (item_Modifiers i).

Definition item_with_UpdatedAt (t : Time) (i : OrderItem) : OrderItem :=
  mkOrderItem (item_ID i) (item_OrderID i) (item_MenuItemID i) (item_StationID i)
    (item_Quantity i) (item_Price i) (item_Status i) (item_SpecialInstructions i)
    (item_SentToStationAt i) (item_CompletedAt i) (item_CreatedAt i)
    t (item_Name i) (item_Modifiers i).

Definition item_with_CompletedAt (t : option Time) (i : OrderItem) : OrderItem :=
  mkOrderItem (item_ID i) (item_OrderID i) (item_MenuItemID i) (item_StationID i)
    (item_Quantity i) (item_Price i) (item_Status i) (item_SpecialInstructions i)
    (item_SentToStationAt i) t (item_CreatedAt i)
    (item_UpdatedAt i) (item_Name i) (item_Modifiers i).

Definition item_with_SentToStationAt (t : option Time) (i : OrderItem) : OrderItem :=
  mkOrderItem (item_ID i) (item_OrderID i) (item_MenuItemID i) (item_StationID i)
    (item_Quantity i) (item_Price i) (item_Status i) (item_SpecialInstructions i)
    t (item_CompletedAt i) (item_CreatedAt i)
    (item_UpdatedAt i) (item_Name i) (item_Modifiers i).

Definition item_with_SpecialInstructions (s : option string) (i : OrderItem) : OrderItem :=
  mkOrderItem (item_ID i) (item_OrderID i) (item_MenuItemID i) (item_StationID i)
    (item_Quantity i) (item_Price i) (item_Status i) s
    (item_SentToStationAt i) (item_CompletedAt i) (item_CreatedAt i)
    (item_UpdatedAt i) (item_Name i) (item_Modifiers i).

Definition item_with_Price (p : Z) (i : OrderItem) : OrderItem :=
  mkOrderItem (item_ID i) (item_OrderID i) (item_MenuItemID i) (item_StationID i)
    (item_Quantity i) p (item_Status i) (item_SpecialInstructions i)
    (item_SentToStationAt i) (item_CompletedAt i) (item_CreatedAt i)
    (item_UpdatedAt i) (item_Name i) (item_Modifiers i).

Definition item_with_Name (n : string) (i : OrderItem) : OrderItem :=
  mkOrderItem (item_ID i) (item_OrderID i) (item_MenuItemID i) (item_StationID i)
    (item_Quantity i) (item_Price i) (item_Status i) (item_SpecialInstructions i)
    (item_SentToStationAt i) (item_CompletedAt i) (item_CreatedAt i)
    (item_UpdatedAt i) n (item_Modifiers i).

Definition item_with_Modifiers (ms : list OrderItemModifier) (i : OrderItem) : OrderItem :=
  mkOrderItem (item_ID i) (item_OrderID i) (item_MenuItemID i) (item_StationID i)
    (item_Quantity i) (item_Price i) (item_Status i) (item_SpecialInstructions i)
    (item_SentToStationAt i) (item_CompletedAt i) (item_CreatedAt i)
    (item_UpdatedAt i) (item_Name i) ms.

Definition mod_with_Name (n : string) (m : OrderItemModifier) : OrderItemModifier :=
  mkOrderItemModifier (mod_ID m) (mod_OrderItemID m) (mod_ModifierOptionID m)
    (mod_PriceAdjustment m) (mod_CreatedAt m) n.

Definition order_with_Status (s : OrderStatus) (o : Order) : Order :=
  mkOrder (order_ID o) (order_UserID o) (order_OrderNumber o) s (order_Total o)
    (order_OrderedAt o) (order_CompletedAt o) (order_CreatedAt o)
    (order_UpdatedAt o) (order_Items o).

Definition order_with_UpdatedAt (t : Time) (o : Order) : Order :=
  mkOrder (order_ID o) (order_UserID o) (order_OrderNumber o) (order_Status o)
    (order_Total o) (order_OrderedAt o) (order_CompletedAt o) (order_CreatedAt o)
    t (order_Items o).

Definition order_with_CompletedAt (t : option Time) (o : Order) : Order :=
  mkOrder (order_ID o) (order_UserID o) (order_OrderNumber o) (order_Status o)
    (order_Total o) (order_OrderedAt o) t (order_CreatedAt o)
    (order_UpdatedAt o) (order_Items o).

Definition order_with_Total (x : Z) (o : Order) : Order :=
  mkOrder (order_ID o) (order_UserID o) (order_OrderNumber o) (order_Status o)
    x (order_OrderedAt o) (order_CompletedAt o) (order_CreatedAt o)
    (order_UpdatedAt o) (order_Items o).

Definition order_with_Items (l : list OrderItem) (o : Order) : Order :=
  mkOrder (order_ID o) (order_UserID o) (order_OrderNumber o) (order_Status o)
    (order_Total o) (order_OrderedAt o) (order_CompletedAt o) (order_CreatedAt o)
    (order_UpdatedAt o) l.

Definition station_with_Printer (p : option Printer) (s : Station) : Station :=
  mkStation (station_ID s) (station_Name s) (station_PrinterID s)
    (station_DisplayID s) p (station_Display s).

Definition station_with_Display (d : option Display) (s : Station) : Station :=
  mkStation (station_ID s) (station_Name s) (station_PrinterID s)
    (station_DisplayID s) (station_Printer s) d.

(** ** The database ([migrations/]) *)

Record DB := mkDB {
  menu_items : list MenuItem;
  modifier_options : list ModifierOption;
  routing_rules : list RoutingRule;
  stations : list Station;
  printers : list Printer;
  displays : list Display;
  orders : list Order;
  order_items : list OrderItem;
  order_item_modifiers : list OrderItemModifier
}.

Definition db_with_orders (t : list Order) (d : DB) : DB :=
  mkDB (menu_items d) (modifier_options d) (routing_rules d) (stations d)
    (printers d) (displays d) t (order_items d) (order_item_modifiers d).

Definition db_with_order_items (t : list OrderItem) (d : DB) : DB :=
  mkDB (menu_items d) (modifier_options d) (routing_rules d) (stations d)
    (printers d) (displays d) (orders d) t (order_item_modifiers d).

Definition db_with_order_item_modifiers (t : list OrderItemModifier) (d : DB) : DB :=
  mkDB (menu_items d) (modifier_options d) (routing_rules d) (stations d)
    (printers d) (displays d) (orders d) (order_items d) t.

(** ** Ranging over a Go map

    [for k, v := range m] visits every entry of [m] exactly once, in an order
    the runtime chooses.  [go_range picks l] draws the entries of [l] one by
    one, the [k]-th draw taking the entry at position [picks k] (modulo the
    number of entries left). *)

Fixpoint take_nth {A} (n : nat) (l : list A) : option (A * list A) :=
  match l with
  | [] => None
  | x :: l' =>
      match n with
      | O => Some (x, l')
      | S n' =>
          match take_nth n' l' with
          | Some (y, r) => Some (y, x :: r)
          | None => None
          end
      end
  end.

Fixpoint draw {A} (picks : nat -> nat) (k : nat) (l : list A) : list A :=
  match k with
  | O => []
  | S k' =>
      match take_nth (picks k' mod List.length l)%nat l with
      | Some (x, r) => x :: draw picks k' r
      | None => []
      end
  end.

Definition go_range {A} (picks : nat -> nat) (l : list A) : list A :=
  draw picks (List.length l) l.

(** ** Errors, the world and the monad of repository code *)

Inductive error :=
| ErrNoRows                          (* sql.ErrNoRows *)
| ErrDriver                          (* the storage layer failed the statement *)
| ErrConstraint (name : string)      (* a CHECK, UNIQUE, key constraint was violated *)
| ErrNew (msg : string)              (* errors.New(msg) *)
| ErrWrap (msg : string) (e : error) (* fmt.Errorf(msg + ": %w", e) *).


Inductive result (A : Type) :=
| Ok (a : A)
| Err (e : error).
Arguments Ok {A} a.
Arguments Err {A} e.

(** What the process writes with [fmt.Printf]. *)
Inductive Output :=
| Printing (printer : Printer) (order : UUID) (items : list UUID)
| ErrorProcessingOrder (e : error).

Record World := mkWorld {
  db : DB;                   (* the committed rows *)
  issued : nat;              (* statements issued so far *)
  clock : Time;              (* the next reading of time.Now() *)
  stdout : list Output;
  faulty : nat -> bool;      (* does the n-th statement fail in the driver? *)
  uuid_generate_v4 : nat -> UUID;
  (* time.Now().Format("20060102-") + uuid.New().String()[0:4] *)
  format_order_number : Time -> UUID -> string;
  (* the choices of the Go runtime when it ranges over a map *)
  range_picks : nat -> nat
}.

Definition world_with_db (d : DB) (w : World) : World :=
  mkWorld d (issued w) (clock w) (stdout w) (faulty w) (uuid_generate_v4 w)
    (format_order_number w) (range_picks w).

Definition world_issue (w : World) : World :=
  mkWorld (db w) (S (issued w)) (clock w) (stdout w) (faulty w) (uuid_generate_v4 w)
    (format_order_number w) (range_picks w).

Definition world_tick (w : World) : World :=
  mkWorld (db w) (issued w) (clock w + 1) (stdout w) (faulty w) (uuid_generate_v4 w)
    (format_order_number w) (range_picks w).

Definition world_print (o : Output) (w : World) : World :=
  mkWorld (db w) (issued w) (clock w) (stdout w ++ [o]) (faulty w) (uuid_generate_v4 w)
    (format_order_number w) (range_picks w).

Definition M (A : Type) : Type := World -> result A * World.

#[global] Instance M_ret : MRet M := fun A a w => (Ok a, w).

#[global] Instance M_bind : MBind M := fun A B f m w =>
  match m w with
  | (Ok a, w') => f a w'
  | (Err e, w') => (Err e, w')
  end.

Definition fail {A} (e : error) : M A := fun w => (Err e, w).

(** [if err != nil { return fmt.Errorf(msg + ": %w", err) }] *)
Definition wrap {A} (msg : string) (m : M A) : M A := fun w =>
  match m w with
  | (Err e, w') => (Err (ErrWrap msg e), w')
  | r => r
  end.

Definition time_Now : M Time := fun w => (Ok (clock w), world_tick w).

Definition Printf (o : Output) : M unit := fun w => (Ok tt, world_print o w).

(** One SQL statement.  [q] receives the rows, the value of [NOW()] and the
    identifier the statement would generate; a failing statement changes no
    row. *)
Definition exec {A} (q : DB -> Time -> UUID -> result (A * DB)) : M A := fun w =>
  let w1 := world_issue w in
  if faulty w (issued w) then (Err ErrDriver, w1)
  else match q (db w) (clock w) (uuid_generate_v4 w (issued w)) with
       | Ok (a, d) => (Ok a, world_with_db d w1)
       | Err e => (Err e, w1)
       end.

(** A transaction: [BeginTxx] remembers the committed rows, [Rollback]
    restores them, [Commit] is a statement that may fail. *)
Record Tx := mkTx { snapshot : DB }.

Definition BeginTxx : M Tx := exec (fun d _ _ => Ok (mkTx d, d)).

Definition Commit (tx : Tx) : M unit := exec (fun d _ _ => Ok (tt, d)).

Definition Rollback (tx : Tx) (w : World) : World := world_with_db (snapshot tx) w.

(** [defer func() { if err != nil { _ = tx.Rollback() } }()] *)
Definition defer_rollback {A} (tx : Tx) (body : M A) : M A := fun w =>
  match body w with
  | (Err e, w') => (Err e, Rollback tx w')
  | r => r
  end.

(** ** SQL building blocks *)

Section Sql.
Context {R : Type}.

(** [WHERE] *)
Definition sql_where (p : R -> bool) (t : list R) : list R := List.filter p t.

(** [UPDATE t SET ... WHERE p] *)
Definition sql_update (p : R -> bool) (set : R -> R) (t : list R) : list R :=
  List.map (fun r => if p r then set r else r) t.

(** [sqlx.Get]: the first row, [sql.ErrNoRows] when there is none. *)
Definition sql_get (rows : list R) : result R :=
  match rows with
  | [] => Err ErrNoRows
  | r :: _ => Ok r
  end.

(** A constraint on the rows a statement writes. *)
Definition sql_check (name : string) (ok : R -> bool) (rows : list R) : option error :=
  if forallb ok rows then None else Some (ErrConstraint name).
End Sql.

(** [ORDER BY key ASC]: a stable insertion sort. *)
Section OrderBy.
Context {R : Type} (key : R -> Z).

Fixpoint order_insert (r : R) (l : list R) : list R :=
  match l with
  | [] => [r]
  | x :: l' => if key r <=? key x then r :: l else x :: order_insert r l'
  end.

Fixpoint order_by (l : list R) : list R :=
  match l with
  | [] => []
  | x :: l' => order_insert x (order_by l')
  end.
End OrderBy.

Definition first_error (cs : list (option error)) : option error :=
  List.fold_right (fun c acc => match c with Some e => Some e | None => acc end) None cs.

Definition valid_order_status (s : string) : bool :=
  existsb (String.eqb s)
    [OrderStatusNew; OrderStatusInProgress; OrderStatusCompleted; OrderStatusCancelled].

Definition valid_item_status (s : string) : bool :=
  existsb (String.eqb s)
    [OrderItemStatusPending; OrderItemStatusInProgress; OrderItemStatusCompleted;
     OrderItemStatusCancelled].

(** The constraints of [orders], [order_items] and [order_item_modifiers]. *)
Definition orders_constraints (d : DB) (rows : list Order) : option error :=
  first_error
    [sql_check "orders_status_check" (fun o => valid_order_status (order_Status o)) rows].

Definition order_items_constraints (d : DB) (rows : list OrderItem) : option error :=
  first_error
    [sql_check "order_items_quantity_check" (fun i => 0 <? item_Quantity i) rows;
     sql_check "order_items_price_check" (fun i => 0 <=? item_Price i) rows;
     sql_check "order_items_status_check" (fun i => valid_item_status (item_Status i)) rows].

Definition pkey {R} (name : string) (id_of : R -> UUID) (id : UUID) (t : list R) : option error :=
  if existsb (fun r => (id_of r =? id)%N) t then Some (ErrConstraint name) else None.

Definition fkey {R} (name : string) (id_of : R -> UUID) (id : UUID) (t : list R) : option error :=
  if existsb (fun r => (id_of r =? id)%N) t then None else Some (ErrConstraint name).

(** A statement that reads only. *)
Definition query {A} (f : DB -> result A) : M A :=
  exec (fun d _ _ => match f d with Ok a => Ok (a, d) | Err e => Err e end).

(** [UPDATE orders SET ... WHERE p]; the result is the number of rows affected. *)
Definition update_orders (p : Order -> bool) (set : Order -> Order) : M nat :=
  exec (fun d _ _ =>
    let touched := List.map set (sql_where p (orders d)) in
    match orders_constraints d touched with
    | Some e => Err e
    | None => Ok (List.length touched, db_with_orders (sql_update p set (orders d)) d)
    end).

(** [UPDATE order_items SET ... WHERE p] *)
Definition update_order_items (p : OrderItem -> bool) (set : OrderItem -> OrderItem) : M nat :=
  exec (fun d _ _ =>
    let touched := List.map set (sql_where p (order_items d)) in
    match order_items_constraints d touched with
    | Some e => Err e
    | None => Ok (List.length touched, db_with_order_items (sql_update p set (order_items d)) d)
    end).

(** [INSERT INTO orders (user_id, order_number, status, total, ordered_at)
     VALUES (...) RETURNING ...].  The key to [users] is outside the model. *)
Definition insert_order (order : Order) : M Order :=
  exec (fun d now id =>
    let row := mkOrder id (order_UserID order) (order_OrderNumber order)
                 (order_Status order) (order_Total order) (order_OrderedAt order)
                 None now now [] in
    match first_error
            [pkey "orders_pkey" order_ID id (orders d);
             (if existsb (fun o => String.eqb (order_OrderNumber o) (order_OrderNumber order))
                   (orders d)
              then Some (ErrConstraint "orders_order_number_key") else None);
             orders_constraints d [row]] with
    | Some e => Err e
    | None => Ok (row, db_with_orders (orders d ++ [row]) d)
    end).

(** [INSERT INTO order_items (order_id, menu_item_id, station_id, quantity,
     price, status, special_instructions) VALUES (...) RETURNING ...] *)
Definition insert_order_item (orderID menuItemID stationID : UUID) (quantity price : Z)
    (status : OrderItemStatus) (instructions : option string) : M OrderItem :=
  exec (fun d now id =>
    let row := mkOrderItem id orderID menuItemID stationID quantity price status
                 instructions None None now now "" [] in
    match first_error
            [pkey "order_items_pkey" item_ID id (order_items d);
             fkey "order_items_order_id_fkey" order_ID orderID (orders d);
             fkey "order_items_menu_item_id_fkey" menu_ID menuItemID (menu_items d);
             fkey "order_items_station_id_fkey" station_ID stationID (stations d);
             order_items_constraints d [row]] with
    | Some e => Err e
    | None => Ok (row, db_with_order_items (order_items d ++ [row]) d)
    end).

(** [INSERT INTO order_item_modifiers (order_item_id, modifier_option_id,
     price_adjustment) VALUES (...) RETURNING ...] *)
Definition insert_order_item_modifier (orderItemID optionID : UUID) (adjustment : Z)
    : M OrderItemModifier :=
  exec (fun d now id =>
    let row := mkOrderItemModifier id orderItemID optionID adjustment now "" in
    match first_error
            [pkey "order_item_modifiers_pkey" mod_ID id (order_item_modifiers d);
             fkey "order_item_modifiers_order_item_id_fkey" item_ID orderItemID (order_items d);
             fkey "order_item_modifiers_modifier_option_id_fkey" option_ID optionID
               (modifier_options d)] with
    | Some e => Err e
    | None => Ok (row, db_with_order_item_modifiers (order_item_modifiers d ++ [row]) d)
    end).

(** [SELECT station_id FROM routing_rules WHERE menu_item_id = $1
     ORDER BY priority ASC LIMIT 1] *)
Definition routing_station (menuItemID : UUID) (d : DB) : result UUID :=
  match sql_get (order_by rule_Priority
                   (sql_where (fun r => (rule_MenuItemID r =? menuItemID)%N)
                      (routing_rules d))) with
  | Ok r => Ok (rule_StationID r)
  | Err e => Err e
  end.

(** [SELECT ... FROM menu_items WHERE id = $1] *)
Definition menu_item_by_id (id : UUID) (d : DB) : result MenuItem :=
  sql_get (sql_where (fun m => (menu_ID m =? id)%N) (menu_items d)).

(** [SELECT name, price_adjustment FROM modifier_options WHERE id = $1] *)
Definition modifier_option_by_id (id : UUID) (d : DB) : result ModifierOption :=
  sql_get (sql_where (fun o => (option_ID o =? id)%N) (modifier_options d)).

(** [SELECT ... FROM order_items WHERE id = $1] *)
Definition order_item_by_id (id : UUID) (d : DB) : result OrderItem :=
  sql_get (sql_where (fun i => (item_ID i =? id)%N) (order_items d)).

Definition result_map {A B} (f : A -> B) (r : result A) : result B :=
  match r with
  | Ok a => Ok (f a)
  | Err e => Err e
  end.

(** ** OrderRepository ([internal/db/repository/order_repo.go]) *)

(** The loop over [itemReq.Modifiers] of [Create]. *)
Fixpoint create_modifiers (itemID : UUID) (mods : list OrderModifierRequest)
    (price : Z) (created : list OrderItemModifier) : M (Z * list OrderItemModifier) :=
  match mods with
  | [] => mret (price, created)
  | modReq :: rest =>
      opt ← wrap "failed to get modifier option"
              (query (modifier_option_by_id (req_OptionID modReq)));
      let price := price + option_PriceAdjustment opt in
      createdMod ← wrap "failed to create order item modifier"
                     (insert_order_item_modifier itemID (req_OptionID modReq)
                        (option_PriceAdjustment opt));
      let createdMod := mod_with_Name (option_Name opt) createdMod in
      create_modifiers itemID rest price (created ++ [createdMod])
  end.

(** One round of the loop over [itemRequests] of [Create]. *)
Definition create_item (createdOrder : Order) (itemReq : OrderItemRequest) : M Order :=
  menuItem ← wrap "failed to get menu item"
                (query (fun d => result_map menu_Name
                                   (menu_item_by_id (req_MenuItemID itemReq) d)));
  stationID ← wrap "failed to get routing station"
                (query (routing_station (req_MenuItemID itemReq)));
  createdItem ← wrap "failed to create order item"
                  (insert_order_item (order_ID createdOrder) (req_MenuItemID itemReq)
                     stationID (req_Quantity itemReq) 0 OrderItemStatusPending
                     (req_SpecialInstructions itemReq));
  let createdItem := item_with_Name menuItem createdItem in
  basePrice ← wrap "failed to get menu item price"
                (query (fun d => result_map menu_Price
                                   (menu_item_by_id (req_MenuItemID itemReq) d)));
  '(price, modifiers) ← create_modifiers (item_ID createdItem) (req_Modifiers itemReq)
                           basePrice [];
  let createdItem := item_with_Modifiers modifiers createdItem in
  wrap "failed to update order item price"
    (update_order_items (fun i => (item_ID i =? item_ID createdItem)%N)
       (item_with_Price price));;
  let createdItem := item_with_Price price createdItem in
  let createdOrder := order_with_Items (order_Items createdOrder ++ [createdItem])
                        createdOrder in
  mret (order_with_Total (order_Total createdOrder + price * item_Quantity createdItem)
          createdOrder).

Fixpoint create_items (createdOrder : Order) (itemRequests : list OrderItemRequest)
    : M Order :=
  match itemRequests with
  | [] => mret createdOrder
  | itemReq :: rest =>
      createdOrder ← create_item createdOrder itemReq;
      create_items createdOrder rest
  end.

(** [OrderRepository.Create] *)
Definition Create (order : Order) (itemRequests : list OrderItemRequest) : M Order :=
  tx ← wrap "failed to begin transaction" BeginTxx;
  defer_rollback tx (
    createdOrder ← wrap "failed to create order" (insert_order order);
    createdOrder ← create_items createdOrder itemRequests;
    wrap "failed to update order total"
      (update_orders (fun o => (order_ID o =? order_ID createdOrder)%N)
         (order_with_Total (order_Total createdOrder)));;
    wrap "failed to commit transaction" (Commit tx);;
    mret createdOrder).

(** [OrderRepository.UpdateStatus] *)
Definition UpdateStatus (id : UUID) (status : OrderStatus) : M unit :=
  updated ← time_Now;
  set ← (if String.eqb status OrderStatusCompleted
         then now ← time_Now;
              mret (fun o => order_with_CompletedAt (Some now)
                               (order_with_UpdatedAt updated (order_with_Status status o)))
         else mret (fun o => order_with_UpdatedAt updated (order_with_Status status o)));
  rowsAffected ← wrap "failed to update order status"
                   (update_orders (fun o => (order_ID o =? id)%N) set);
  if Nat.eqb rowsAffected 0 then fail (ErrNew "order not found") else mret tt.

(** [SELECT COUNT( * ) FROM order_items WHERE order_id = $1 AND status != $2] *)
Definition count_items_not (orderID : UUID) (status : OrderItemStatus) (d : DB) : nat :=
  List.length
    (sql_where (fun i => (item_OrderID i =? orderID)%N && negb (String.eqb (item_Status i) status))
       (order_items d)).

(** [OrderRepository.UpdateItemStatus] *)
Definition UpdateItemStatus (itemID : UUID) (status : OrderItemStatus) : M unit :=
  updated ← time_Now;
  set ← (if String.eqb status OrderItemStatusCompleted
         then now ← time_Now;
              mret (fun i => item_with_CompletedAt (Some now)
                               (item_with_UpdatedAt updated (item_with_Status status i)))
         else if String.eqb status OrderItemStatusInProgress
         then now ← time_Now;
              mret (fun i => item_with_SentToStationAt
                               (match item_SentToStationAt i with
                                | None => Some now
                                | Some sent => Some sent
                                end)
                               (item_with_UpdatedAt updated (item_with_Status status i)))
         else mret (fun i => item_with_UpdatedAt updated (item_with_Status status i)));
  rowsAffected ← wrap "failed to update order item status"
                   (update_order_items (fun i => (item_ID i =? itemID)%N) set);
  if Nat.eqb rowsAffected 0 then fail (ErrNew "order item not found")
  else if String.eqb status OrderItemStatusCompleted then
    orderID ← wrap "failed to get order ID for item"
                (query (fun d => result_map item_OrderID (order_item_by_id itemID d)));
    pendingCount ← wrap "failed to check pending items"
                     (query (fun d => Ok (count_items_not orderID OrderItemStatusCompleted d)));
    if Nat.eqb pendingCount 0
    then wrap "failed to update order status" (UpdateStatus orderID OrderStatusCompleted)
    else mret tt
  else mret tt.

Definition voided (reason : string) (instructions : option string) : option string :=
  Some (default "" instructions ++ String "010"%char "[VOIDED: " ++ reason ++ "]")%string.

(** [OrderRepository.VoidItem] *)
Definition VoidItem (itemID : UUID) (reason : string) : M unit :=
  tx ← wrap "failed to begin transaction" BeginTxx;
  defer_rollback tx (
    now ← time_Now;
    wrap "failed to void order item"
      (update_order_items (fun i => (item_ID i =? itemID)%N)
         (fun i => item_with_SpecialInstructions (voided reason (item_SpecialInstructions i))
                     (item_with_UpdatedAt now
                        (item_with_Status OrderItemStatusCancelled i))));;
    orderInfo ← wrap "failed to get order info" (query (order_item_by_id itemID));
    now ← time_Now;
    wrap "failed to update order total"
      (update_orders (fun o => (order_ID o =? item_OrderID orderInfo)%N)
         (fun o => order_with_UpdatedAt now
                     (order_with_Total
                        (order_Total o - item_Price orderInfo * item_Quantity orderInfo) o)));;
    wrap "failed to commit transaction" (Commit tx)).

(** ** StationRepository and PrinterService *)

Definition printer_by_id (id : UUID) (d : DB) : result Printer :=
  sql_get (sql_where (fun p => (printer_ID p =? id)%N) (printers d)).

Definition display_by_id (id : UUID) (d : DB) : result Display :=
  sql_get (sql_where (fun p => (display_ID p =? id)%N) (displays d)).

Definition station_by_id (id : UUID) (d : DB) : result Station :=
  sql_get (sql_where (fun s => (station_ID s =? id)%N) (stations d)).

(** [StationRepository.getPrinter], [PrinterRepository.GetPrinterByID] *)
Definition GetPrinterByID (id : UUID) : M Printer :=
  wrap "failed to get printer" (query (printer_by_id id)).

(** [StationRepository.getDisplay] *)
Definition getDisplay (id : UUID) : M Display :=
  wrap "failed to get display" (query (display_by_id id)).

(** [StationRepository.GetByID] *)
Definition Station_GetByID (id : UUID) : M Station :=
  station ← wrap "failed to get station" (query (station_by_id id));
  station ← match station_PrinterID station with
            | Some printerID =>
                printer ← wrap "failed to get station printer" (GetPrinterByID printerID);
                mret (station_with_Printer (Some printer) station)
            | None => mret station
            end;
  match station_DisplayID station with
  | Some displayID =>
      display ← wrap "failed to get station display" (getDisplay displayID);
      mret (station_with_Display (Some display) station)
  | None => mret station
  end.

(** [PrinterService.PrintOrderItems]; the ticket text of [generateItemsText]
    is represented by the order and the items it is rendered from. *)
Definition PrintOrderItems (order : Order) (items : list OrderItem) (printerID : UUID)
    : M unit :=
  printer ← wrap "failed to get printer" (GetPrinterByID printerID);
  time_Now;;
  Printf (Printing printer (order_ID order) (List.map item_ID items)).

(** ** OrderService ([internal/service/order.go]) *)

(** [stationItems[item.StationID] = append(stationItems[item.StationID], item)] *)
Definition group_by_station (items : list OrderItem) : gmap N (list OrderItem) :=
  foldl (fun stationItems item =>
           <[item_StationID item :=
               (default [] (stationItems !! item_StationID item) ++ [item])%list]>
             stationItems)
    ∅ items.

(** [for stationID, items := range stationItems] *)
Definition range_stations (stationItems : gmap N (list OrderItem))
    : M (list (UUID * list OrderItem)) :=
  fun w => (Ok (go_range (range_picks w) (map_to_list stationItems)), w).

(** The loop over the items of one station. *)
Fixpoint update_items_status (items : list OrderItem) (status : OrderItemStatus) : M unit :=
  match items with
  | [] => mret tt
  | item :: rest =>
      wrap "failed to update item status" (UpdateItemStatus (item_ID item) status);;
      update_items_status rest status
  end.

(** One round of the loop over the stations of [processNewOrder]. *)
Definition process_station (order : Order) (stationID : UUID) (items : list OrderItem)
    : M unit :=
  station ← wrap "failed to get station" (Station_GetByID stationID);
  match station_PrinterID station with
  | Some printerID =>
      wrap "failed to print order items" (PrintOrderItems order items printerID)
  | None => mret tt
  end;;
  update_items_status items OrderItemStatusInProgress.

Fixpoint process_stations (order : Order) (groups : list (UUID * list OrderItem)) : M unit :=
  match groups with
  | [] => mret tt
  | (stationID, items) :: rest =>
      process_station order stationID items;;
      process_stations order rest
  end.

(** [OrderService.processNewOrder] *)
Definition processNewOrder (order : Order) : M unit :=
  wrap "failed to update order status" (UpdateStatus (order_ID order) OrderStatusInProgress);;
  groups ← range_stations (group_by_station (order_Items order));
  process_stations order groups.

Definition uuid_New : M UUID := fun w => (Ok (uuid_generate_v4 w (issued w)), w).

Definition order_number (now : Time) (u : UUID) : M string :=
  fun w => (Ok (format_order_number w now u), w).

(** [if err != nil { fmt.Printf("Error processing order: %v\n", err) }] *)
Definition log_error (m : M unit) : M unit := fun w =>
  match m w with
  | (Err e, w') => (Ok tt, world_print (ErrorProcessingOrder e) w')
  | r => r
  end.

(** [OrderService.CreateOrder] *)
Definition CreateOrder (req : OrderRequest) (userID : UUID) : M Order :=
  now ← time_Now;
  u ← uuid_New;
  orderNumber ← order_number now u;
  orderedAt ← time_Now;
  let order := mkOrder 0%N userID orderNumber OrderStatusNew 0 orderedAt None 0 0 [] in
  createdOrder ← wrap "failed to create order" (Create order (req_Items req));
  log_error (processNewOrder createdOrder);;
  mret createdOrder.

(** [OrderHandler.createOrder], from the decoded request on: the status of
    the HTTP response.  The handler passes the request to the service as it
    was decoded; the notification it hands to the hub after a success is not
    part of the model. *)
Definition StatusCreated : nat := 201.
Definition StatusInternalServerError : nat := 500.

Definition createOrder (req : OrderRequest) (userID : UUID) (w : World) : nat * World :=
  match CreateOrder req userID w with
  | (Ok order, w') => (StatusCreated, w')
  | (Err e, w') => (StatusInternalServerError, w')
  end.

(** ** The broadcast hub ([internal/websockets/hub.go]) *)

(** A [*Client] is identified by its address. *)
Abbreviation ClientRef := positive (only parsing).

(** [chan []byte] with the capacity [NewClient] gives it. *)
Record Chan := mkChan {
  buffer : list string;
  closed : bool
}.

Definition send_capacity : nat := 256.

Record Hub := mkHub {
  clients : gset positive;                        (* map[*Client]bool *)
  stationChannels : gmap string (gset positive);  (* map[string]map[*Client]bool *)
  send : gmap positive Chan                       (* client.send, per client *)
}.

(** [NewHub] *)
Definition NewHub : Hub := mkHub ∅ ∅ ∅.

(** [client.send]; [NewClient] makes it empty and open. *)
Definition client_send (h : Hub) (client : ClientRef) : Chan :=
  default (mkChan [] false) (send h !! client).

Definition hub_with_send (client : ClientRef) (ch : Chan) (h : Hub) : Hub :=
  mkHub (clients h) (stationChannels h) (<[client := ch]> (send h)).

Definition hub_with_clients (cs : gset positive) (h : Hub) : Hub :=
  mkHub cs (stationChannels h) (send h).

Definition hub_with_stationChannels (sc : gmap string (gset positive)) (h : Hub) : Hub :=
  mkHub (clients h) sc (send h).

(** A goroutine that panics stops where it is; the hub keeps the state it
    had reached. *)
Inductive outcome :=
| Running (h : Hub)
| Panicked (h : Hub).

Definition hub_of (o : outcome) : Hub :=
  match o with
  | Running h => h
  | Panicked h => h
  end.

(** [select { case client.send <- message: ... default: ... }] *)
Inductive select_send :=
| Sent (ch : Chan)      (* the send case ran *)
| Default               (* the buffer is full *)
| SendOnClosed          (* panic: send on closed channel *).

Definition try_send (message : string) (ch : Chan) : select_send :=
  if closed ch then SendOnClosed
  else if (List.length (buffer ch) <? send_capacity)%nat
       then Sent (mkChan (buffer ch ++ [message]) false)
       else Default.

(** [close(client.send)]: closing a closed channel panics. *)
Definition close_send (client : ClientRef) (h : Hub) : outcome :=
  let ch := client_send h client in
  if closed ch then Panicked h
  else Running (hub_with_send client (mkChan (buffer ch) true) h).

Definition and_then (o : outcome) (f : Hub -> outcome) : outcome :=
  match o with
  | Running h => f h
  | Panicked h => Panicked h
  end.

Section HubOperations.
(** The picks of the runtime when it ranges over a client map. *)
Variable picks : nat -> nat.

Definition range (registered : gset positive) : list positive :=
  go_range picks (elements registered).

(** [Hub.RegisterStationClient] *)
Definition RegisterStationClient (h : Hub) (client : ClientRef) (stationID : string) : Hub :=
  let sc := match stationChannels h !! stationID with
            | Some _ => stationChannels h
            | None => <[stationID := ∅]> (stationChannels h)
            end in
  hub_with_stationChannels
    (<[stationID := {[client]} ∪ default ∅ (sc !! stationID)]> sc) h.

(** The body of the loop of [Hub.BroadcastToStation]. *)
Definition station_deliver (stationID message : string) (o : outcome) (client : ClientRef)
    : outcome :=
  and_then o (fun h =>
    match try_send message (client_send h client) with
    | Sent ch => Running (hub_with_send client ch h)
    | SendOnClosed => Panicked h
    | Default =>
        and_then (close_send client h) (fun h =>
          let h := hub_with_stationChannels
                     (<[stationID :=
                          default ∅ (stationChannels h !! stationID) ∖ {[client]}]>
                        (stationChannels h)) h in
          Running (hub_with_clients (clients h ∖ {[client]}) h))
    end).

(** [Hub.BroadcastToStation] *)
Definition BroadcastToStation (h : Hub) (stationID message : string) : outcome :=
  match stationChannels h !! stationID with
  | Some registered => foldl (station_deliver stationID message) (Running h) (range registered)
  | None => Running h
  end.

(** The body of the loop of the [broadcast] case of [Hub.Run]. *)
Definition broadcast_deliver (message : string) (o : outcome) (client : ClientRef)
    : outcome :=
  and_then o (fun h =>
    match try_send message (client_send h client) with
    | Sent ch => Running (hub_with_send client ch h)
    | SendOnClosed => Panicked h
    | Default =>
        and_then (close_send client h) (fun h =>
          Running (hub_with_clients (clients h ∖ {[client]}) h))
    end).

(** What [Hub.Run] receives on its three channels. *)
Inductive request :=
| register (client : ClientRef)
| unregister (client : ClientRef)
| broadcast (message : string).

(** One round of the loop of [Hub.Run]. *)
Definition Run (h : Hub) (r : request) : outcome :=
  match r with
  | register client => Running (hub_with_clients ({[client]} ∪ clients h) h)
  | unregister client =>
      if decide (client ∈ clients h) then
        let h := hub_with_clients (clients h ∖ {[client]}) h in
        and_then (close_send client h) (fun h =>
          Running (hub_with_stationChannels
                     ((fun registered => registered ∖ {[client]}) <$> stationChannels h) h))
      else Running h
  | broadcast message =>
      foldl (broadcast_deliver message) (Running h) (range (clients h))
  end.
End HubOperations.

(** ** Vocabulary of the properties *)

(** A property of the rows that every step of [m] maintains, whatever the
    outcome of [m]. *)
Definition db_inv {A} (I : DB -> Prop) (m : M A) : Prop :=
  forall w, I (db w) -> I (db (snd (m w))).

(** The tables the order store only reads. *)
Definition catalog (d : DB)
    : list MenuItem * list ModifierOption * list RoutingRule * list Station
      * list Printer * list Display :=
  (menu_items d, modifier_options d, routing_rules d, stations d, printers d, displays d).

(** The row behind a struct: [db:"-"] fields are not stored. *)
Definition item_row (i : OrderItem) : OrderItem :=
  item_with_Modifiers [] (item_with_Name "" i).

Definition order_row (o : Order) : Order := order_with_Items [] o.

(** *** Totals *)

Definition sum_Z (l : list Z) : Z := List.fold_right Z.add 0 l.

(** [price × quantity] of a line. *)
Definition line_total (i : OrderItem) : Z := item_Price i * item_Quantity i.

Definition is_cancelled (i : OrderItem) : bool :=
  String.eqb (item_Status i) OrderItemStatusCancelled.

(** The lines that count towards the total of an order. *)
Definition billed (orderID : UUID) (i : OrderItem) : bool :=
  (item_OrderID i =? orderID)%N && negb (is_cancelled i).






(** The checks of [orders] and [order_items] hold for the rows of the
    tables. *)
Definition checked (d : DB) : Prop :=
  Forall (fun i => 0 < item_Quantity i /\ 0 <= item_Price i) (order_items d) /\
  Forall (fun o => valid_order_status (order_Status o) = true) (orders d).

(** *** Order creation *)

(** The order [CreateOrder] hands to [Create]. *)
Definition new_order (userID : UUID) (w : World) : Order :=
  mkOrder 0%N userID
    (format_order_number w (clock w) (uuid_generate_v4 w (issued w)))
    OrderStatusNew 0 (clock w + 1) None 0 0 [].

(** What [Create] makes of one line of the request, read against the
    catalog [d]. *)
Definition created_item (d : DB) (orderID : UUID) (itemReq : OrderItemRequest)
    (i : OrderItem) : Prop :=
  item_OrderID i = orderID /\
  item_MenuItemID i = req_MenuItemID itemReq /\
  item_Quantity i = req_Quantity itemReq /\
  0 < item_Quantity i /\
  item_Status i = OrderItemStatusPending /\
  item_SentToStationAt i = None /\
  routing_station (req_MenuItemID itemReq) d = Ok (item_StationID i) /\
  List.map mod_ModifierOptionID (item_Modifiers i)
    = List.map req_OptionID (req_Modifiers itemReq) /\
  Forall (fun m => exists opt, modifier_option_by_id (mod_ModifierOptionID m) d = Ok opt /\
                               mod_PriceAdjustment m = option_PriceAdjustment opt)
    (item_Modifiers i) /\
  exists menuItem, menu_item_by_id (req_MenuItemID itemReq) d = Ok menuItem /\
    item_Name i = menu_Name menuItem /\
    item_Price i = menu_Price menuItem
                   + sum_Z (List.map mod_PriceAdjustment (item_Modifiers i)).


(** *** Status updates and voids *)

(** What the [SET] clauses of [UpdateStatus] and [UpdateItemStatus] leave
    alone. *)
Definition order_update_safe (set : Order -> Order) : Prop :=
  forall o, order_ID (set o) = order_ID o /\ order_Total (set o) = order_Total o.

Definition item_update_safe (status : OrderItemStatus) (set : OrderItem -> OrderItem) : Prop :=
  forall i,
    item_ID (set i) = item_ID i /\
    item_OrderID (set i) = item_OrderID i /\
    item_Price (set i) = item_Price i /\
    item_Quantity (set i) = item_Quantity i /\
    item_Status (set i) = status /\
    (forall sent, item_SentToStationAt i = Some sent ->
                  item_SentToStationAt (set i) = Some sent).

Definition closed_under_order_updates (I : DB -> Prop) : Prop :=
  forall d p set, order_update_safe set -> I d ->
                  I (db_with_orders (sql_update p set (orders d)) d).

Definition closed_under_item_updates (itemID : UUID) (status : OrderItemStatus)
    (I : DB -> Prop) : Prop :=
  forall d set, item_update_safe status set -> I d ->
                I (db_with_order_items
                     (sql_update (fun i => (item_ID i =? itemID)%N) set (order_items d)) d).



(** The [SET] clause of [VoidItem]. *)
Definition void_item (reason : string) (now : Time) (i : OrderItem) : OrderItem :=
  item_with_SpecialInstructions (voided reason (item_SpecialInstructions i))
    (item_with_UpdatedAt now (item_with_Status OrderItemStatusCancelled i)).

(** The [SET] clause of [UpdateStatus id Completed]. *)
Definition complete_order (updated now : Time) (o : Order) : Order :=
  order_with_CompletedAt (Some now)
    (order_with_UpdatedAt updated (order_with_Status OrderStatusCompleted o)).

(** The check behind the completion cascade of [UpdateItemStatus itemID
    Completed]: every other line of the order, cancelled or not, is
    [Completed]. *)
Definition others_completed (orderID itemID : UUID) (t : list OrderItem) : bool :=
  forallb (fun i => negb (item_OrderID i =? orderID)%N
                    || (item_ID i =? itemID)%N
                    || String.eqb (item_Status i) OrderItemStatusCompleted) t.

(** The check the cascade is claimed to make: every line of the order that is
    not cancelled is [Completed]. *)
Definition live_items_completed (orderID : UUID) (t : list OrderItem) : bool :=
  forallb (fun i => negb (billed orderID i)
                    || String.eqb (item_Status i) OrderItemStatusCompleted) t.

(** The item [itemID] carries the stamp [sent_to_station_at = sent]. *)
Definition stamped (itemID : UUID) (sent : Time) (d : DB) : Prop :=
  exists row, In row (order_items d) /\ item_ID row = itemID /\
              item_SentToStationAt row = Some sent.

(** [CASE WHEN sent_to_station_at IS NULL THEN $3 ELSE sent_to_station_at END] *)
Definition stamp_once (now : Time) (sent : option Time) : option Time :=
  match sent with
  | None => Some now
  | Some t => Some t
  end.

(** *** Histories *)

(** The mutations of the order store that the API exposes. *)
Inductive mutation :=
| mutCreateOrder (req : OrderRequest) (userID : UUID)
| mutUpdateStatus (id : UUID) (status : OrderStatus)
| mutUpdateItemStatus (itemID : UUID) (status : OrderItemStatus)
| mutVoidItem (itemID : UUID) (reason : string).

Definition apply_mutation (m : mutation) (w : World) : World :=
  match m with
  | mutCreateOrder req userID => snd (CreateOrder req userID w)
  | mutUpdateStatus id status => snd (UpdateStatus id status w)
  | mutUpdateItemStatus itemID status => snd (UpdateItemStatus itemID status w)
  | mutVoidItem itemID reason => snd (VoidItem itemID reason w)
  end.




(** *** Executable versions of the predicates *)





Definition checkedb (d : DB) : bool :=
  forallb (fun i => (0 <? item_Quantity i) && (0 <=? item_Price i)) (order_items d)
  && forallb (fun o => valid_order_status (order_Status o)) (orders d).



Definition stampedb (itemID : UUID) (sent : Time) (d : DB) : bool :=
  existsb (fun row => (item_ID row =? itemID)%N
                      && match item_SentToStationAt row with
                         | Some t => t =? sent
                         | None => false
                         end) (order_items d).

(** Is the client in the global client set?  In the subset of a station? *)
Definition is_client (h : Hub) (client : ClientRef) : bool :=
  bool_decide (client ∈ clients h).

Definition registered_for (h : Hub) (stationID : string) (client : ClientRef) : bool :=
  bool_decide (client ∈ default ∅ (stationChannels h !! stationID)).

(** ** A small restaurant, for examples

    Burgers go to the kitchen (priority 1) before the bar (2) and the grill
    (3), beer goes to the bar, water is not routed.  The kitchen has a
    printer.  Amounts are in cents. *)

Definition example_db : DB :=
  mkDB
    [mkMenuItem 1%N "Burger" 800; mkMenuItem 2%N "Beer" 500; mkMenuItem 3%N "Water" 0]
    [mkModifierOption 10%N "Cheese" 150]
    [mkRoutingRule 20%N 1%N 30%N 3; mkRoutingRule 21%N 1%N 31%N 1;
     mkRoutingRule 22%N 1%N 32%N 2; mkRoutingRule 23%N 2%N 32%N 1]
    [mkStation 30%N "grill" None None None None;
     mkStation 31%N "kitchen" (Some 40%N) None None None;
     mkStation 32%N "bar" None None None None]
    [mkPrinter 40%N "kitchen printer"]
    [] [] [] [].

(** No order yet, a storage layer that does not fail, identifiers 100, 101,
    ... and a runtime that always picks the first entry left. *)
Definition example_world : World :=
  mkWorld example_db 0 1000 [] (fun _ => false) (fun n => N.of_nat (100 + n))
    (fun _ _ => "20261030-ab12") (fun _ => 0%nat).

Definition world_with_faulty (f : nat -> bool) (w : World) : World :=
  mkWorld (db w) (issued w) (clock w) (stdout w) f (uuid_generate_v4 w)
    (format_order_number w) (range_picks w).

Definition world_with_range_picks (p : nat -> nat) (w : World) : World :=
  mkWorld (db w) (issued w) (clock w) (stdout w) (faulty w) (uuid_generate_v4 w)
    (format_order_number w) p.

(** Two burgers with cheese and one beer. *)
Definition example_request : OrderRequest :=
  mkOrderRequest
    [mkOrderItemRequest 1%N 2 None [mkOrderModifierRequest 10%N];
     mkOrderItemRequest 2%N 1 (Some "cold") []].

(** The world after the order has been placed: order 101 with the lines 104
    (burgers, 2 × 9.50) and 111 (beer, 5.00). *)
Definition example_placed : World :=
  Eval vm_compute in snd (CreateOrder example_request 7%N example_world).

(** The world after line 104 of the example has been voided. *)
Definition example_voided : World :=
  Eval vm_compute in snd (VoidItem 104%N "dropped" example_placed).

(** The world after line 104 of the example has been completed; line 111 is
    the last one in progress. *)
Definition example_one_left : World :=
  Eval vm_compute in snd (UpdateItemStatus 104%N OrderItemStatusCompleted example_placed).

(** The same world, with a storage layer that fails the fourth statement
    from now on: the [UPDATE orders] of the completion cascade. *)
Definition example_one_left_failing : World :=
  world_with_faulty (Nat.eqb (issued example_one_left + 3)) example_one_left.

(** The example restaurant with a runtime that visits the kitchen first and a
    storage layer that fails statement 19: the printer lookup of
    [PrintOrderItems] for the kitchen. *)
Definition example_print_failure : World :=
  world_with_range_picks (fun k => k) (world_with_faulty (Nat.eqb 19) example_world).

(** ** A small hub, for examples

    Client 1 is a kitchen display registered for the stations "grill" and
    "bar" whose queue is full; client 2 is registered for "bar" and idle. *)

Definition full_queue : Chan := mkChan (List.repeat "order.update" 256) false.

Definition example_hub : Hub :=
  mkHub {[1%positive; 2%positive]}
    (<["grill" := {[1%positive]}]> (<["bar" := {[1%positive; 2%positive]}]> ∅))
    {[1%positive := full_queue]}.

(** ** Clients of the hub ([internal/websockets/client.go]) *)

(** [Client.SetStationID]: the hub, and the value of [c.stationID], after the
    call. *)
Definition SetStationID (h : Hub) (client : ClientRef) (stationID : string) : Hub * string :=
  (if String.eqb stationID "" then h else RegisterStationClient h client stationID,
   stationID).

(** ** More of the order handlers ([internal/api/handler/order.go]) *)

Definition StatusOK : nat := 200.



Definition voidOrderItem (id : UUID) (reason : string) (w : World) : nat * World :=
  match VoidItem id reason w with
  | (Ok _, w') => (StatusOK, w')
  | (Err e, w') => (StatusInternalServerError, w')
  end.

(** ** The listings of the order repository
    ([internal/db/repository/order_repo.go]) *)

(** [ORDER BY key DESC] *)
Definition order_by_desc {R} (key : R -> Z) (l : list R) : list R :=
  order_by (fun r => - key r) l.

(** [LIMIT n] *)
Definition sql_limit {R} (n : nat) (l : list R) : list R := firstn n l.

(** [OrderRepository.List]: the orders, or those with the given status,
    newest first, a hundred at most.  The rows are scanned into [Order]
    structs, whose [Items] stay empty. *)
Definition Order_List (status : option OrderStatus) : M (list Order) :=
  wrap "failed to list orders"
    (query (fun d =>
       let rows := match status with
                   | Some s => sql_where (fun o => String.eqb (order_Status o) s) (orders d)
                   | None => orders d
                   end in
       Ok (List.map order_row (sql_limit 100 (order_by_desc order_OrderedAt rows))))).

(** [OrderRepository.GetOrderHistory]:
    [WHERE ordered_at BETWEEN $1 AND $2 ORDER BY ordered_at DESC LIMIT 500] *)
Definition GetOrderHistory (startDate endDate : Time) : M (list Order) :=
  wrap "failed to get order history"
    (query (fun d =>
       Ok (List.map order_row
             (sql_limit 500
                (order_by_desc order_OrderedAt
                   (sql_where (fun o => (startDate <=? order_OrderedAt o)
                                        && (order_OrderedAt o <=? endDate))
                      (orders d))))))).

(** [OrderHandler.listOrders], from the [status] parameter of the query on:
    the status of the response and the orders it carries.  An empty
    parameter means no filter. *)
Definition listOrders (statusStr : string) (w : World) : nat * list Order * World :=
  let status := if String.eqb statusStr "" then None else Some statusStr in
  match Order_List status w with
  | (Ok orders, w') => (StatusOK, orders, w')
  | (Err e, w') => (StatusInternalServerError, [], w')
  end.

(** ** Deleting stations, printers and displays
    ([internal/db/repository/station_repo.go], [printer_repo.go]) *)

Definition db_with_routing_rules (t : list RoutingRule) (d : DB) : DB :=
  mkDB (menu_items d) (modifier_options d) t (stations d)
    (printers d) (displays d) (orders d) (order_items d) (order_item_modifiers d).

Definition db_with_stations (t : list Station) (d : DB) : DB :=
  mkDB (menu_items d) (modifier_options d) (routing_rules d) t
    (printers d) (displays d) (orders d) (order_items d) (order_item_modifiers d).

Definition db_with_printers (t : list Printer) (d : DB) : DB :=
  mkDB (menu_items d) (modifier_options d) (routing_rules d) (stations d)
    t (displays d) (orders d) (order_items d) (order_item_modifiers d).

Definition db_with_displays (t : list Display) (d : DB) : DB :=
  mkDB (menu_items d) (modifier_options d) (routing_rules d) (stations d)
    (printers d) t (orders d) (order_items d) (order_item_modifiers d).

(** [DELETE FROM t WHERE p] *)
Definition sql_delete {R} (p : R -> bool) (t : list R) : list R :=
  List.filter (fun r => negb (p r)) t.

(** [DELETE FROM stations WHERE id = $1]; the result is the number of rows
    affected.  The items of the orders refer to their station: the statement
    fails while one of them refers to the station.  The routing rules of the
    station go with it ([ON DELETE CASCADE]). *)
Definition delete_station (id : UUID) : M nat :=
  exec (fun d _ _ =>
    let deleted := sql_where (fun s => (station_ID s =? id)%N) (stations d) in
    if negb (Nat.eqb (List.length deleted) 0)
       && existsb (fun i => (item_StationID i =? id)%N) (order_items d)
    then Err (ErrConstraint "order_items_station_id_fkey")
    else Ok (List.length deleted,
             db_with_routing_rules
               (sql_delete (fun r => (rule_StationID r =? id)%N) (routing_rules d))
               (db_with_stations
                  (sql_delete (fun s => (station_ID s =? id)%N) (stations d)) d))).

(** [StationRepository.Delete] *)
Definition Station_Delete (id : UUID) : M unit :=
  count ← wrap "failed to check station usage"
            (query (fun d => Ok (List.length
                                   (sql_where (fun r => (rule_StationID r =? id)%N)
                                      (routing_rules d)))));
  if (0 <? count)%nat
  then fail (ErrNew ("cannot delete station with " ++ pretty count ++ " routing rules"))
  else
    rowsAffected ← wrap "failed to delete station" (delete_station id);
    if Nat.eqb rowsAffected 0 then fail (ErrNew "station not found") else mret tt.

(** [DELETE FROM printers WHERE id = $1]; stations refer to their printer
    ([fk_stations_printer]). *)
Definition delete_printer (id : UUID) : M nat :=
  exec (fun d _ _ =>
    let deleted := sql_where (fun p => (printer_ID p =? id)%N) (printers d) in
    if negb (Nat.eqb (List.length deleted) 0)
       && existsb (fun s => match station_PrinterID s with
                            | Some p => (p =? id)%N
                            | None => false
                            end) (stations d)
    then Err (ErrConstraint "fk_stations_printer")
    else Ok (List.length deleted,
             db_with_printers (sql_delete (fun p => (printer_ID p =? id)%N) (printers d)) d)).

(** [PrinterRepository.DeletePrinter] *)
Definition DeletePrinter (id : UUID) : M unit :=
  count ← wrap "failed to check printer usage"
            (query (fun d => Ok (List.length
                                   (sql_where (fun s => match station_PrinterID s with
                                                        | Some p => (p =? id)%N
                                                        | None => false
                                                        end) (stations d)))));
  if (0 <? count)%nat
  then fail (ErrNew ("cannot delete printer used by " ++ pretty count ++ " stations"))
  else
    rowsAffected ← wrap "failed to delete printer" (delete_printer id);
    if Nat.eqb rowsAffected 0 then fail (ErrNew "printer not found") else mret tt.

(** [DELETE FROM displays WHERE id = $1]; stations refer to their display
    ([fk_stations_display]). *)
Definition delete_display (id : UUID) : M nat :=
  exec (fun d _ _ =>
    let deleted := sql_where (fun p => (display_ID p =? id)%N) (displays d) in
    if negb (Nat.eqb (List.length deleted) 0)
       && existsb (fun s => match station_DisplayID s with
                            | Some p => (p =? id)%N
                            | None => false
                            end) (stations d)
    then Err (ErrConstraint "fk_stations_display")
    else Ok (List.length deleted,
             db_with_displays (sql_delete (fun p => (display_ID p =? id)%N) (displays d)) d)).

(** [PrinterRepository.DeleteDisplay] *)
Definition DeleteDisplay (id : UUID) : M unit :=
  count ← wrap "failed to check display usage"
            (query (fun d => Ok (List.length
                                   (sql_where (fun s => match station_DisplayID s with
                                                        | Some p => (p =? id)%N
                                                        | None => false
                                                        end) (stations d)))));
  if (0 <? count)%nat
  then fail (ErrNew ("cannot delete display used by " ++ pretty count ++ " stations"))
  else
    rowsAffected ← wrap "failed to delete display" (delete_display id);
    if Nat.eqb rowsAffected 0 then fail (ErrNew "display not found") else mret tt.

(** ** The routing of the order handlers
    ([internal/api/handler/order.go])

    [HandleOrders], [HandleOrderItems] and [HandleStationItems] look at the
    method and the path of the request and either answer with [http.Error]
    or hand the request to one of the handlers. *)

(** Go's [strings] package, as far as the handlers use it.  [Split] is the
    split at a separator of one character, which is how the handlers call
    it. *)
Definition HasPrefix (s prefix : string) : bool := String.prefix prefix s.

Fixpoint string_drop (n : nat) (s : string) : string :=
  match n, s with
  | O, _ => s
  | S n', String _ s' => string_drop n' s'
  | S _, EmptyString => EmptyString
  end.

Definition TrimPrefix (s prefix : string) : string :=
  if HasPrefix s prefix then string_drop (String.length prefix) s else s.

Fixpoint Contains (s substr : string) : bool :=
  HasPrefix s substr
  || match s with
     | EmptyString => false
     | String _ s' => Contains s' substr
     end.

Fixpoint Split (s : string) (sep : ascii) : list string :=
  match s with
  | EmptyString => [EmptyString]
  | String c s' =>
      if Ascii.eqb c sep then EmptyString :: Split s' sep
      else match Split s' sep with
           | part :: parts => String c part :: parts
           | [] => [String c EmptyString]
           end
  end.

Definition MethodGet : string := "GET".
Definition MethodPost : string := "POST".
Definition MethodPut : string := "PUT".

Definition StatusBadRequest : nat := 400.
Definition StatusMethodNotAllowed : nat := 405.

(** Where a request ends up. *)
Inductive routed :=
| http_Error (message : string) (code : nat)
| to_handleOrderHistory
| to_getOrderReceipt (id : UUID)
| to_reprintOrderReceipt (id : UUID)
| to_listOrders
| to_getOrder (id : UUID)
| to_createOrder
| to_updateOrderStatus (id : UUID)
| to_voidOrderItem (id : UUID)
| to_updateOrderItemStatus (id : UUID)
| to_GetStationItems (id : UUID).

Section Routing.
(** [uuid.Parse] *)
Variable uuid_Parse : string -> option UUID.

(** [OrderHandler.HandleOrders] *)
Definition HandleOrders (method path : string) : routed :=
  let path := TrimPrefix path "/orders" in
  let path := TrimPrefix path "/" in
  if HasPrefix path "history" then to_handleOrderHistory
  else if Contains path "/receipt" then
    let parts := Split path "/" in
    if (List.length parts <? 2)%nat then http_Error "Invalid path" StatusBadRequest
    else
      match uuid_Parse (nth 0 parts "") with
      | None => http_Error "Invalid order ID" StatusBadRequest
      | Some id =>
          if String.eqb method MethodGet then to_getOrderReceipt id
          else if String.eqb method MethodPost && String.eqb (nth 1 parts "") "reprint"
          then to_reprintOrderReceipt id
          else http_Error "Method not allowed" StatusMethodNotAllowed
      end
  else if String.eqb method MethodGet then
    if String.eqb path "" then to_listOrders
    else match uuid_Parse path with
         | None => http_Error "Invalid order ID" StatusBadRequest
         | Some id => to_getOrder id
         end
  else if String.eqb method MethodPost then
    if negb (String.eqb path "") then http_Error "Invalid path" StatusBadRequest
    else to_createOrder
  else if String.eqb method MethodPut then
    match uuid_Parse path with
    | None => http_Error "Invalid order ID" StatusBadRequest
    | Some id => to_updateOrderStatus id
    end
  else http_Error "Method not allowed" StatusMethodNotAllowed.

(** [OrderHandler.HandleOrderItems] *)
Definition HandleOrderItems (method path : string) : routed :=
  let path := TrimPrefix path "/order-items" in
  let path := TrimPrefix path "/" in
  if Contains path "/void" then
    let parts := Split path "/" in
    if (List.length parts <? 2)%nat then http_Error "Invalid path" StatusBadRequest
    else
      match uuid_Parse (nth 0 parts "") with
      | None => http_Error "Invalid item ID" StatusBadRequest
      | Some id =>
          if String.eqb method MethodPut then to_voidOrderItem id
          else http_Error "Method not allowed" StatusMethodNotAllowed
      end
  else if String.eqb method MethodPut then
    match uuid_Parse path with
    | None => http_Error "Invalid item ID" StatusBadRequest
    | Some id => to_updateOrderItemStatus id
    end
  else http_Error "Method not allowed" StatusMethodNotAllowed.

(** [OrderHandler.HandleStationItems], up to the call of the service *)
Definition HandleStationItems (method path : string) : routed :=
  if negb (String.eqb method MethodGet)
  then http_Error "Method not allowed" StatusMethodNotAllowed
  else
    let path := TrimPrefix path "/stations/" in
    let path := TrimPrefix path "/items" in
    match uuid_Parse path with
    | None => http_Error "Invalid station ID" StatusBadRequest
    | Some stationID => to_GetStationItems stationID
    end.
End Routing.

(** ** Vocabulary of the hub properties *)

(** Every client of the global set has an open queue. *)
Definition clients_open (h : Hub) : Prop :=
  forall client, client ∈ clients h -> closed (client_send h client) = false.

(** The queue has room for one more message. *)
Definition has_room (ch : Chan) : bool :=
  (List.length (buffer ch) <? send_capacity)%nat.

(** ** Vocabulary of the order store properties *)

(** The row [UpdateStatus id status] makes of [o] when the first reading of
    the clock is [updated]. *)
Definition order_status_set (status : OrderStatus) (updated : Time) (o : Order) : Order :=
  mkOrder (order_ID o) (order_UserID o) (order_OrderNumber o) status (order_Total o)
    (order_OrderedAt o)
    (if String.eqb status OrderStatusCompleted then Some (updated + 1)
     else order_CompletedAt o)
    (order_CreatedAt o) updated (order_Items o).

(** The money of the order store: the total of every order, and the price
    and the quantity of every line with the order it belongs to. *)
Definition amounts (d : DB) : list (UUID * Z) * list (UUID * UUID * Z * Z) :=
  (List.map (fun o => (order_ID o, order_Total o)) (orders d),
   List.map (fun i => (item_ID i, item_OrderID i, item_Price i, item_Quantity i))
     (order_items d)).


(** ** Vocabulary of the listings *)

(** [l] holds the newest [n] of the rows of [t] that satisfy [p], newest
    first: every entry is such a row, no entry is older than the entry after
    it, there are [n] entries at most, and a row that satisfies [p] is left
    out only when [l] is full and holds nothing older than it. *)
Definition newest_first (n : nat) (p : Order -> bool) (t l : list Order) : Prop :=
  (List.length l <= n)%nat /\
  Forall (fun o => order_Items o = [] /\
                   exists row, In row t /\ p row = true /\ o = order_row row) l /\
  StronglySorted (fun a b => order_OrderedAt b <= order_OrderedAt a) l /\
  (forall row, In row t -> p row = true -> ~ In (order_row row) l ->
               List.length l = n /\
               Forall (fun o => order_OrderedAt row <= order_OrderedAt o) l).

(** ** Vocabulary of the references between tables *)

(** The references to stations, printers and displays that the schema
    declares: every routing rule and every order item refers to a station,
    and every station to the printer and to the display it names. *)
Definition linked (d : DB) : Prop :=
  (forall r, In r (routing_rules d) -> In (rule_StationID r) (List.map station_ID (stations d))) /\
  (forall i, In i (order_items d) -> In (item_StationID i) (List.map station_ID (stations d))) /\
  (forall s p, In s (stations d) -> station_PrinterID s = Some p ->
               In p (List.map printer_ID (printers d))) /\
  (forall s x, In s (stations d) -> station_DisplayID s = Some x ->
               In x (List.map display_ID (displays d))).

Definition linkedb (d : DB) : bool :=
  forallb (fun r => existsb (fun s => (station_ID s =? rule_StationID r)%N) (stations d))
    (routing_rules d)
  && forallb (fun i => existsb (fun s => (station_ID s =? item_StationID i)%N) (stations d))
       (order_items d)
  && forallb (fun s => match station_PrinterID s with
                       | Some p => existsb (fun x => (printer_ID x =? p)%N) (printers d)
                       | None => true
                       end) (stations d)
  && forallb (fun s => match station_DisplayID s with
                       | Some p => existsb (fun x => (display_ID x =? p)%N) (displays d)
                       | None => true
                       end) (stations d).

(** ** Vocabulary of the processing of a new order *)

(** The operation [m] leaves the component [f] of the world as it is. *)
Definition keeps {X A} (f : World -> X) (m : M A) : Prop :=
  forall w, f (snd (m w)) = f w.

(** A component of the world that no statement and no reading of the clock
    changes. *)
Definition oracle {X} (f : World -> X) : Prop :=
  (forall d w, f (world_with_db d w) = f w) /\
  (forall w, f (world_issue w) = f w) /\
  (forall w, f (world_tick w) = f w).

(** The columns of an item that no status update writes. *)
Definition same_line (r r' : OrderItem) : Prop :=
  item_ID r' = item_ID r /\
  item_OrderID r' = item_OrderID r /\
  item_MenuItemID r' = item_MenuItemID r /\
  item_StationID r' = item_StationID r /\
  item_Quantity r' = item_Quantity r /\
  item_Price r' = item_Price r.

(** What sending the items [ids] to their stations makes of the row [r]:
    the rows of these items are [InProgress] and stamped, a stamp that was
    there is kept, and the other rows are untouched. *)
Definition sent_row (ids : list UUID) (r r' : OrderItem) : Prop :=
  same_line r r' /\
  (In (item_ID r) ids ->
   item_Status r' = OrderItemStatusInProgress /\ item_SentToStationAt r' <> None) /\
  (~ In (item_ID r) ids -> r' = r) /\
  (forall t, item_SentToStationAt r = Some t -> item_SentToStationAt r' = Some t).

(** The ticket of a station group: printed when the station has a printer. *)
Definition ticket (d : DB) (order : Order) (g : UUID * list OrderItem) : list Output :=
  match station_by_id (fst g) d with
  | Ok s =>
      match station_PrinterID s with
      | Some p =>
          match printer_by_id p d with
          | Ok printer => [Printing printer (order_ID order) (List.map item_ID (snd g))]
          | Err _ => []
          end
      | None => []
      end
  | Err _ => []
  end.

Definition tickets (d : DB) (order : Order) (groups : list (UUID * list OrderItem))
    : list Output :=
  List.concat (List.map (ticket d order) groups).

(** The checks [quantity > 0] and [price >= 0] hold for the rows of
    [order_items]. *)
Definition items_checked (d : DB) : Prop :=
  Forall (fun i => 0 < item_Quantity i /\ 0 <= item_Price i) (order_items d).

(** ** Vocabulary of the routing *)

(** A path segment: not empty, and without a slash. *)
Definition segment (s : string) : Prop :=
  s <> EmptyString /\ Forall (fun c => c <> "/"%char) (list_ascii_of_string s).

Fixpoint segmentb (s : string) : bool :=
  match s with
  | EmptyString => false
  | String c EmptyString => negb (Ascii.eqb c "/")
  | String c s' => negb (Ascii.eqb c "/") && segmentb s'
  end.

(** The identifiers of the examples are numbers; in the paths of the
    examples they are written in decimal. *)
Fixpoint decimal (s : string) (acc : N) : option N :=
  match s with
  | EmptyString => Some acc
  | String c s' =>
      let n := N_of_ascii c in
      if (48 <=? n)%N && (n <=? 57)%N then decimal s' (10 * acc + (n - 48))%N else None
  end.

Definition example_uuid_Parse (s : string) : option UUID :=
  if String.eqb s "" then None else decimal s 0%N.

(** * Properties *)

(** ** Reasoning about the monad *)

Lemma bind_ok {A B} (m : M A) (f : A -> M B) w b w' :
  (m ≫= f) w = (Ok b, w') ->
  exists a w1, m w = (Ok a, w1) /\ f a w1 = (Ok b, w').
Proof.
  unfold mbind, M_bind. destruct (m w) as [[a|e] w1]; intros H.
  - eauto.
  - discriminate.
Qed.

Lemma bind_err {A B} (m : M A) (f : A -> M B) w e w' :
  (m ≫= f) w = (Err e, w') ->
  m w = (Err e, w') \/ exists a w1, m w = (Ok a, w1) /\ f a w1 = (Err e, w').
Proof.
  unfold mbind, M_bind. destruct (m w) as [[a|e0] w1]; intros H.
  - right. eauto.
  - left. congruence.
Qed.

Lemma wrap_ok {A} msg (m : M A) w a w' :
  wrap msg m w = (Ok a, w') -> m w = (Ok a, w').
Proof.
  unfold wrap. destruct (m w) as [[a0|e] w1]; intros H; congruence.
Qed.

Lemma wrap_snd {A} msg (m : M A) w : snd (wrap msg m w) = snd (m w).
Proof. unfold wrap. destruct (m w) as [[a0|e] w1]; reflexivity. Qed.

Lemma exec_ok {A} (q : DB -> Z -> N -> result (A * DB)) w a w' :
  exec q w = (Ok a, w') ->
  faulty w (issued w) = false /\
  exists d, q (db w) (clock w) (uuid_generate_v4 w (issued w)) = Ok (a, d) /\
            w' = world_with_db d (world_issue w).
Proof.
  unfold exec. destruct (faulty w (issued w)); [discriminate|].
  destruct (q _ _ _) as [[a0 d]|e]; intros H; inversion H; subst. eauto.
Qed.

Lemma exec_run {A} (q : DB -> Z -> N -> result (A * DB)) w :
  faulty w (issued w) = false ->
  exec q w = match q (db w) (clock w) (uuid_generate_v4 w (issued w)) with
             | Ok (a, d) => (Ok a, world_with_db d (world_issue w))
             | Err e => (Err e, world_issue w)
             end.
Proof. unfold exec. intros ->. reflexivity. Qed.

Lemma query_ok {A} (f : DB -> result A) w a w' :
  query f w = (Ok a, w') -> f (db w) = Ok a /\ db w' = db w.
Proof.
  unfold query. intros H. apply exec_ok in H as (_ & d & Hq & ->).
  destruct (f (db w)); inversion Hq; subst. auto.
Qed.

Lemma time_Now_ok w t w' :
  time_Now w = (Ok t, w') -> t = clock w /\ db w' = db w.
Proof. unfold time_Now. intros H; inversion H; subst. auto. Qed.

Lemma db_inv_ret {A} I (a : A) : db_inv I (mret a).
Proof. intros w H. exact H. Qed.

Lemma db_inv_fail {A} I e : db_inv I (@fail A e).
Proof. intros w H. exact H. Qed.

Lemma db_inv_bind {A B} I (m : M A) (f : A -> M B) :
  db_inv I m -> (forall a, db_inv I (f a)) -> db_inv I (m ≫= f).
Proof.
  intros Hm Hf w H. unfold mbind, M_bind. specialize (Hm w H).
  destruct (m w) as [[a|e] w1]; simpl in *.
  - apply Hf, Hm.
  - exact Hm.
Qed.

Lemma db_inv_bind_val {A B} I (m : M A) (f : A -> M B) (V : A -> Prop) :
  (forall w a w', m w = (Ok a, w') -> V a) ->
  db_inv I m -> (forall a, V a -> db_inv I (f a)) -> db_inv I (m ≫= f).
Proof.
  intros HV Hm Hf w H. unfold mbind, M_bind. specialize (Hm w H).
  destruct (m w) as [[a|e] w1] eqn:E; simpl in *.
  - apply Hf; [eapply HV; exact E|exact Hm].
  - exact Hm.
Qed.

Lemma db_inv_wrap {A} I msg (m : M A) : db_inv I m -> db_inv I (wrap msg m).
Proof. intros Hm w H. rewrite wrap_snd. apply Hm, H. Qed.

Lemma db_inv_exec {A} (I : DB -> Prop) (q : DB -> Z -> N -> result (A * DB)) :
  (forall d now id a d', I d -> q d now id = Ok (a, d') -> I d') ->
  db_inv I (exec q).
Proof.
  intros Hq w H. unfold exec. destruct (faulty w (issued w)); [exact H|].
  destruct (q _ _ _) as [[a d]|e] eqn:E; simpl; [|exact H].
  eapply Hq; eauto.
Qed.

Lemma db_inv_query {A} I (f : DB -> result A) : db_inv I (query f).
Proof.
  apply db_inv_exec. intros d _ _ a d' H E.
  destruct (f d); inversion E; subst. exact H.
Qed.

Lemma db_inv_time_Now I : db_inv I time_Now.
Proof. intros w H. exact H. Qed.

Lemma db_inv_Printf I o : db_inv I (Printf o).
Proof. intros w H. exact H. Qed.

Lemma db_inv_log_error I m : db_inv I m -> db_inv I (log_error m).
Proof.
  intros Hm w H. specialize (Hm w H). unfold log_error.
  destruct (m w) as [[a|e] w1]; exact Hm.
Qed.

Lemma db_inv_if {A} I (b : bool) (m1 m2 : M A) :
  db_inv I m1 -> db_inv I m2 -> db_inv I (if b then m1 else m2).
Proof. destruct b; auto. Qed.

Ltac db_inv_step :=
  lazymatch goal with
  | |- db_inv _ (_ ≫= _) => apply db_inv_bind; [|intros ?]
  | |- db_inv _ (wrap _ _) => apply db_inv_wrap
  | |- db_inv _ (if _ then _ else _) => apply db_inv_if
  | |- db_inv _ (match ?x with _ => _ end) => destruct x
  | |- db_inv _ (mret _) => apply db_inv_ret
  | |- db_inv _ (fail _) => apply db_inv_fail
  | |- db_inv _ (query _) => apply db_inv_query
  | |- db_inv _ time_Now => apply db_inv_time_Now
  | |- db_inv _ (Printf _) => apply db_inv_Printf
  | |- db_inv _ (log_error _) => apply db_inv_log_error
  end.

(** A transaction that fails leaves the rows as it found them. *)
Lemma BeginTxx_ok w tx w' :
  BeginTxx w = (Ok tx, w') -> snapshot tx = db w /\ db w' = db w.
Proof.
  intros H. apply exec_ok in H as (_ & d & Hq & ->).
  inversion Hq; subst. auto.
Qed.

Lemma BeginTxx_db w : db (snd (BeginTxx w)) = db w.
Proof.
  unfold BeginTxx, exec. destruct (faulty w (issued w)); reflexivity.
Qed.

Lemma defer_rollback_err {A} tx (body : M A) w e w' :
  defer_rollback tx body w = (Err e, w') -> db w' = snapshot tx.
Proof.
  unfold defer_rollback. destruct (body w) as [[a|e0] w1]; intros H; inversion H.
  reflexivity.
Qed.

Lemma defer_rollback_ok {A} tx (body : M A) w a w' :
  defer_rollback tx body w = (Ok a, w') -> body w = (Ok a, w').
Proof.
  unfold defer_rollback. destruct (body w) as [[a0|e0] w1]; intros H; congruence.
Qed.

Lemma transaction_err {A} msg (body : Tx -> M A) w e w' :
  (tx ← wrap msg BeginTxx; defer_rollback tx (body tx)) w = (Err e, w') ->
  db w' = db w.
Proof.
  intros H. apply bind_err in H as [H|(tx & w1 & H1 & H2)].
  - assert (E : snd (wrap msg BeginTxx w) = w') by (rewrite H; reflexivity).
    rewrite wrap_snd in E. rewrite <- E. apply BeginTxx_db.
  - apply wrap_ok, BeginTxx_ok in H1 as [Hs _].
    apply defer_rollback_err in H2. congruence.
Qed.

Lemma transaction_ok {A} msg (body : Tx -> M A) w a w' :
  (tx ← wrap msg BeginTxx; defer_rollback tx (body tx)) w = (Ok a, w') ->
  exists tx w1, db w1 = db w /\ body tx w1 = (Ok a, w').
Proof.
  intros H. apply bind_ok in H as (tx & w1 & H1 & H2).
  apply wrap_ok, BeginTxx_ok in H1 as [_ Hd].
  apply defer_rollback_ok in H2. eauto.
Qed.

Theorem Create_rollback order itemRequests w e w' :
  Create order itemRequests w = (Err e, w') -> db w' = db w.
Proof. apply transaction_err. Qed.

Theorem VoidItem_rollback itemID reason w e w' :
  VoidItem itemID reason w = (Err e, w') -> db w' = db w.
Proof. apply transaction_err. Qed.

(** ** Frames: the order store only reads the catalog *)

Lemma catalog_db_with_orders t d : catalog (db_with_orders t d) = catalog d.
Proof. reflexivity. Qed.

Lemma catalog_db_with_order_items t d : catalog (db_with_order_items t d) = catalog d.
Proof. reflexivity. Qed.

Lemma catalog_db_with_order_item_modifiers t d :
  catalog (db_with_order_item_modifiers t d) = catalog d.
Proof. reflexivity. Qed.

Lemma menu_item_by_id_catalog id d d' :
  catalog d = catalog d' -> menu_item_by_id id d = menu_item_by_id id d'.
Proof. unfold catalog, menu_item_by_id. intros H. inversion H. congruence. Qed.

Lemma modifier_option_by_id_catalog id d d' :
  catalog d = catalog d' -> modifier_option_by_id id d = modifier_option_by_id id d'.
Proof. unfold catalog, modifier_option_by_id. intros H. inversion H. congruence. Qed.

Lemma routing_station_catalog id d d' :
  catalog d = catalog d' -> routing_station id d = routing_station id d'.
Proof. unfold catalog, routing_station. intros H. inversion H. congruence. Qed.

Lemma created_item_catalog d d' orderID itemReq i :
  catalog d = catalog d' -> created_item d orderID itemReq i ->
  created_item d' orderID itemReq i.
Proof.
  intros E (H1 & H2 & H3 & H4 & H5 & H6 & H7 & H8 & H9 & m & H10 & H11).
  unfold created_item. repeat split; try assumption.
  - rewrite <- (routing_station_catalog _ _ _ E). exact H7.
  - eapply List.Forall_impl; [|exact H9]. intros x (opt & Ho & Hp). exists opt.
    rewrite <- (modifier_option_by_id_catalog _ _ _ E). auto.
  - exists m. rewrite <- (menu_item_by_id_catalog _ _ _ E). auto.
Qed.

(** ** The statements of [Create] *)

Lemma first_error_None_cons c cs :
  first_error (c :: cs) = None -> c = None /\ first_error cs = None.
Proof. unfold first_error. simpl. destruct c; [discriminate|auto]. Qed.

Lemma pkey_None {R} name (id_of : R -> N) id t :
  pkey name id_of id t = None -> existsb (fun r => (id_of r =? id)%N) t = false.
Proof. unfold pkey. destruct (existsb _ t); [discriminate|auto]. Qed.

Lemma fkey_None {R} name (id_of : R -> N) id t :
  fkey name id_of id t = None -> existsb (fun r => (id_of r =? id)%N) t = true.
Proof. unfold fkey. destruct (existsb _ t); [auto|discriminate]. Qed.

Lemma sql_check_None {R} name (ok : R -> bool) rows :
  sql_check name ok rows = None -> forallb ok rows = true.
Proof. unfold sql_check. destruct (forallb ok rows); [auto|discriminate]. Qed.

Lemma sql_update_fresh {R} (p : R -> bool) set (t : list R) :
  existsb p t = false -> sql_update p set t = t.
Proof.
  unfold sql_update. induction t as [|x t IH]; simpl; [reflexivity|].
  intros H. apply orb_false_iff in H as [Hx Ht]. rewrite Hx, IH; auto.
Qed.

Lemma sql_update_app {R} (p : R -> bool) set (t1 t2 : list R) :
  sql_update p set (t1 ++ t2) = sql_update p set t1 ++ sql_update p set t2.
Proof. unfold sql_update. apply List.map_app. Qed.

Lemma sql_where_fresh {R} (p : R -> bool) (t : list R) :
  existsb p t = false -> sql_where p t = [].
Proof.
  unfold sql_where. induction t as [|x t IH]; simpl; [reflexivity|].
  intros H. apply orb_false_iff in H as [Hx Ht]. rewrite Hx. auto.
Qed.

Lemma sql_where_app {R} (p : R -> bool) (t1 t2 : list R) :
  sql_where p (t1 ++ t2) = sql_where p t1 ++ sql_where p t2.
Proof. unfold sql_where. apply List.filter_app. Qed.

Lemma insert_order_ok order w row w' :
  insert_order order w = (Ok row, w') ->
  row = mkOrder (order_ID row) (order_UserID order) (order_OrderNumber order)
          (order_Status order) (order_Total order) (order_OrderedAt order)
          None (order_CreatedAt row) (order_UpdatedAt row) [] /\
  existsb (fun o => (order_ID o =? order_ID row)%N) (orders (db w)) = false /\
  db w' = db_with_orders (orders (db w) ++ [row]) (db w).
Proof.
  intros H. apply exec_ok in H as (_ & d & Hq & ->). cbv zeta in Hq.
  destruct (first_error _) eqn:E; [discriminate|]. inversion Hq; subst; clear Hq.
  apply first_error_None_cons in E as [Hpk _]. apply pkey_None in Hpk.
  simpl. auto.
Qed.

Lemma insert_order_item_ok orderID menuItemID stationID quantity price status instr w row w' :
  insert_order_item orderID menuItemID stationID quantity price status instr w = (Ok row, w') ->
  row = mkOrderItem (item_ID row) orderID menuItemID stationID quantity price status instr
          None None (item_CreatedAt row) (item_UpdatedAt row) "" [] /\
  existsb (fun i => (item_ID i =? item_ID row)%N) (order_items (db w)) = false /\
  existsb (fun o => (order_ID o =? orderID)%N) (orders (db w)) = true /\
  0 < quantity /\
  db w' = db_with_order_items (order_items (db w) ++ [row]) (db w).
Proof.
  intros H. apply exec_ok in H as (_ & d & Hq & ->). cbv zeta in Hq.
  destruct (first_error _) eqn:E; [discriminate|]. inversion Hq; subst; clear Hq.
  apply first_error_None_cons in E as [Hpk E]. apply pkey_None in Hpk.
  apply first_error_None_cons in E as [Hfk E]. apply fkey_None in Hfk.
  apply first_error_None_cons in E as [_ E].
  apply first_error_None_cons in E as [_ E].
  apply first_error_None_cons in E as [E _].
  unfold order_items_constraints in E.
  apply first_error_None_cons in E as [Hq _]. apply sql_check_None in Hq.
  simpl in Hq. rewrite andb_true_r in Hq. apply Z.ltb_lt in Hq.
  simpl. auto.
Qed.

Lemma insert_order_item_modifier_ok orderItemID optionID adjustment w row w' :
  insert_order_item_modifier orderItemID optionID adjustment w = (Ok row, w') ->
  row = mkOrderItemModifier (mod_ID row) orderItemID optionID adjustment
          (mod_CreatedAt row) "" /\
  db w' = db_with_order_item_modifiers (order_item_modifiers (db w) ++ [row]) (db w).
Proof.
  intros H. apply exec_ok in H as (_ & d & Hq & ->). cbv zeta in Hq.
  destruct (first_error _) eqn:E; [discriminate|]. inversion Hq; subst; clear Hq.
  simpl. auto.
Qed.

Lemma update_order_items_ok p set w n w' :
  update_order_items p set w = (Ok n, w') ->
  n = List.length (sql_where p (order_items (db w))) /\
  db w' = db_with_order_items (sql_update p set (order_items (db w))) (db w).
Proof.
  intros H. apply exec_ok in H as (_ & d & Hq & ->). cbv zeta in Hq.
  destruct (order_items_constraints _ _); [discriminate|]. inversion Hq; subst.
  rewrite List.length_map. auto.
Qed.

Lemma update_orders_ok p set w n w' :
  update_orders p set w = (Ok n, w') ->
  n = List.length (sql_where p (orders (db w))) /\
  db w' = db_with_orders (sql_update p set (orders (db w))) (db w).
Proof.
  intros H. apply exec_ok in H as (_ & d & Hq & ->). cbv zeta in Hq.
  destruct (orders_constraints _ _); [discriminate|]. inversion Hq; subst.
  rewrite List.length_map. auto.
Qed.


(** The loop over the modifiers of a line: the price grows by the adjustments
    it records, and only [order_item_modifiers] changes. *)
Lemma create_modifiers_ok itemID mods : forall price created w r w',
  create_modifiers itemID mods price created w = (Ok r, w') ->
  exists new,
    r = (price + sum_Z (List.map mod_PriceAdjustment new), created ++ new) /\
    List.map mod_ModifierOptionID new = List.map req_OptionID mods /\
    Forall (fun m => exists opt, modifier_option_by_id (mod_ModifierOptionID m) (db w) = Ok opt /\
                                 mod_PriceAdjustment m = option_PriceAdjustment opt) new /\
    db w' = db_with_order_item_modifiers (order_item_modifiers (db w')) (db w).
Proof.
  induction mods as [|modReq rest IH]; intros price created w r w' H; simpl in H.
  - inversion H; subst. exists []. simpl. rewrite Z.add_0_r, app_nil_r.
    repeat split; auto. destruct (db w'); reflexivity.
  - apply bind_ok in H as (opt & w1 & H1 & H).
    apply wrap_ok, query_ok in H1 as [Hopt Hd1].
    apply bind_ok in H as (createdMod & w2 & H2 & H).
    apply wrap_ok, insert_order_item_modifier_ok in H2 as [Hrow Hd2].
    apply IH in H as (new & -> & Hids & Hall & Hd).
    exists (mod_with_Name (option_Name opt) createdMod :: new).
    repeat split.
    + simpl. rewrite <- app_assoc. simpl. f_equal.
      rewrite Hrow. simpl. lia.
    + simpl. rewrite Hids. f_equal. rewrite Hrow. reflexivity.
    + constructor.
      * exists opt. rewrite Hrow. simpl. auto.
      * eapply List.Forall_impl; [|exact Hall]. intros x (o & Ho & Hp). exists o.
        split; [|exact Hp]. rewrite <- Ho. apply modifier_option_by_id_catalog.
        rewrite Hd2, Hd1. reflexivity.
    + rewrite Hd. rewrite Hd2, Hd1. reflexivity.
Qed.

(** One line of the request: the row it appends and the struct it returns. *)
Lemma create_item_ok createdOrder itemReq w o' w' :
  create_item createdOrder itemReq w = (Ok o', w') ->
  exists createdItem,
    o' = order_with_Total (order_Total createdOrder + line_total createdItem)
           (order_with_Items (order_Items createdOrder ++ [createdItem]) createdOrder) /\
    created_item (db w) (order_ID createdOrder) itemReq createdItem /\
    existsb (fun i => (item_ID i =? item_ID createdItem)%N) (order_items (db w)) = false /\
    existsb (fun o => (order_ID o =? order_ID createdOrder)%N) (orders (db w)) = true /\
    orders (db w') = orders (db w) /\
    order_items (db w') = order_items (db w) ++ [item_row createdItem] /\
    catalog (db w') = catalog (db w).
Proof.
  unfold create_item. intros H.
  apply bind_ok in H as (name & w1 & H1 & H).
  apply wrap_ok, query_ok in H1 as [Hname Hd1].
  apply bind_ok in H as (stationID & w2 & H2 & H).
  apply wrap_ok, query_ok in H2 as [Hstation Hd2].
  apply bind_ok in H as (row & w3 & H3 & H).
  apply wrap_ok, insert_order_item_ok in H3 as (Hrow & Hfresh & Hfk & Hqty & Hd3).
  apply bind_ok in H as (basePrice & w4 & H4 & H).
  apply wrap_ok, query_ok in H4 as [Hbase Hd4].
  apply bind_ok in H as ([price modifiers] & w5 & H5 & H).
  apply create_modifiers_ok in H5 as (new & Hr & Hids & Hopts & Hd5).
  inversion Hr; subst price modifiers; clear Hr.
  apply bind_ok in H as (n & w6 & H6 & H).
  apply wrap_ok, update_order_items_ok in H6 as [_ Hd6].
  inversion H; subst o' w'; clear H.
  rewrite Hd2, Hd1 in Hfresh, Hfk, Hd3.
  rewrite Hd1 in Hstation.
  assert (Hc3 : catalog (db w3) = catalog (db w)) by (rewrite Hd3; reflexivity).
  assert (Hc4 : catalog (db w4) = catalog (db w)) by (rewrite Hd4; exact Hc3).
  rewrite (menu_item_by_id_catalog _ _ _ Hc3) in Hbase.
  destruct (menu_item_by_id (req_MenuItemID itemReq) (db w)) as [menuItem|] eqn:Hmenu;
    [|discriminate].
  simpl in Hname, Hbase. inversion Hname; inversion Hbase; subst name basePrice.
  set (price := menu_Price menuItem + sum_Z (List.map mod_PriceAdjustment new)) in *.
  exists (item_with_Price price (item_with_Modifiers new (item_with_Name (menu_Name menuItem) row))).
  assert (Hitems5 : order_items (db w5) = order_items (db w) ++ [row]).
  { rewrite Hd5. simpl. rewrite Hd4, Hd3. reflexivity. }
  assert (Horders5 : orders (db w5) = orders (db w)).
  { rewrite Hd5. simpl. rewrite Hd4, Hd3. reflexivity. }
  assert (Hc5 : catalog (db w5) = catalog (db w)).
  { rewrite Hd5. rewrite catalog_db_with_order_item_modifiers. exact Hc4. }
  repeat split.
  - rewrite Hrow. reflexivity.
  - rewrite Hrow. reflexivity.
  - rewrite Hrow. reflexivity.
  - rewrite Hrow. exact Hqty.
  - rewrite Hrow. reflexivity.
  - rewrite Hrow. reflexivity.
  - rewrite Hrow. exact Hstation.
  - exact Hids.
  - simpl. eapply List.Forall_impl; [|exact Hopts]. intros x (opt & Ho & Hp). exists opt.
    split; [|exact Hp]. rewrite <- Ho. apply modifier_option_by_id_catalog.
    symmetry. exact Hc4.
  - exists menuItem. repeat split. exact Hmenu.
  - rewrite Hrow. exact Hfresh.
  - exact Hfk.
  - rewrite Hd6. simpl. exact Horders5.
  - rewrite Hd6. simpl. rewrite Hitems5, sql_update_app.
    rewrite sql_update_fresh.
    + f_equal. simpl. rewrite Hrow at 1. simpl. rewrite N.eqb_refl.
      rewrite Hrow. reflexivity.
    + rewrite <- Hfresh. rewrite Hrow. reflexivity.
  - rewrite Hd6. rewrite catalog_db_with_order_items. exact Hc5.
Qed.

Lemma existsb_app_false {R} (p : R -> bool) l1 l2 :
  existsb p (l1 ++ l2) = false <-> existsb p l1 = false /\ existsb p l2 = false.
Proof. rewrite existsb_app. apply orb_false_iff. Qed.

(** The loop over the lines of the request. *)
Lemma create_items_ok itemRequests : forall createdOrder w o' w',
  create_items createdOrder itemRequests w = (Ok o', w') ->
  exists items,
    o' = order_with_Total (order_Total createdOrder + sum_Z (List.map line_total items))
           (order_with_Items (order_Items createdOrder ++ items) createdOrder) /\
    Forall2 (created_item (db w) (order_ID createdOrder)) itemRequests items /\
    List.NoDup (List.map item_ID items) /\
    Forall (fun i => existsb (fun j => (item_ID j =? item_ID i)%N) (order_items (db w)) = false)
      items /\
    (items <> [] ->
     existsb (fun o => (order_ID o =? order_ID createdOrder)%N) (orders (db w)) = true) /\
    orders (db w') = orders (db w) /\
    order_items (db w') = order_items (db w) ++ List.map item_row items /\
    catalog (db w') = catalog (db w).
Proof.
  induction itemRequests as [|itemReq rest IH]; intros createdOrder w o' w' H; simpl in H.
  - inversion H; subst. exists []. simpl. rewrite Z.add_0_r, !app_nil_r.
    repeat split; auto using List.NoDup_nil; try constructor; try congruence.
    destruct o'; reflexivity.
  - apply bind_ok in H as (o1 & w1 & H1 & H).
    apply create_item_ok in H1 as (i & -> & Hi & Hfresh & Hfk & Ho1 & Hi1 & Hc1).
    apply IH in H as (items & -> & Hall & Hnd & Hfr & _ & Ho & Hit & Hc).
    simpl in *. exists (i :: items). repeat split.
    + unfold order_with_Total, order_with_Items. simpl.
      rewrite <- app_assoc. simpl. f_equal. lia.
    + constructor; [exact Hi|].
      eapply Forall2_impl; [exact Hall|]. intros x y Hxy.
      eapply created_item_catalog; [exact Hc1|exact Hxy].
    + simpl. constructor; [|exact Hnd].
      intros Hin. apply in_map_iff in Hin as (j & Hj & Hin).
      rewrite List.Forall_forall in Hfr. specialize (Hfr j Hin). rewrite Hi1 in Hfr.
      apply existsb_app_false in Hfr as [_ Hfr]. simpl in Hfr.
      rewrite orb_false_r in Hfr. change (item_ID (item_row i)) with (item_ID i) in Hfr.
      rewrite <- Hj, N.eqb_refl in Hfr. discriminate.
    + constructor; [exact Hfresh|].
      eapply List.Forall_impl; [|exact Hfr]. intros j Hj. rewrite Hi1 in Hj.
      apply existsb_app_false in Hj as [Hj _]. exact Hj.
    + intros _. exact Hfk.
    + congruence.
    + rewrite Hit, Hi1. rewrite <- app_assoc. reflexivity.
    + congruence.
Qed.

(** ** What a successful [Create] leaves behind *)

Theorem Create_ok order itemRequests w o w' :
  Create order itemRequests w = (Ok o, w') ->
  existsb (fun o' => (order_ID o' =? order_ID o)%N) (orders (db w)) = false /\
  order_Status o = order_Status order /\
  order_Total o = order_Total order + sum_Z (List.map line_total (order_Items o)) /\
  Forall2 (created_item (db w) (order_ID o)) itemRequests (order_Items o) /\
  List.NoDup (List.map item_ID (order_Items o)) /\
  Forall (fun i => existsb (fun j => (item_ID j =? item_ID i)%N) (order_items (db w)) = false)
    (order_Items o) /\
  orders (db w') = orders (db w) ++ [order_row o] /\
  order_items (db w') = order_items (db w) ++ List.map item_row (order_Items o) /\
  catalog (db w') = catalog (db w).
Proof.
  intros H. apply transaction_ok in H as (tx & w0 & Hd0 & H).
  apply bind_ok in H as (row & w1 & H1 & H).
  apply wrap_ok, insert_order_ok in H1 as (Hrow & Hfresh & Hd1).
  apply bind_ok in H as (o1 & w2 & H2 & H).
  apply create_items_ok in H2 as (items & -> & Hall & Hnd & Hfr & _ & Ho2 & Hi2 & Hc2).
  apply bind_ok in H as (n & w3 & H3 & H).
  apply wrap_ok, update_orders_ok in H3 as [_ Hd3].
  apply bind_ok in H as ([] & w4 & H4 & H).
  apply wrap_ok in H4. apply exec_ok in H4 as (_ & d4 & Hq4 & ->).
  inversion Hq4; subst d4; clear Hq4.
  inversion H; subst o w'; clear H.
  rewrite Hd0 in Hfresh, Hd1.
  assert (Hc1 : catalog (db w1) = catalog (db w)) by (rewrite Hd1; reflexivity).
  simpl. rewrite Hd3. simpl. rewrite Ho2, Hi2, Hd1. simpl.
  repeat split.
  - exact Hfresh.
  - rewrite Hrow. reflexivity.
  - rewrite Hrow. reflexivity.
  - rewrite Hrow. simpl.
    eapply Forall2_impl; [exact Hall|]. intros x y Hxy.
    eapply created_item_catalog; [exact Hc1|]. rewrite Hrow in Hxy. exact Hxy.
  - rewrite Hrow. exact Hnd.
  - rewrite Hrow. simpl. eapply List.Forall_impl; [|exact Hfr].
    intros j Hj. rewrite Hd1 in Hj. exact Hj.
  - rewrite sql_update_app, sql_update_fresh by exact Hfresh.
    f_equal. simpl. rewrite N.eqb_refl. rewrite Hrow. reflexivity.
  - rewrite Hrow. reflexivity.
  - rewrite catalog_db_with_orders. congruence.
Qed.

(** ** Sums over the lines of an order *)





Lemma existsb_id_false {R} (id_of : R -> N) id t :
  existsb (fun r => (id_of r =? id)%N) t = false <-> ~ In id (List.map id_of t).
Proof.
  induction t as [|x t IH]; simpl; [tauto|].
  rewrite orb_false_iff, IH. destruct (N.eqb_spec (id_of x) id); intuition congruence.
Qed.

Lemma map_sql_update {R B} (f : R -> B) p set (t : list R) :
  (forall x, f (set x) = f x) -> List.map f (sql_update p set t) = List.map f t.
Proof.
  intros H. unfold sql_update. rewrite List.map_map. apply List.map_ext.
  intros x. destruct (p x); auto.
Qed.



Lemma Forall2_Forall_r {A B} (P : A -> B -> Prop) (Q : B -> Prop) l l' :
  Forall2 P l l' -> (forall x y, P x y -> Q y) -> Forall Q l'.
Proof. induction 1; intros H'; constructor; eauto. Qed.

(** ** The total invariant: each operation in turn *)



(** ** Invariants of [UpdateStatus] and [UpdateItemStatus] *)

Lemma UpdateStatus_inv (I : DB -> Prop) id status :
  closed_under_order_updates I -> db_inv I (UpdateStatus id status).
Proof.
  intros Hclosed. unfold UpdateStatus.
  apply db_inv_bind; [db_inv_step|intros updated].
  apply (db_inv_bind_val _ _ _ order_update_safe).
  - intros w set w' H.
    destruct (String.eqb status OrderStatusCompleted);
      [apply bind_ok in H as (now & w1 & _ & H)|];
      inversion H; subst; intros o; split; reflexivity.
  - repeat db_inv_step.
  - intros set Hset. apply db_inv_bind; [|intros n; repeat db_inv_step].
    apply db_inv_wrap, db_inv_exec. intros d _ _ n d' Hd Hq. cbv zeta in Hq.
    destruct (orders_constraints _ _); inversion Hq; subst.
    apply Hclosed; assumption.
Qed.

Lemma UpdateItemStatus_inv (I : DB -> Prop) itemID status :
  closed_under_order_updates I -> closed_under_item_updates itemID status I ->
  db_inv I (UpdateItemStatus itemID status).
Proof.
  intros Horders Hitems. unfold UpdateItemStatus.
  apply db_inv_bind; [db_inv_step|intros updated].
  apply (db_inv_bind_val _ _ _ (item_update_safe status)).
  - intros w set w' H.
    destruct (String.eqb status OrderItemStatusCompleted);
      [apply bind_ok in H as (now & w1 & _ & H)|
       destruct (String.eqb status OrderItemStatusInProgress);
       [apply bind_ok in H as (now & w1 & _ & H)|]];
      inversion H; subst; intros i; repeat split; try reflexivity;
      intros sent Hsent; simpl; rewrite Hsent; reflexivity.
  - repeat db_inv_step.
  - intros set Hset. apply db_inv_bind.
    + apply db_inv_wrap, db_inv_exec. intros d _ _ n d' Hd Hq. cbv zeta in Hq.
      destruct (order_items_constraints _ _); inversion Hq; subst.
      apply Hitems; assumption.
    + intros n. repeat db_inv_step. apply UpdateStatus_inv, Horders.
Qed.







(** ** What a successful [VoidItem] leaves behind *)

Lemma sql_get_where_update {R} (p : R -> bool) set (t : list R) :
  (forall x, p (set x) = p x) ->
  sql_get (sql_where p (sql_update p set t)) = result_map set (sql_get (sql_where p t)).
Proof.
  intros Hp. unfold sql_where, sql_update. induction t as [|x t IH]; simpl; [reflexivity|].
  destruct (p x) eqn:E.
  - rewrite Hp, E. reflexivity.
  - rewrite E. exact IH.
Qed.

Lemma sql_get_where_In {R} (p : R -> bool) (t : list R) r :
  sql_get (sql_where p t) = Ok r -> In r t /\ p r = true.
Proof.
  unfold sql_where. intros H.
  destruct (List.filter p t) as [|x l] eqn:E; simpl in H; [discriminate|].
  inversion H; subst x. apply List.filter_In. rewrite E. left. reflexivity.
Qed.

Theorem VoidItem_ok itemID reason w w' :
  VoidItem itemID reason w = (Ok tt, w') ->
  exists r now now',
    order_item_by_id itemID (db w) = Ok r /\
    db w' = db_with_orders
              (sql_update (fun o => (order_ID o =? item_OrderID r)%N)
                 (fun o => order_with_UpdatedAt now'
                             (order_with_Total (order_Total o - line_total r) o))
                 (orders (db w)))
              (db_with_order_items
                 (sql_update (fun i => (item_ID i =? itemID)%N) (void_item reason now)
                    (order_items (db w)))
                 (db w)).
Proof.
  intros H. apply transaction_ok in H as (tx & w0 & Hd0 & H).
  apply bind_ok in H as (now & w1 & H1 & H). apply time_Now_ok in H1 as [_ Hd1].
  apply bind_ok in H as (n & w2 & H2 & H).
  apply wrap_ok, update_order_items_ok in H2 as [_ Hd2].
  apply bind_ok in H as (info & w3 & H3 & H).
  apply wrap_ok, query_ok in H3 as [Hinfo Hd3].
  apply bind_ok in H as (now' & w4 & H4 & H). apply time_Now_ok in H4 as [_ Hd4].
  apply bind_ok in H as (n' & w5 & H5 & H).
  apply wrap_ok, update_orders_ok in H5 as [_ Hd5].
  apply wrap_ok in H. apply exec_ok in H as (_ & d6 & Hq & ->).
  inversion Hq; subst d6; clear Hq.
  rewrite Hd1, Hd0 in Hd2.
  unfold order_item_by_id in Hinfo. rewrite Hd2 in Hinfo. simpl in Hinfo.
  fold (void_item reason now) in Hinfo, Hd2.
  rewrite sql_get_where_update in Hinfo by reflexivity.
  destruct (sql_get (sql_where _ (order_items (db w)))) as [r|] eqn:Hr; [|discriminate].
  simpl in Hinfo. inversion Hinfo; subst info; clear Hinfo.
  exists r, now, now'. split; [exact Hr|].
  simpl. rewrite Hd5, Hd4, Hd3, Hd2. reflexivity.
Qed.



(** ** [Create] keeps the totals right *)


(** ** Ranging over a map visits every entry once *)

Lemma take_nth_Permutation {A} n : forall (l : list A) x r,
  take_nth n l = Some (x, r) -> Permutation l (x :: r).
Proof.
  induction n as [|n IH]; intros [|y l] x r H; simpl in H; try discriminate.
  - inversion H; subst. reflexivity.
  - destruct (take_nth n l) as [[z r']|] eqn:E; [|discriminate].
    inversion H; subst. rewrite (IH _ _ _ E). apply perm_swap.
Qed.

Lemma take_nth_Some {A} n : forall (l : list A),
  (n < List.length l)%nat -> exists x r, take_nth n l = Some (x, r).
Proof.
  induction n as [|n IH]; intros [|y l] H; simpl in *; try lia.
  - eauto.
  - destruct (IH l) as (x & r & E); [lia|]. rewrite E. eauto.
Qed.

Lemma draw_Permutation {A} picks k : forall (l : list A),
  List.length l = k -> Permutation (draw picks k l) l.
Proof.
  induction k as [|k IH]; intros l Hl; simpl.
  - destruct l; [reflexivity|discriminate].
  - destruct (take_nth_Some (picks k mod List.length l)%nat l) as (x & r & E).
    { apply Nat.mod_upper_bound. lia. }
    rewrite E. pose proof (take_nth_Permutation _ _ _ _ E) as Hp.
    rewrite Hp. constructor. apply IH.
    apply Permutation_length in Hp. simpl in Hp. lia.
Qed.

Theorem go_range_Permutation {A} picks (l : list A) : Permutation (go_range picks l) l.
Proof. apply draw_Permutation. reflexivity. Qed.

Lemma go_range_In {A} picks (l : list A) x : In x (go_range picks l) <-> In x l.
Proof.
  split; apply Permutation_in; [|symmetry]; apply go_range_Permutation.
Qed.



(** ** Order processing keeps the totals right *)

Lemma Station_GetByID_inv I id : db_inv I (Station_GetByID id).
Proof. unfold Station_GetByID, GetPrinterByID, getDisplay. repeat db_inv_step. Qed.

Lemma PrintOrderItems_inv I order items printerID :
  db_inv I (PrintOrderItems order items printerID).
Proof. unfold PrintOrderItems, GetPrinterByID. repeat db_inv_step. Qed.








(** ** The invariants are decidable *)






(** ** Order processing changes no amount *)

Lemma In_sql_update {R} (p : R -> bool) set (t : list R) r :
  In r t -> In (if p r then set r else r) (sql_update p set t).
Proof. intros H. unfold sql_update. apply (in_map (fun r => if p r then set r else r)), H. Qed.



Lemma update_items_status_inv (I : DB -> Prop) items status :
  closed_under_order_updates I ->
  (forall itemID, closed_under_item_updates itemID status I) ->
  db_inv I (update_items_status items status).
Proof.
  intros Ho Hi. induction items as [|x items IH]; simpl.
  - db_inv_step.
  - db_inv_step; [db_inv_step; apply UpdateItemStatus_inv; auto|exact IH].
Qed.

Lemma process_stations_inv (I : DB -> Prop) order groups :
  closed_under_order_updates I ->
  (forall itemID, closed_under_item_updates itemID OrderItemStatusInProgress I) ->
  db_inv I (process_stations order groups).
Proof.
  intros Ho Hi. induction groups as [|[stationID items] groups IH]; simpl.
  - db_inv_step.
  - db_inv_step; [|exact IH]. unfold process_station.
    db_inv_step; [db_inv_step; apply Station_GetByID_inv|].
    db_inv_step; [|apply update_items_status_inv; assumption].
    db_inv_step; [db_inv_step; apply PrintOrderItems_inv|db_inv_step].
Qed.

Lemma processNewOrder_inv (I : DB -> Prop) order :
  closed_under_order_updates I ->
  (forall itemID, closed_under_item_updates itemID OrderItemStatusInProgress I) ->
  db_inv I (processNewOrder order).
Proof.
  intros Ho Hi. unfold processNewOrder.
  db_inv_step; [db_inv_step; apply UpdateStatus_inv, Ho|].
  db_inv_step; [intros w H; exact H|].
  apply process_stations_inv; assumption.
Qed.

(** [CreateOrder] is [Create] on a fresh order, followed by the processing of
    the order, whose failure is only logged. *)
Lemma CreateOrder_ok req userID w o w' :
  CreateOrder req userID w = (Ok o, w') ->
  exists order w1 w2,
    order_Total order = 0 /\ order_Status order = OrderStatusNew /\
    db w1 = db w /\
    Create order (req_Items req) w1 = (Ok o, w2) /\
    w' = snd (log_error (processNewOrder o) w2).
Proof.
  unfold CreateOrder. cbv [mbind M_bind time_Now uuid_New order_number mret M_ret].
  set (order := mkOrder _ _ _ _ _ _ _ _ _ _).
  set (w1 := world_tick (world_tick w)).
  destruct (wrap _ (Create order (req_Items req)) w1) as [[o1|e] w2] eqn:E; [|discriminate].
  apply wrap_ok in E. intros H. exists order, w1, w2.
  destruct (log_error (processNewOrder o1) w2) as [[[]|e] w3] eqn:E3;
    inversion H; subst; repeat split; auto; rewrite E3; reflexivity.
Qed.

Lemma CreateOrder_Create req userID w :
  CreateOrder req userID w
  = match Create (new_order userID w) (req_Items req) (world_tick (world_tick w)) with
    | (Ok o, w2) => (Ok o, snd (log_error (processNewOrder o) w2))
    | (Err e, w2) => (Err (ErrWrap "failed to create order" e), w2)
    end.
Proof.
  unfold CreateOrder. cbv [mbind M_bind time_Now uuid_New order_number mret M_ret].
  change (mkOrder 0%N userID _ OrderStatusNew 0 _ None 0 0 []) with (new_order userID w).
  unfold wrap.
  destruct (Create (new_order userID w) (req_Items req) (world_tick (world_tick w)))
    as [[o|e] w2]; [|reflexivity].
  unfold log_error. destruct (processNewOrder o w2) as [[[]|e] w3]; reflexivity.
Qed.

(** A failed [CreateOrder] is a failed [Create]: nothing is left behind. *)
Lemma CreateOrder_rollback req userID w e w' :
  CreateOrder req userID w = (Err e, w') -> db w' = db w.
Proof.
  rewrite CreateOrder_Create.
  destruct (Create _ _ _) as [[o|e0] w2] eqn:E; intros H; inversion H; subst.
  apply Create_rollback in E. exact E.
Qed.





Lemma example_placed_spec :
  example_placed = snd (CreateOrder example_request 7%N example_world).
Proof. vm_compute. reflexivity. Qed.

Lemma example_voided_spec :
  example_voided = snd (VoidItem 104%N "dropped" example_placed).
Proof. vm_compute. reflexivity. Qed.

Lemma example_one_left_spec :
  example_one_left = snd (UpdateItemStatus 104%N OrderItemStatusCompleted example_placed).
Proof. vm_compute. reflexivity. Qed.



(** ** Status updates are never refused *)

Lemma order_items_constraints_pass d rows :
  Forall (fun i => 0 < item_Quantity i /\ 0 <= item_Price i /\
                   valid_item_status (item_Status i) = true) rows ->
  order_items_constraints d rows = None.
Proof.
  intros H. unfold order_items_constraints, sql_check.
  assert (H1 : forallb (fun i => 0 <? item_Quantity i) rows = true).
  { apply forallb_forall. intros i Hi. rewrite List.Forall_forall in H.
    apply Z.ltb_lt, (H i Hi). }
  assert (H2 : forallb (fun i => 0 <=? item_Price i) rows = true).
  { apply forallb_forall. intros i Hi. rewrite List.Forall_forall in H.
    apply Z.leb_le, (H i Hi). }
  assert (H3 : forallb (fun i => valid_item_status (item_Status i)) rows = true).
  { apply forallb_forall. intros i Hi. rewrite List.Forall_forall in H. apply (H i Hi). }
  rewrite H1, H2, H3. reflexivity.
Qed.

Lemma orders_constraints_pass d rows :
  Forall (fun o => valid_order_status (order_Status o) = true) rows ->
  orders_constraints d rows = None.
Proof.
  intros H. unfold orders_constraints, sql_check.
  assert (H1 : forallb (fun o => valid_order_status (order_Status o)) rows = true).
  { apply forallb_forall. intros o Ho. rewrite List.Forall_forall in H. apply (H o Ho). }
  rewrite H1. reflexivity.
Qed.

Lemma sql_get_where_length {R} (p : R -> bool) (t : list R) r :
  sql_get (sql_where p t) = Ok r -> Nat.eqb (List.length (sql_where p t)) 0 = false.
Proof. destruct (sql_where p t); [discriminate|reflexivity]. Qed.

Lemma sql_where_id_length {R} (id_of : R -> N) id (t : list R) :
  In id (List.map id_of t) ->
  Nat.eqb (List.length (sql_where (fun r => (id_of r =? id)%N) t)) 0 = false.
Proof.
  intros H. apply in_map_iff in H as (r & Hid & Hr).
  assert (Hin : In r (sql_where (fun r => (id_of r =? id)%N) t)).
  { apply List.filter_In. split; [exact Hr|]. apply N.eqb_eq, Hid. }
  destruct (sql_where _ t); [contradiction|reflexivity].
Qed.

Lemma UpdateStatus_returns id status w :
  (forall n, faulty w n = false) ->
  valid_order_status status = true ->
  In id (List.map order_ID (orders (db w))) ->
  exists w', UpdateStatus id status w = (Ok tt, w').
Proof.
  intros Hok Hvalid Hin. unfold UpdateStatus, update_orders.
  unfold mbind, M_bind, wrap, time_Now, mret, M_ret.
  destruct (String.eqb status OrderStatusCompleted).
  - rewrite exec_run by apply Hok.
    cbn [db issued clock faulty uuid_generate_v4 world_with_db world_issue world_tick].
    rewrite orders_constraints_pass
      by (apply List.Forall_map, List.Forall_forall; intros o _; exact Hvalid).
    rewrite List.length_map, (sql_where_id_length order_ID id (orders (db w)) Hin).
    eauto.
  - rewrite exec_run by apply Hok.
    cbn [db issued clock faulty uuid_generate_v4 world_with_db world_issue world_tick].
    rewrite orders_constraints_pass
      by (apply List.Forall_map, List.Forall_forall; intros o _; exact Hvalid).
    rewrite List.length_map, (sql_where_id_length order_ID id (orders (db w)) Hin).
    eauto.
Qed.

(** With a storage layer that does not fail, [UpdateItemStatus] runs to its
    end on every item that exists, whatever the status it has and the status
    it is given. *)
Theorem UpdateItemStatus_returns itemID status w r :
  (forall n, faulty w n = false) ->
  checked (db w) ->
  valid_item_status status = true ->
  order_item_by_id itemID (db w) = Ok r ->
  In (item_OrderID r) (List.map order_ID (orders (db w))) ->
  exists w', UpdateItemStatus itemID status w = (Ok tt, w').
Proof.
  intros Hok [Hchecked Hstatus] Hvalid Hr Hfk.
  assert (Hrows : forall set : OrderItem -> OrderItem,
             (forall i, item_Quantity (set i) = item_Quantity i /\
                        item_Price (set i) = item_Price i /\
                        item_Status (set i) = status) ->
             order_items_constraints (db w)
               (List.map set (sql_where (fun i => (item_ID i =? itemID)%N)
                                (order_items (db w)))) = None).
  { intros set Hset. apply order_items_constraints_pass.
    apply List.Forall_map. unfold sql_where.
    apply List.Forall_forall. intros i Hi. apply List.filter_In in Hi as [Hi _].
    rewrite List.Forall_forall in Hchecked.
    destruct (Hchecked i Hi) as [Hq Hp]. destruct (Hset i) as (-> & -> & ->). auto. }
  unfold order_item_by_id in Hr.
  unfold UpdateItemStatus.
  destruct (String.eqb status OrderItemStatusCompleted) eqn:Ecompleted.
  - unfold update_order_items, query.
    unfold mbind, M_bind, wrap, time_Now, mret, M_ret.
    rewrite exec_run by apply Hok.
    cbn [db issued clock faulty uuid_generate_v4 world_with_db world_issue world_tick].
    rewrite Hrows by (intros i; repeat split).
    rewrite List.length_map, (sql_get_where_length _ _ _ Hr).
    rewrite exec_run by apply Hok.
    cbn [db issued clock faulty uuid_generate_v4 world_with_db world_issue world_tick].
    unfold order_item_by_id at 1. cbn [order_items db_with_order_items].
    rewrite sql_get_where_update by reflexivity. rewrite Hr. cbn [result_map].
    rewrite exec_run by apply Hok.
    cbn [db issued clock faulty uuid_generate_v4 world_with_db world_issue world_tick].
    destruct (Nat.eqb (count_items_not _ _ _) 0); [|eauto].
    match goal with
    | |- context [UpdateStatus ?i ?s ?W] =>
        destruct (UpdateStatus_returns i s W) as [w' E];
          [exact Hok|reflexivity|exact Hfk|rewrite E; eauto]
    end.
  - destruct (String.eqb status OrderItemStatusInProgress).
    + unfold update_order_items.
      unfold mbind, M_bind, wrap, time_Now, mret, M_ret.
      rewrite exec_run by apply Hok.
      cbn [db issued clock faulty uuid_generate_v4 world_with_db world_issue world_tick].
      rewrite Hrows by (intros i; repeat split).
      rewrite List.length_map, (sql_get_where_length _ _ _ Hr). eauto.
    + unfold update_order_items.
      unfold mbind, M_bind, wrap, time_Now, mret, M_ret.
      rewrite exec_run by apply Hok.
      cbn [db issued clock faulty uuid_generate_v4 world_with_db world_issue world_tick].
      rewrite Hrows by (intros i; repeat split).
      rewrite List.length_map, (sql_get_where_length _ _ _ Hr). eauto.
Qed.

Lemma checkedb_spec d : checkedb d = true -> checked d.
Proof.
  unfold checkedb, checked. rewrite andb_true_iff, !forallb_forall, !List.Forall_forall.
  intros [H1 H2]. split.
  - intros i Hi. specialize (H1 i Hi). apply andb_true_iff in H1 as [Hq Hp].
    apply Z.ltb_lt in Hq. apply Z.leb_le in Hp. auto.
  - intros o Ho. apply H2, Ho.
Qed.

(** ** The completion cascade *)

Lemma UpdateStatus_Completed_ok id w w' :
  UpdateStatus id OrderStatusCompleted w = (Ok tt, w') ->
  exists updated now,
    db w' = db_with_orders
              (sql_update (fun o => (order_ID o =? id)%N) (complete_order updated now)
                 (orders (db w)))
              (db w).
Proof.
  unfold UpdateStatus. intros H.
  apply bind_ok in H as (updated & w1 & H1 & H). apply time_Now_ok in H1 as [_ Hd1].
  apply bind_ok in H as (set & w2 & H2 & H). rewrite String.eqb_refl in H2.
  apply bind_ok in H2 as (now & w2' & H2' & H2). apply time_Now_ok in H2' as [_ Hd2].
  inversion H2; subst set w2'; clear H2.
  apply bind_ok in H as (n & w3 & H3 & H).
  apply wrap_ok, update_orders_ok in H3 as [_ Hd3].
  destruct (Nat.eqb n 0); inversion H; subst w'.
  exists updated, now. rewrite Hd3, Hd2, Hd1. reflexivity.
Qed.

Lemma count_after_completing orderID itemID set (t : list OrderItem) :
  (forall i, item_OrderID (set i) = item_OrderID i /\
             item_Status (set i) = OrderItemStatusCompleted) ->
  Nat.eqb
    (List.length
       (sql_where (fun i => (item_OrderID i =? orderID)%N
                            && negb (String.eqb (item_Status i) OrderItemStatusCompleted))
          (sql_update (fun i => (item_ID i =? itemID)%N) set t))) 0
  = others_completed orderID itemID t.
Proof.
  intros Hset. unfold sql_where, sql_update, others_completed.
  induction t as [|x t IH]; simpl; [reflexivity|].
  destruct (item_ID x =? itemID)%N.
  - destruct (Hset x) as [-> ->]. rewrite String.eqb_refl, andb_false_r, orb_true_r.
    simpl. exact IH.
  - rewrite orb_false_r.
    destruct (item_OrderID x =? orderID)%N; simpl; [|exact IH].
    destruct (String.eqb (item_Status x) OrderItemStatusCompleted); simpl; [exact IH|].
    reflexivity.
Qed.

(** C2, as the code has it.  With a storage layer that does not fail,
    [UpdateItemStatus item Completed] runs to its end on every item that
    exists.  When it does, the order of the item is set to [Completed]
    exactly when every other line of that order has status [Completed]; a
    cancelled line is not [Completed], so a cancelled sibling keeps the order
    from completing. *)
Theorem cascade_iff_all_items_completed :
  (forall itemID w r,
     (forall n, faulty w n = false) ->
     checked (db w) ->
     order_item_by_id itemID (db w) = Ok r ->
     In (item_OrderID r) (List.map order_ID (orders (db w))) ->
     exists w', UpdateItemStatus itemID OrderItemStatusCompleted w = (Ok tt, w')) /\
  (forall itemID w w',
     UpdateItemStatus itemID OrderItemStatusCompleted w = (Ok tt, w') ->
     exists r updated now,
       order_item_by_id itemID (db w) = Ok r /\
       orders (db w') =
         (if others_completed (item_OrderID r) itemID (order_items (db w))
          then sql_update (fun o => (order_ID o =? item_OrderID r)%N)
                 (complete_order updated now) (orders (db w))
          else orders (db w)) /\
       (forall s, In s (order_items (db w)) -> item_OrderID s = item_OrderID r ->
                  item_ID s <> itemID -> item_Status s = OrderItemStatusCancelled ->
                  orders (db w') = orders (db w))).
Proof.
  split.
  { intros itemID w r Hok Hchecked Hr Hfk.
    eapply UpdateItemStatus_returns; eauto. }
  intros itemID w w'.
  unfold UpdateItemStatus. intros H.
  apply bind_ok in H as (updated & w1 & H1 & H). apply time_Now_ok in H1 as [_ Hd1].
  apply bind_ok in H as (set & w2 & H2 & H). rewrite String.eqb_refl in H2.
  apply bind_ok in H2 as (now & w2' & H2' & H2). apply time_Now_ok in H2' as [_ Hd2].
  inversion H2; subst set w2'; clear H2.
  apply bind_ok in H as (n & w3 & H3 & H).
  apply wrap_ok, update_order_items_ok in H3 as [_ Hd3].
  destruct (Nat.eqb n 0); [discriminate|]. rewrite String.eqb_refl in H.
  apply bind_ok in H as (orderID & w4 & H4 & H).
  apply wrap_ok, query_ok in H4 as [Hr Hd4].
  apply bind_ok in H as (pendingCount & w5 & H5 & H).
  apply wrap_ok, query_ok in H5 as [Hcount Hd5].
  rewrite Hd2, Hd1 in Hd3.
  unfold order_item_by_id in Hr. rewrite Hd3 in Hr. simpl in Hr.
  rewrite sql_get_where_update in Hr by reflexivity.
  destruct (sql_get (sql_where _ (order_items (db w)))) as [r|] eqn:Er; [|discriminate].
  simpl in Hr. inversion Hr; subst orderID; clear Hr.
  inversion Hcount; subst pendingCount; clear Hcount.
  unfold count_items_not in H. rewrite Hd4, Hd3 in H. simpl in H.
  rewrite (count_after_completing (item_OrderID r) itemID) in H by (intros; split; reflexivity).
  assert (Horders : exists updated' now',
             orders (db w') =
               (if others_completed (item_OrderID r) itemID (order_items (db w))
                then sql_update (fun o => (order_ID o =? item_OrderID r)%N)
                       (complete_order updated' now') (orders (db w))
                else orders (db w))).
  { destruct (others_completed _ _ _).
    - apply wrap_ok, UpdateStatus_Completed_ok in H as (updated' & now' & Hd).
      exists updated', now'. rewrite Hd. simpl. rewrite Hd5, Hd4, Hd3. reflexivity.
    - inversion H; subst w'. exists 0, 0. rewrite Hd5, Hd4, Hd3. reflexivity. }
  destruct Horders as (updated' & now' & Horders).
  exists r, updated', now'. split; [exact Er|]. split; [exact Horders|].
  intros s Hs Ho Hid Hc. rewrite Horders.
  assert (E : others_completed (item_OrderID r) itemID (order_items (db w)) = false).
  { apply not_true_iff_false. intros Hall. unfold others_completed in Hall.
    rewrite forallb_forall in Hall. specialize (Hall s Hs).
    rewrite Ho, N.eqb_refl, Hc in Hall. simpl in Hall.
    destruct (N.eqb_spec (item_ID s) itemID); [contradiction|]. discriminate Hall. }
  rewrite E. reflexivity.
Qed.

(** Completing the beer of the example while the burgers are in progress
    leaves the order in progress. *)
Lemma cascade_iff_all_items_completed_witness :
  (exists w', UpdateItemStatus 111%N OrderItemStatusCompleted example_placed = (Ok tt, w')) /\
  exists r updated now,
    order_item_by_id 111%N (db example_placed) = Ok r /\
    orders (db (snd (UpdateItemStatus 111%N OrderItemStatusCompleted example_placed))) =
      (if others_completed (item_OrderID r) 111%N (order_items (db example_placed))
       then sql_update (fun o => (order_ID o =? item_OrderID r)%N)
              (complete_order updated now) (orders (db example_placed))
       else orders (db example_placed)) /\
    (forall s, In s (order_items (db example_placed)) -> item_OrderID s = item_OrderID r ->
               item_ID s <> 111%N -> item_Status s = OrderItemStatusCancelled ->
               orders (db (snd (UpdateItemStatus 111%N OrderItemStatusCompleted
                                  example_placed)))
               = orders (db example_placed)).
Proof.
  split.
  - apply (proj1 cascade_iff_all_items_completed 111%N example_placed
             (mkOrderItem 111%N 101%N 2%N 32%N 1 500 OrderItemStatusInProgress (Some "cold")
                (Some 1004) None 1002 1003 "" [])).
    + intros n. reflexivity.
    + apply checkedb_spec. vm_compute. reflexivity.
    + vm_compute. reflexivity.
    + vm_compute. left. reflexivity.
  - apply (proj2 cascade_iff_all_items_completed 111%N example_placed).
    vm_compute. reflexivity.
Defined.

(** C2 as stated fails: with line 104 cancelled, completing line 111 leaves
    every non-cancelled line of order 101 [Completed], and the order stays
    [InProgress]. *)
Lemma cascade_counterexample :
  let w' := snd (UpdateItemStatus 111%N OrderItemStatusCompleted example_voided) in
  fst (UpdateItemStatus 111%N OrderItemStatusCompleted example_voided) = Ok tt /\
  live_items_completed 101%N (order_items (db w')) = true /\
  List.map (fun o => (order_ID o, order_Status o)) (orders (db w'))
  = [(101%N, OrderStatusInProgress)].
Proof. vm_compute. repeat split; reflexivity. Qed.

(** ** Voiding *)

(** C3: what [VoidItem] does to an item that is already cancelled.  The first
    void of line 104 (2 × 9.50) takes the total of order 101 from 24.00 to
    5.00; the second void succeeds as well and takes it to −14.00, and
    annotates the line a second time. *)
Theorem VoidItem_twice_decrements_twice :
  let first := VoidItem 104%N "dropped" example_placed in
  let second := VoidItem 104%N "dropped" (snd first) in
  List.map order_Total (orders (db example_placed)) = [2400] /\
  fst first = Ok tt /\
  List.map order_Total (orders (db (snd first))) = [500] /\
  List.map (fun i => (item_ID i, item_Status i)) (order_items (db (snd first)))
  = [(104%N, OrderItemStatusCancelled); (111%N, OrderItemStatusInProgress)] /\
  fst second = Ok tt /\
  List.map order_Total (orders (db (snd second))) = [-1400].
Proof. vm_compute. repeat split; reflexivity. Qed.

(** The part of C3 that holds: a successful [VoidItem] takes exactly
    [price × quantity] of the item off every order row the item belongs to,
    whatever the status of the item. *)
Theorem VoidItem_decrements_total itemID reason w w' :
  VoidItem itemID reason w = (Ok tt, w') ->
  exists r, order_item_by_id itemID (db w) = Ok r /\
    List.map (fun o => (order_ID o, order_Total o)) (orders (db w'))
    = List.map (fun o => (order_ID o,
                          if (order_ID o =? item_OrderID r)%N
                          then order_Total o - item_Price r * item_Quantity r
                          else order_Total o))
        (orders (db w)).
Proof.
  intros H. apply VoidItem_ok in H as (r & now & now' & Hr & ->).
  exists r. split; [exact Hr|]. simpl. unfold sql_update. rewrite List.map_map.
  apply List.map_ext. intros o. destruct (order_ID o =? item_OrderID r)%N; reflexivity.
Qed.

(** ** Atomicity *)

(** C4: the completion cascade is not atomic.  Line 111 is the last line of
    order 101 that is not completed.  The storage layer fails the
    [UPDATE orders] of the cascade: [UpdateItemStatus] returns the error, the
    line stays [Completed] and the order stays [InProgress]. *)
Theorem UpdateItemStatus_cascade_not_atomic :
  let r := UpdateItemStatus 111%N OrderItemStatusCompleted example_one_left_failing in
  fst r = Err (ErrWrap "failed to update order status"
                 (ErrWrap "failed to update order status" ErrDriver)) /\
  List.map (fun i => (item_ID i, item_Status i)) (order_items (db example_one_left_failing))
  = [(104%N, OrderItemStatusCompleted); (111%N, OrderItemStatusInProgress)] /\
  List.map (fun i => (item_ID i, item_Status i)) (order_items (db (snd r)))
  = [(104%N, OrderItemStatusCompleted); (111%N, OrderItemStatusCompleted)] /\
  List.map (fun o => (order_ID o, order_Status o)) (orders (db (snd r)))
  = [(101%N, OrderStatusInProgress)].
Proof. vm_compute. repeat split; reflexivity. Qed.

(** The sibling paths are atomic: [Create] and [VoidItem] run in a
    transaction, and a failure at any statement leaves the rows untouched. *)
Theorem transactions_are_atomic w :
  (forall order itemRequests e w',
     Create order itemRequests w = (Err e, w') -> db w' = db w) /\
  (forall itemID reason e w',
     VoidItem itemID reason w = (Err e, w') -> db w' = db w).
Proof.
  split; intros; [eapply Create_rollback|eapply VoidItem_rollback]; eassumption.
Qed.

(** ** Validation of the request *)

(** C10: a request with no lines is not rejected.  The handler answers
    [201 Created]; the order is committed with no lines and a total of 0,
    and is then moved to [InProgress]. *)
Theorem createOrder_accepts_empty_request :
  let r := createOrder (mkOrderRequest []) 7%N example_world in
  fst r = StatusCreated /\
  orders (db example_world) = [] /\
  List.map (fun o => (order_ID o, order_Status o, order_Total o)) (orders (db (snd r)))
  = [(101%N, OrderStatusInProgress, 0)] /\
  order_items (db (snd r)) = [].
Proof. vm_compute. repeat split; reflexivity. Qed.

(** The part of C10 that holds, up to the kind of the error: a line with a
    non-positive quantity violates the check of [order_items.quantity], so
    order creation fails, leaves no row behind and is answered with [500]. *)
Theorem non_positive_quantity_is_rejected req userID w :
  Exists (fun itemReq => req_Quantity itemReq <= 0) (req_Items req) ->
  (exists e w', CreateOrder req userID w = (Err e, w') /\ db w' = db w) /\
  fst (createOrder req userID w) = StatusInternalServerError.
Proof.
  intros Hbad.
  assert (H : exists e w', CreateOrder req userID w = (Err e, w')).
  { destruct (CreateOrder req userID w) as [[o|e] w'] eqn:E; [|eauto].
    exfalso. apply CreateOrder_ok in E as (order & w1 & w2 & _ & _ & _ & E & _).
    apply Create_ok in E as (_ & _ & _ & Hall & _).
    revert Hbad. generalize (order_Items o) Hall. generalize (req_Items req). clear.
    intros itemRequests. induction itemRequests as [|x l IH]; intros items Hall Hbad.
    + inversion Hbad.
    + inversion Hall as [|? i ? items' Hx Hl]; subst.
      inversion Hbad as [? ? Hq|? ? Hq]; subst.
      * destruct Hx as (_ & _ & Hqty & Hpos & _). lia.
      * eapply IH; eassumption. }
  destruct H as (e & w' & E). split.
  - exists e, w'. split; [exact E|]. eapply CreateOrder_rollback. exact E.
  - unfold createOrder. rewrite E. reflexivity.
Qed.

(** ** Order processing and print failures *)

Lemma process_stations_app order pre groups w :
  process_stations order (pre ++ groups) w
  = (process_stations order pre ;; process_stations order groups) w.
Proof.
  revert w. induction pre as [|[stationID items] pre IH]; intros w; simpl.
  - reflexivity.
  - unfold mbind, M_bind in *.
    destruct (process_station order stationID items w) as [[[]|e] w1]; [apply IH|reflexivity].
Qed.

Lemma wrap_Ok {A} msg (m : M A) w a w' :
  m w = (Ok a, w') -> wrap msg m w = (Ok a, w').
Proof. unfold wrap. intros ->. reflexivity. Qed.

Lemma wrap_Err {A} msg (m : M A) w e w' :
  m w = (Err e, w') -> wrap msg m w = (Err (ErrWrap msg e), w').
Proof. unfold wrap. intros ->. reflexivity. Qed.

Lemma bind_Ok {A B} (m : M A) (f : A -> M B) w a w1 :
  m w = (Ok a, w1) -> (m ≫= f) w = f a w1.
Proof. unfold mbind, M_bind. intros ->. reflexivity. Qed.

Lemma bind_Err {A B} (m : M A) (f : A -> M B) w e w1 :
  m w = (Err e, w1) -> (m ≫= f) w = (Err e, w1).
Proof. unfold mbind, M_bind. intros ->. reflexivity. Qed.

(** C5, as the code has it.  A failure of order processing, a print failure
    included, is logged and does not fail [CreateOrder], which still returns
    the order [Create] committed.  But a print failure ends the processing:
    once the stations visited before have been processed, a failing print for
    the next station makes [process_stations] return the error at once, and
    the rows are left as they were when that station was reached, so no item
    of that station or of a later one is moved to [InProgress]. *)
Theorem print_failure_is_logged_and_ends_processing :
  (forall req userID w o w2 e w3,
     Create (new_order userID w) (req_Items req) (world_tick (world_tick w)) = (Ok o, w2) ->
     processNewOrder o w2 = (Err e, w3) ->
     CreateOrder req userID w = (Ok o, world_print (ErrorProcessingOrder e) w3)) /\
  (forall order pre stationID items rest w w0 station w1 printerID e w2,
     process_stations order pre w = (Ok tt, w0) ->
     Station_GetByID stationID w0 = (Ok station, w1) ->
     station_PrinterID station = Some printerID ->
     PrintOrderItems order items printerID w1 = (Err e, w2) ->
     process_stations order (pre ++ (stationID, items) :: rest) w
     = (Err (ErrWrap "failed to print order items" e), w2) /\
     db w2 = db w0).
Proof.
  split.
  - intros req userID w o w2 e w3 HCreate Hprocess.
    unfold CreateOrder. cbv [mbind M_bind time_Now uuid_New order_number mret M_ret].
    change (mkOrder 0%N userID _ OrderStatusNew 0 _ None 0 0 []) with (new_order userID w).
    rewrite (wrap_Ok _ _ _ _ _ HCreate). unfold log_error. rewrite Hprocess. reflexivity.
  - intros order pre stationID items rest w w0 station w1 printerID e w2 Hpre Hst Hpr Hprint.
    split.
    + rewrite process_stations_app, (bind_Ok _ _ _ _ _ Hpre). simpl.
      unfold process_station, mbind, M_bind.
      rewrite (wrap_Ok "failed to get station" _ _ _ _ Hst), Hpr.
      rewrite (wrap_Err "failed to print order items" _ _ _ _ Hprint).
      reflexivity.
    + pose proof (Station_GetByID_inv (fun d => d = db w0) stationID w0 eq_refl) as H1.
      rewrite Hst in H1. simpl in H1.
      pose proof (PrintOrderItems_inv (fun d => d = db w0) order items printerID w1 H1) as H2.
      rewrite Hprint in H2. exact H2.
Qed.

Lemma print_failure_is_logged_and_ends_processing_witness :
  let w := example_print_failure in
  let created := Create (new_order 7%N w) (req_Items example_request)
                   (world_tick (world_tick w)) in
  let o := match fst created with Ok o => o | Err _ => new_order 7%N w end in
  let processed := processNewOrder o (snd created) in
  let e := match fst processed with Err e => e | Ok _ => ErrNoRows end in
  CreateOrder example_request 7%N w
  = (Ok o, world_print (ErrorProcessingOrder e) (snd processed)).
Proof.
  intros w created o processed e.
  apply (proj1 print_failure_is_logged_and_ends_processing
           example_request 7%N w o (snd created) e (snd processed)).
  - vm_compute. reflexivity.
  - vm_compute. reflexivity.
Defined.

(** C5 as stated fails: the print for the kitchen, the first station visited,
    fails.  [CreateOrder] returns the order and logs the error; neither the
    kitchen's line 104 nor the bar's line 111 is moved to [InProgress]. *)
Lemma print_failure_counterexample :
  let r := CreateOrder example_request 7%N example_print_failure in
  result_map order_ID (fst r) = Ok 101%N /\
  stdout (snd r)
  = [ErrorProcessingOrder
       (ErrWrap "failed to print order items"
          (ErrWrap "failed to get printer" (ErrWrap "failed to get printer" ErrDriver)))] /\
  List.map (fun i => (item_ID i, item_StationID i, item_Status i)) (order_items (db (snd r)))
  = [(104%N, 31%N, OrderItemStatusPending); (111%N, 32%N, OrderItemStatusPending)] /\
  List.map (fun o => (order_ID o, order_Status o)) (orders (db (snd r)))
  = [(101%N, OrderStatusInProgress)].
Proof. vm_compute. repeat split; reflexivity. Qed.

(** ** Routing *)

(** [ORDER BY key ASC]: the first row is one of the rows, and none has a
    smaller key. *)
Lemma order_by_head {R} (key : R -> Z) (l : list R) :
  match order_by key l with
  | [] => l = []
  | r :: _ => In r l /\ forall x, In x l -> key r <= key x
  end.
Proof.
  induction l as [|x l IH]; simpl; [reflexivity|].
  destruct (order_by key l) as [|y s]; simpl.
  - subst l. split; [left; reflexivity|]. intros z [<-|[]]. lia.
  - destruct IH as [Hy Hmin]. destruct (Z.leb_spec (key x) (key y)) as [Hle|Hlt].
    + split; [left; reflexivity|]. intros z [<-|Hz]; [lia|].
      specialize (Hmin z Hz). lia.
    + split; [right; exact Hy|]. intros z [<-|Hz]; [lia|]. apply Hmin, Hz.
Qed.

Lemma routing_station_spec menuItemID d :
  match routing_station menuItemID d with
  | Ok stationID =>
      exists rule, In rule (routing_rules d) /\
                   rule_MenuItemID rule = menuItemID /\
                   rule_StationID rule = stationID /\
                   forall r, In r (routing_rules d) -> rule_MenuItemID r = menuItemID ->
                             rule_Priority rule <= rule_Priority r
  | Err e =>
      e = ErrNoRows /\
      forall r, In r (routing_rules d) -> rule_MenuItemID r <> menuItemID
  end.
Proof.
  unfold routing_station, sql_where.
  pose proof (order_by_head rule_Priority
                (List.filter (fun r => (rule_MenuItemID r =? menuItemID)%N) (routing_rules d)))
    as H.
  destruct (order_by _ _) as [|rule s]; simpl.
  - split; [reflexivity|]. intros r Hr Hid.
    assert (Hin : In r (List.filter (fun r => (rule_MenuItemID r =? menuItemID)%N)
                          (routing_rules d))).
    { apply List.filter_In. split; [exact Hr|]. apply N.eqb_eq, Hid. }
    rewrite H in Hin. exact Hin.
  - destruct H as [Hin Hmin]. apply List.filter_In in Hin as [Hin Hid].
    apply N.eqb_eq in Hid. exists rule. repeat split; try assumption.
    intros r Hr Hrid. apply Hmin. apply List.filter_In. split; [exact Hr|].
    apply N.eqb_eq, Hrid.
Qed.


Lemma existsb_id_In {R} (id_of : R -> N) id t :
  existsb (fun r => (id_of r =? id)%N) t = true <-> In id (List.map id_of t).
Proof.
  pose proof (existsb_id_false id_of id t) as H.
  destruct (existsb _ t); split; intros H'; try reflexivity; try discriminate.
  - destruct (in_dec N.eq_dec id (List.map id_of t)) as [Hi|Hn]; [exact Hi|].
    apply H in Hn. discriminate.
  - exfalso. apply H; [reflexivity|exact H'].
Qed.




(** ** The stamp [sent_to_station_at] *)

Lemma stampedb_spec itemID sent d : stampedb itemID sent d = true <-> stamped itemID sent d.
Proof.
  unfold stampedb, stamped. rewrite existsb_exists. split.
  - intros (row & Hin & H). apply andb_true_iff in H as [Hid Hs]. apply N.eqb_eq in Hid.
    exists row. repeat split; try assumption.
    destruct (item_SentToStationAt row) as [t|]; [|discriminate].
    apply Z.eqb_eq in Hs. congruence.
  - intros (row & Hin & Hid & Hs). exists row. split; [exact Hin|].
    rewrite Hid, Hs, N.eqb_refl, Z.eqb_refl. reflexivity.
Qed.

Lemma stamped_closed_under_order_updates itemID sent :
  closed_under_order_updates (stamped itemID sent).
Proof. intros d p set _ H. exact H. Qed.

Lemma stamped_closed_under_item_updates itemID sent itemID' status :
  closed_under_item_updates itemID' status (stamped itemID sent).
Proof.
  intros d set Hset (row & Hin & Hid & Hs). simpl.
  exists (if (item_ID row =? itemID')%N then set row else row).
  split; [apply (In_sql_update (fun i => (item_ID i =? itemID')%N)), Hin|].
  destruct (item_ID row =? itemID')%N; [|auto].
  destruct (Hset row) as (-> & _ & _ & _ & _ & Hsent). auto.
Qed.

(** An invariant of [Create], of order updates and of item updates is an
    invariant of [CreateOrder]. *)
Lemma CreateOrder_inv (I : DB -> Prop) req userID :
  (forall order itemRequests, db_inv I (Create order itemRequests)) ->
  closed_under_order_updates I ->
  (forall itemID, closed_under_item_updates itemID OrderItemStatusInProgress I) ->
  db_inv I (CreateOrder req userID).
Proof.
  intros HCreate Ho Hi. unfold CreateOrder.
  db_inv_step; [db_inv_step|].
  db_inv_step; [intros w H; exact H|].
  db_inv_step; [intros w H; exact H|].
  db_inv_step; [db_inv_step|].
  db_inv_step; [db_inv_step; apply HCreate|].
  db_inv_step; [|db_inv_step].
  db_inv_step. apply processNewOrder_inv; assumption.
Qed.

Lemma Create_stamped itemID sent order itemRequests :
  db_inv (stamped itemID sent) (Create order itemRequests).
Proof.
  intros w (row & Hin & Hid & Hs).
  destruct (Create order itemRequests w) as [[o|e] w'] eqn:E; simpl.
  - apply Create_ok in E as (_ & _ & _ & _ & _ & _ & _ & Hi & _).
    exists row. rewrite Hi. split; [apply in_or_app; left; exact Hin|auto].
  - apply Create_rollback in E. rewrite E. exists row. auto.
Qed.

Lemma VoidItem_stamped itemID sent itemID' reason :
  db_inv (stamped itemID sent) (VoidItem itemID' reason).
Proof.
  intros w (row & Hin & Hid & Hs).
  destruct (VoidItem itemID' reason w) as [[[]|e] w'] eqn:E; simpl.
  - apply VoidItem_ok in E as (r & now & now' & _ & ->). simpl.
    exists (if (item_ID row =? itemID')%N then void_item reason now row else row).
    split; [apply (In_sql_update (fun i => (item_ID i =? itemID')%N)), Hin|].
    destruct (item_ID row =? itemID')%N; auto.
  - apply VoidItem_rollback in E. rewrite E. exists row. auto.
Qed.

Lemma UpdateItemStatus_InProgress_ok itemID w w' :
  UpdateItemStatus itemID OrderItemStatusInProgress w = (Ok tt, w') ->
  db w' = db_with_order_items
            (sql_update (fun i => (item_ID i =? itemID)%N)
               (fun i => item_with_SentToStationAt
                           (stamp_once (clock w + 1) (item_SentToStationAt i))
                           (item_with_UpdatedAt (clock w)
                              (item_with_Status OrderItemStatusInProgress i)))
               (order_items (db w)))
            (db w).
Proof.
  unfold UpdateItemStatus. intros H.
  change (String.eqb OrderItemStatusInProgress OrderItemStatusCompleted) with false in H.
  change (String.eqb OrderItemStatusInProgress OrderItemStatusInProgress) with true in H.
  cbv iota in H.
  apply bind_ok in H as (updated & w1 & H1 & H). inversion H1; subst updated w1; clear H1.
  apply bind_ok in H as (set & w2 & H2 & H).
  apply bind_ok in H2 as (now & w2' & H2' & H2). inversion H2'; subst now w2'; clear H2'.
  inversion H2; subst set w2; clear H2.
  apply bind_ok in H as (n & w3 & H3 & H).
  apply wrap_ok, update_order_items_ok in H3 as [_ Hd3].
  destruct (Nat.eqb n 0); inversion H; subst w'.
  rewrite Hd3. reflexivity.
Qed.

(** C7.  A stamp [sent_to_station_at], once written, survives every mutation
    of the order store, a later [UpdateItemStatus item InProgress] included.
    With a storage layer that does not fail, [UpdateItemStatus item
    InProgress] runs to its end on every item that exists; when it does, it
    stamps the items that have no stamp yet with the time of the call and
    keeps the stamp of the others. *)
Theorem sent_to_station_at_written_once :
  (forall w m itemID sent,
     stamped itemID sent (db w) -> stamped itemID sent (db (apply_mutation m w))) /\
  (forall itemID w r,
     (forall n, faulty w n = false) ->
     checked (db w) ->
     order_item_by_id itemID (db w) = Ok r ->
     In (item_OrderID r) (List.map order_ID (orders (db w))) ->
     exists w', UpdateItemStatus itemID OrderItemStatusInProgress w = (Ok tt, w')) /\
  (forall itemID w w' row,
     UpdateItemStatus itemID OrderItemStatusInProgress w = (Ok tt, w') ->
     In row (order_items (db w)) -> item_ID row = itemID ->
     exists row', In row' (order_items (db w')) /\ item_ID row' = itemID /\
                  item_SentToStationAt row'
                  = stamp_once (clock w + 1) (item_SentToStationAt row)).
Proof.
  split; [|split].
  - intros w [req userID|id status|itemID' status|itemID' reason] itemID sent H; simpl.
    + apply CreateOrder_inv;
        auto using Create_stamped, stamped_closed_under_order_updates,
          stamped_closed_under_item_updates.
    + apply UpdateStatus_inv; auto using stamped_closed_under_order_updates.
    + apply UpdateItemStatus_inv;
        auto using stamped_closed_under_order_updates, stamped_closed_under_item_updates.
    + apply VoidItem_stamped, H.
  - intros itemID w r Hok Hchecked Hr Hfk.
    eapply UpdateItemStatus_returns; eauto.
  - intros itemID w w' row H Hin Hid. apply UpdateItemStatus_InProgress_ok in H.
    rewrite H. simpl.
    eexists. split; [apply (In_sql_update (fun i => (item_ID i =? itemID)%N)), Hin|].
    rewrite Hid, N.eqb_refl. simpl. auto.
Qed.

(** Line 104 of the example was sent to its station at 1007; sending it again
    keeps that stamp. *)
Lemma sent_to_station_at_written_once_witness :
  stamped 104%N 1007
    (db (apply_mutation (mutUpdateItemStatus 104%N OrderItemStatusInProgress)
           example_placed)).
Proof.
  apply (proj1 sent_to_station_at_written_once).
  apply stampedb_spec. vm_compute. reflexivity.
Defined.

(** ** The broadcast hub *)

Section HubFacts.
Variable picks : nat -> nat.

Lemma range_In registered client : In client (range picks registered) <-> client ∈ registered.
Proof.
  unfold range. rewrite go_range_In, <- list_elem_of_In. apply elem_of_elements.
Qed.

Lemma range_NoDup registered : List.NoDup (range picks registered).
Proof.
  unfold range. eapply Permutation_NoDup.
  - symmetry. apply go_range_Permutation.
  - apply NoDup_ListNoDup, NoDup_elements.
Qed.

Lemma client_send_hub_with_send_ne h c ch client :
  c <> client -> client_send (hub_with_send c ch h) client = client_send h client.
Proof. intros Hne. unfold client_send. simpl. rewrite lookup_insert_ne by exact Hne. reflexivity. Qed.

Lemma client_send_hub_with_send_eq h c ch :
  client_send (hub_with_send c ch h) c = ch.
Proof. unfold client_send. simpl. rewrite lookup_insert_eq. reflexivity. Qed.

(** One round of the loop of [BroadcastToStation] touches the queue of the
    client it visits only, and of no client whose queue is closed. *)
Lemma station_deliver_other stationID message o c client :
  c <> client \/ closed (client_send (hub_of o) client) = true ->
  client_send (hub_of (station_deliver stationID message o c)) client
  = client_send (hub_of o) client.
Proof.
  intros Hc. destruct o as [h|h]; simpl in *; [|reflexivity].
  unfold try_send, close_send.
  destruct (decide (c = client)) as [->|Hne].
  - destruct Hc as [Hc|Hc]; [contradiction|]. rewrite Hc. reflexivity.
  - destruct (closed (client_send h c)) eqn:Ec; [reflexivity|].
    destruct (_ <? _)%nat; simpl.
    + apply client_send_hub_with_send_ne, Hne.
    + unfold client_send. simpl. rewrite lookup_insert_ne by exact Hne. reflexivity.
Qed.

Lemma station_deliver_closed stationID message o c client :
  closed (client_send (hub_of o) client) = true ->
  closed (client_send (hub_of (station_deliver stationID message o c)) client) = true.
Proof.
  intros Hc. rewrite station_deliver_other; [exact Hc|right; exact Hc].
Qed.

Lemma station_loop_other stationID message client l : forall o,
  ~ In client l \/ closed (client_send (hub_of o) client) = true ->
  client_send (hub_of (foldl (station_deliver stationID message) o l)) client
  = client_send (hub_of o) client.
Proof.
  induction l as [|c l IH]; intros o H; simpl; [reflexivity|].
  rewrite IH.
  - apply station_deliver_other. destruct H as [H|H]; [left|right; exact H].
    intros ->. apply H. left. reflexivity.
  - destruct H as [H|H]; [left|right].
    + intros Hin. apply H. right. exact Hin.
    + apply station_deliver_closed, H.
Qed.

Lemma station_loop_Panicked stationID message l h :
  foldl (station_deliver stationID message) (Panicked h) l = Panicked h.
Proof. induction l as [|c l IH]; simpl; [reflexivity|exact IH]. Qed.

Lemma station_loop_delivers stationID message client ch l : forall h h',
  List.NoDup l -> In client l ->
  try_send message (client_send h client) = Sent ch ->
  foldl (station_deliver stationID message) (Running h) l = Running h' ->
  client_send h' client = ch.
Proof.
  induction l as [|c l IH]; intros h h' Hnd Hin Hsend Hrun; [contradiction|].
  apply List.NoDup_cons_iff in Hnd as [Hc Hnd].
  change (foldl (station_deliver stationID message)
            (station_deliver stationID message (Running h) c) l = Running h') in Hrun.
  destruct (decide (c = client)) as [->|Hne].
  - assert (E : station_deliver stationID message (Running h) client
                = Running (hub_with_send client ch h)).
    { unfold station_deliver, and_then. rewrite Hsend. reflexivity. }
    rewrite E in Hrun.
    pose proof (station_loop_other stationID message client l
                  (Running (hub_with_send client ch h)) (or_introl Hc)) as H.
    rewrite Hrun in H. cbn [hub_of] in H. rewrite H. apply client_send_hub_with_send_eq.
  - destruct Hin as [Hin|Hin]; [contradiction|].
    pose proof (station_deliver_other stationID message (Running h) c client
                  (or_introl Hne)) as Hsame.
    destruct (station_deliver stationID message (Running h) c) as [h1|h1].
    + cbn [hub_of] in Hsame.
      apply (IH h1 h' Hnd Hin); [rewrite Hsame; exact Hsend|exact Hrun].
    + rewrite station_loop_Panicked in Hrun. discriminate.
Qed.

(** C9.  [BroadcastToStation S] leaves the queue of every client that is not
    registered for [S] as it was, and the queue of every client whose queue
    is closed; if it returns, every client registered for [S] whose queue
    had room holds the payload, once, at the end of its queue. *)
Theorem BroadcastToStation_only_registered h stationID message :
  let registered := default ∅ (stationChannels h !! stationID) in
  let h' := hub_of (BroadcastToStation picks h stationID message) in
  (forall client,
     client ∉ registered \/ closed (client_send h client) = true ->
     client_send h' client = client_send h client) /\
  (forall client,
     BroadcastToStation picks h stationID message = Running h' ->
     client ∈ registered ->
     closed (client_send h client) = false ->
     (List.length (buffer (client_send h client)) < send_capacity)%nat ->
     client_send h' client = mkChan (buffer (client_send h client) ++ [message]) false).
Proof.
  intros registered h'. subst registered h'. unfold BroadcastToStation.
  destruct (stationChannels h !! stationID) as [registered|]; simpl.
  - split.
    + intros client Hc.
      apply (station_loop_other stationID message client _ (Running h)).
      destruct Hc as [Hc|Hc]; [left|right; exact Hc].
      rewrite range_In. exact Hc.
    + intros client Hrun Hin Hopen Hroom.
      eapply station_loop_delivers; [apply range_NoDup|apply range_In, Hin| |exact Hrun].
      unfold try_send. rewrite Hopen.
      apply Nat.ltb_lt in Hroom. rewrite Hroom. reflexivity.
  - split; [reflexivity|]. intros client _ Hin. apply not_elem_of_empty in Hin. contradiction.
Qed.
End HubFacts.

(** A broadcast to "bar" reaches client 2 and leaves the queue of client 3,
    which is not registered for "bar", empty. *)
Lemma BroadcastToStation_only_registered_witness :
  client_send (hub_of (BroadcastToStation (fun _ => 0%nat) example_hub "bar" "item.update"))
    3%positive
  = client_send example_hub 3%positive.
Proof.
  apply (proj1 (BroadcastToStation_only_registered (fun _ => 0%nat) example_hub "bar"
                  "item.update")).
  left. vm_compute. intros H. discriminate H.
Defined.

(** C8: a client dropped for a full queue stays registered for its stations.
    Client 1 is registered for "grill" and "bar" and its queue is full.
    After a global broadcast the hub has closed its queue and taken it out of
    the client set, yet both station subsets still hold it: an [unregister]
    of client 1 is now ignored, and the next broadcast to "grill" sends on
    the closed queue and panics.  A broadcast to "grill" instead takes
    client 1 out of "grill" only; "bar" still holds it.  In both cases a
    later global broadcast returns and delivers to client 2 only. *)
Theorem saturated_client_stays_in_station_subsets :
  let picks := fun _ : nat => 0%nat in
  let globally := hub_of (Run picks example_hub (broadcast "order.update")) in
  let to_station := hub_of (BroadcastToStation picks example_hub "grill" "order.update") in
  (* the global broadcast *)
  Run picks example_hub (broadcast "order.update") = Running globally /\
  is_client globally 1%positive = false /\
  is_client globally 2%positive = true /\
  closed (client_send globally 1%positive) = true /\
  registered_for globally "grill" 1%positive = true /\
  registered_for globally "bar" 1%positive = true /\
  Run picks globally (unregister 1%positive) = Running globally /\
  BroadcastToStation picks globally "grill" "item.update" = Panicked globally /\
  (* the station broadcast *)
  BroadcastToStation picks example_hub "grill" "order.update" = Running to_station /\
  is_client to_station 1%positive = false /\
  is_client to_station 2%positive = true /\
  closed (client_send to_station 1%positive) = true /\
  registered_for to_station "grill" 1%positive = false /\
  registered_for to_station "bar" 1%positive = true /\
  (* a later global broadcast *)
  (exists h, Run picks globally (broadcast "menu.update") = Running h /\
             buffer (client_send h 2%positive) = ["order.update"; "menu.update"] /\
             client_send h 1%positive = client_send globally 1%positive) /\
  (exists h, Run picks to_station (broadcast "menu.update") = Running h /\
             buffer (client_send h 2%positive) = ["menu.update"] /\
             client_send h 1%positive = client_send to_station 1%positive).
Proof.
  vm_compute. repeat split; try reflexivity; eexists; repeat split; reflexivity.
Qed.

(** ** A void is never refused *)

(** With a storage layer that does not fail, [VoidItem] succeeds on every
    item that exists, whatever its status: it does not look at the status,
    so the void of an item that is cancelled already is carried out like any
    other and takes [price × quantity] off the total once more. *)
Theorem VoidItem_never_refused itemID reason w r :
  (forall n, faulty w n = false) ->
  checked (db w) ->
  order_item_by_id itemID (db w) = Ok r ->
  exists w', VoidItem itemID reason w = (Ok tt, w') /\
    List.map (fun o => (order_ID o, order_Total o)) (orders (db w'))
    = List.map (fun o => (order_ID o,
                          if (order_ID o =? item_OrderID r)%N
                          then order_Total o - item_Price r * item_Quantity r
                          else order_Total o))
        (orders (db w)).
Proof.
  intros Hok [Hchecked Hstatus] Hr.
  assert (E : exists w', VoidItem itemID reason w = (Ok tt, w')).
  { unfold VoidItem, BeginTxx, update_order_items, update_orders, query, Commit.
    unfold mbind, M_bind, wrap, defer_rollback, time_Now.
    rewrite exec_run by apply Hok.
    cbn [db issued clock faulty uuid_generate_v4 world_with_db world_issue world_tick].
    rewrite exec_run by apply Hok.
    cbn [db issued clock faulty uuid_generate_v4 world_with_db world_issue world_tick].
    rewrite order_items_constraints_pass.
    2:{ apply List.Forall_map. unfold sql_where.
        apply List.Forall_forall. intros i Hi. apply List.filter_In in Hi as [Hi _].
        rewrite List.Forall_forall in Hchecked.
        destruct (Hchecked i Hi) as [Hq Hp]. simpl. auto. }
    rewrite exec_run by apply Hok.
    cbn [db issued clock faulty uuid_generate_v4 world_with_db world_issue world_tick].
    unfold order_item_by_id at 1. cbn [order_items db_with_order_items].
    rewrite sql_get_where_update by reflexivity.
    unfold order_item_by_id in Hr. rewrite Hr. cbn [result_map].
    rewrite exec_run by apply Hok.
    cbn [db issued clock faulty uuid_generate_v4 world_with_db world_issue world_tick].
    unfold orders_constraints, sql_check.
    match goal with
    | |- context [forallb ?f ?l] =>
        assert (Hst : forallb f l = true)
    end.
    { apply forallb_forall. intros o Ho. apply in_map_iff in Ho as (o' & <- & Ho').
      simpl. unfold sql_where in Ho'. apply List.filter_In in Ho' as [Ho' _].
      rewrite List.Forall_forall in Hstatus. apply (Hstatus o' Ho'). }
    rewrite Hst. cbn [first_error List.fold_right].
    rewrite exec_run by apply Hok. eauto. }
  destruct E as [w' E]. exists w'. split; [exact E|].
  apply VoidItem_decrements_total in E as (r' & Hr' & E).
  rewrite Hr in Hr'. inversion Hr'; subst r'. exact E.
Qed.


(** * Further properties of the hub *)

Section HubRun.
Variable picks : nat -> nat.

Lemma broadcast_deliver_step message h c :
  closed (client_send h c) = false ->
  exists h1, broadcast_deliver message (Running h) c = Running h1 /\
    stationChannels h1 = stationChannels h /\
    (if has_room (client_send h c)
     then clients h1 = clients h /\
          client_send h1 c = mkChan (buffer (client_send h c) ++ [message]) false
     else clients h1 = clients h ∖ {[c]} /\
          client_send h1 c = mkChan (buffer (client_send h c)) true) /\
    (forall c', c' <> c -> client_send h1 c' = client_send h c').
Proof.
  intros Hopen. unfold broadcast_deliver, and_then, try_send, close_send, has_room.
  rewrite Hopen.
  destruct (_ <? _)%nat; eexists; (split; [reflexivity|]); simpl.
  - split; [reflexivity|]. split.
    + split; [reflexivity|]. apply client_send_hub_with_send_eq.
    + intros c' Hne. apply client_send_hub_with_send_ne. congruence.
  - split; [reflexivity|]. split.
    + split; [reflexivity|]. unfold client_send. simpl. rewrite lookup_insert_eq. reflexivity.
    + intros c' Hne. unfold client_send. simpl.
      rewrite lookup_insert_ne by congruence. reflexivity.
Qed.

Lemma broadcast_loop message l : forall h,
  List.NoDup l ->
  (forall c, In c l -> closed (client_send h c) = false) ->
  exists h', foldl (broadcast_deliver message) (Running h) l = Running h' /\
    stationChannels h' = stationChannels h /\
    (forall c, In c l ->
       if has_room (client_send h c)
       then (c ∈ clients h' <-> c ∈ clients h) /\
            client_send h' c = mkChan (buffer (client_send h c) ++ [message]) false
       else (c ∉ clients h') /\
            client_send h' c = mkChan (buffer (client_send h c)) true) /\
    (forall c, ~ In c l ->
       (c ∈ clients h' <-> c ∈ clients h) /\ client_send h' c = client_send h c).
Proof.
  induction l as [|c0 l IH]; intros h Hnd Hopen.
  - exists h. simpl. repeat split; tauto.
  - apply List.NoDup_cons_iff in Hnd as [Hc0 Hnd].
    destruct (broadcast_deliver_step message h c0) as (h1 & E1 & Hsc1 & Hc01 & Hother1).
    { apply Hopen. left. reflexivity. }
    destruct (IH h1 Hnd) as (h' & E' & Hsc' & Hin' & Hout').
    { intros c Hin. rewrite Hother1; [apply Hopen; right; exact Hin|].
      intros ->. contradiction. }
    exists h'. split; [|split; [|split]].
    + cbn [foldl]. rewrite E1. exact E'.
    + congruence.
    + intros c [->|Hin].
      * destruct (Hout' c Hc0) as [Hmem Hsend]. rewrite Hsend.
        destruct (has_room (client_send h c)); destruct Hc01 as [Hcl Hs]; (split; [|exact Hs]).
        -- rewrite Hmem, Hcl. reflexivity.
        -- rewrite Hmem, Hcl, elem_of_difference, elem_of_singleton. tauto.
      * assert (Hne : c <> c0) by (intros ->; contradiction).
        specialize (Hin' c Hin). rewrite (Hother1 c Hne) in Hin'.
        destruct (has_room (client_send h c)); [|exact Hin'].
        destruct Hin' as [Hmem Hs]. split; [|exact Hs].
        rewrite Hmem. destruct (has_room (client_send h c0)); destruct Hc01 as [Hcl _];
          rewrite Hcl; [reflexivity|rewrite elem_of_difference, elem_of_singleton; tauto].
    + intros c Hnin.
      assert (Hne : c <> c0) by (intros ->; apply Hnin; left; reflexivity).
      destruct (Hout' c) as [Hmem Hs]; [intros Hin; apply Hnin; right; exact Hin|].
      rewrite Hs, (Hother1 c Hne). split; [|reflexivity].
      rewrite Hmem. destruct (has_room (client_send h c0)); destruct Hc01 as [Hcl _];
        rewrite Hcl; [reflexivity|rewrite elem_of_difference, elem_of_singleton; tauto].
Qed.

(** X1.  A global broadcast, with every client of the global set holding an open
    queue, returns; it appends the message to the queue of every client of the
    set that has room, closes the queue of every client of the set that has none
    and takes that client out of the set, and touches neither the queue of any
    other client nor the station subsets. *)
Theorem broadcast_reaches_every_client h message :
  clients_open h ->
  exists h', Run picks h (broadcast message) = Running h' /\
    stationChannels h' = stationChannels h /\
    (forall c, c ∈ clients h -> has_room (client_send h c) = true ->
       c ∈ clients h' /\
       client_send h' c = mkChan (buffer (client_send h c) ++ [message]) false) /\
    (forall c, c ∈ clients h -> has_room (client_send h c) = false ->
       (c ∉ clients h') /\
       client_send h' c = mkChan (buffer (client_send h c)) true) /\
    (forall c, c ∉ clients h ->
       (c ∉ clients h') /\ client_send h' c = client_send h c).
Proof.
  intros Hopen. unfold Run.
  destruct (broadcast_loop message (range picks (clients h)) h) as (h' & E & Hsc & Hin & Hout).
  { apply range_NoDup. }
  { intros c Hc. apply Hopen, (range_In picks), Hc. }
  exists h'. split; [exact E|]. split; [exact Hsc|]. split; [|split].
  - intros c Hc Hroom. specialize (Hin c (proj2 (range_In picks _ _) Hc)).
    rewrite Hroom in Hin. destruct Hin as [Hmem Hs]. split; [apply Hmem, Hc|exact Hs].
  - intros c Hc Hroom. specialize (Hin c (proj2 (range_In picks _ _) Hc)).
    rewrite Hroom in Hin. exact Hin.
  - intros c Hc. destruct (Hout c) as [Hmem Hs].
    { rewrite range_In. exact Hc. }
    split; [rewrite Hmem; exact Hc|exact Hs].
Qed.

Lemma station_deliver_clients_open stationID message o c :
  clients_open (hub_of o) ->
  clients_open (hub_of (station_deliver stationID message o c)).
Proof.
  destruct o as [h|h]; [|exact (fun H => H)].
  intros Hopen. unfold station_deliver, and_then, try_send, close_send.
  destruct (closed (client_send h c)) eqn:Ec; [exact Hopen|].
  destruct (_ <? _)%nat; cbn [hub_of]; intros client Hin.
  - destruct (decide (client = c)) as [->|Hne].
    + rewrite client_send_hub_with_send_eq. reflexivity.
    + rewrite client_send_hub_with_send_ne by congruence. apply Hopen, Hin.
  - cbn [clients hub_with_clients hub_with_stationChannels hub_with_send] in Hin.
    apply elem_of_difference in Hin as [Hin Hne]. rewrite elem_of_singleton in Hne.
    unfold client_send. cbn. rewrite lookup_insert_ne by congruence.
    apply Hopen, Hin.
Qed.

Lemma station_loop_clients_open stationID message l : forall o,
  clients_open (hub_of o) ->
  clients_open (hub_of (foldl (station_deliver stationID message) o l)).
Proof.
  induction l as [|c l IH]; intros o Hopen; [exact Hopen|].
  cbn [foldl]. apply IH, station_deliver_clients_open, Hopen.
Qed.

(** X2.  The loop of [Run] does not panic: while every client enters the global
    set with an open queue, each round returns, and every client of the global
    set still has an open queue after it.  [BroadcastToStation] and
    [RegisterStationClient] keep the queues of the global set open as well,
    whatever the outcome of the station broadcast. *)
Theorem Run_never_panics :
  (forall h r,
     clients_open h ->
     (forall client, r = register client -> closed (client_send h client) = false) ->
     exists h', Run picks h r = Running h' /\ clients_open h') /\
  (forall h stationID message,
     clients_open h ->
     clients_open (hub_of (BroadcastToStation picks h stationID message))) /\
  (forall h client stationID,
     clients_open h -> clients_open (RegisterStationClient h client stationID)).
Proof.
  split; [|split].
  - intros h [client|client|message] Hopen Hnew; unfold Run.
    + eexists. split; [reflexivity|]. intros c Hin.
      cbn [clients hub_with_clients] in Hin.
      apply elem_of_union in Hin as [Hin|Hin].
      * apply elem_of_singleton in Hin as ->. apply (Hnew client eq_refl).
      * apply Hopen, Hin.
    + destruct (decide (client ∈ clients h)) as [Hin|Hin].
      * unfold close_send, and_then.
        change (client_send (hub_with_clients (clients h ∖ {[client]}) h) client)
          with (client_send h client).
        rewrite (Hopen client Hin).
        eexists. split; [reflexivity|]. intros c Hc.
        cbn [clients hub_with_clients hub_with_stationChannels hub_with_send] in Hc.
        apply elem_of_difference in Hc as [Hc Hne]. rewrite elem_of_singleton in Hne.
        unfold client_send. cbn. rewrite lookup_insert_ne by congruence.
        apply Hopen, Hc.
      * exists h. split; [reflexivity|exact Hopen].
    + destruct (broadcast_loop message (range picks (clients h)) h)
        as (h' & E & _ & Hin & Hout).
      { apply range_NoDup. }
      { intros c Hc. apply Hopen, (range_In picks), Hc. }
      exists h'. split; [exact E|]. intros c Hc.
      destruct (decide (c ∈ clients h)) as [Hmem|Hmem].
      * specialize (Hin c (proj2 (range_In picks _ _) Hmem)).
        destruct (has_room (client_send h c)).
        -- destruct Hin as [_ ->]. reflexivity.
        -- destruct Hin as [Hnot _]. contradiction.
      * destruct (Hout c) as [Hiff _]; [rewrite range_In; exact Hmem|].
        apply Hiff in Hc. contradiction.
  - intros h stationID message Hopen. unfold BroadcastToStation.
    destruct (stationChannels h !! stationID); [|exact Hopen].
    apply station_loop_clients_open, Hopen.
  - intros h client stationID Hopen c Hc. apply Hopen, Hc.
Qed.

Lemma registered_for_purged h client stationID other :
  registered_for
    (hub_with_stationChannels
       ((fun registered => registered ∖ {[client]}) <$> stationChannels h) h)
    stationID other
  = negb (Pos.eqb other client) && registered_for h stationID other.
Proof.
  unfold registered_for. cbn [stationChannels hub_with_stationChannels].
  rewrite lookup_fmap.
  destruct (stationChannels h !! stationID) as [registered|]; cbn.
  - destruct (Pos.eqb_spec other client) as [->|Hne]; cbn.
    + apply bool_decide_eq_false. rewrite elem_of_difference, elem_of_singleton. tauto.
    + apply bool_decide_ext. rewrite elem_of_difference, elem_of_singleton. tauto.
  - rewrite andb_comm. reflexivity.
Qed.

(** X3.  [unregister] of a client of the global set whose queue is open takes
    the client out of the global set and out of the subset of every station and
    closes its queue; the registrations and the queues of the other clients stay
    as they are.  A second [unregister] of the same client changes nothing. *)
Theorem unregister_purges_client h client :
  client ∈ clients h ->
  closed (client_send h client) = false ->
  exists h', Run picks h (unregister client) = Running h' /\
    clients h' = clients h ∖ {[client]} /\
    client_send h' client = mkChan (buffer (client_send h client)) true /\
    (forall stationID, registered_for h' stationID client = false) /\
    (forall stationID other, other <> client ->
       registered_for h' stationID other = registered_for h stationID other) /\
    (forall other, other <> client -> client_send h' other = client_send h other) /\
    Run picks h' (unregister client) = Running h'.
Proof.
  intros Hin Hopen. unfold Run at 1.
  destruct (decide (client ∈ clients h)) as [_|Hnot]; [|contradiction].
  unfold close_send, and_then.
  change (client_send (hub_with_clients (clients h ∖ {[client]}) h) client)
    with (client_send h client).
  rewrite Hopen. eexists. split; [reflexivity|].
  split; [reflexivity|]. split; [|split; [|split; [|split]]].
  - unfold client_send. cbn. rewrite lookup_insert_eq. reflexivity.
  - intros stationID.
    rewrite (registered_for_purged
               (hub_with_send client (mkChan (buffer (client_send h client)) true)
                  (hub_with_clients (clients h ∖ {[client]}) h))).
    rewrite Pos.eqb_refl. reflexivity.
  - intros stationID other Hne.
    rewrite (registered_for_purged
               (hub_with_send client (mkChan (buffer (client_send h client)) true)
                  (hub_with_clients (clients h ∖ {[client]}) h))).
    destruct (Pos.eqb_spec other client) as [->|_]; [contradiction|reflexivity].
  - intros other Hne. unfold client_send. cbn.
    rewrite lookup_insert_ne by congruence. reflexivity.
  - unfold Run. cbn [clients hub_with_clients hub_with_stationChannels hub_with_send].
    destruct (decide (client ∈ clients h ∖ {[client]})) as [Hc|_]; [|reflexivity].
    apply elem_of_difference in Hc as [_ Hc]. exfalso. apply Hc, elem_of_singleton.
    reflexivity.
Qed.
End HubRun.

(** X4.  [SetStationID] adds one registration and nothing else: the client is
    registered for the station it names unless the name is empty, every earlier
    registration of every client is kept (a client that moves to another station
    stays registered for the one it leaves), and neither the global client set
    nor any queue changes. *)
Theorem SetStationID_adds_a_registration h client stationID :
  let h' := fst (SetStationID h client stationID) in
  clients h' = clients h /\
  send h' = send h /\
  forall s c,
    registered_for h' s c
    = negb (String.eqb stationID "") && String.eqb s stationID && Pos.eqb c client
      || registered_for h s c.
Proof.
  unfold SetStationID. cbn [fst].
  destruct (String.eqb stationID "") eqn:E; [repeat split|].
  split; [reflexivity|]. split; [reflexivity|]. intros s c.
  unfold registered_for, RegisterStationClient.
  cbn [stationChannels hub_with_stationChannels negb andb].
  destruct (String.eqb_spec s stationID) as [->|Hne].
  - rewrite lookup_insert_eq. cbn [andb].
    assert (Hreg : forall registered : gset positive,
              bool_decide (c ∈ {[client]} ∪ registered)
              = Pos.eqb c client || bool_decide (c ∈ registered)).
    { intros registered. destruct (Pos.eqb_spec c client) as [->|Hc]; cbn [orb].
      - apply bool_decide_eq_true. apply elem_of_union. left. apply elem_of_singleton.
        reflexivity.
      - apply bool_decide_ext. rewrite elem_of_union, elem_of_singleton. tauto. }
    destruct (stationChannels h !! stationID) as [registered|] eqn:El.
    + rewrite El. apply Hreg.
    + rewrite lookup_insert_eq. apply Hreg.
  - rewrite lookup_insert_ne by congruence. cbn [andb orb].
    destruct (stationChannels h !! stationID); [reflexivity|].
    rewrite lookup_insert_ne by congruence. reflexivity.
Qed.

(** In the example hub, a global broadcast closes the full queue of client 1
    and reaches client 2. *)
Lemma broadcast_reaches_every_client_witness :
  exists h', Run (fun _ => 0%nat) example_hub (broadcast "menu.update") = Running h' /\
             buffer (client_send h' 2%positive) = ["menu.update"] /\
             closed (client_send h' 1%positive) = true.
Proof.
  destruct (broadcast_reaches_every_client (fun _ => 0%nat) example_hub "menu.update")
    as (h' & E & _ & Hroom & Hfull & _).
  { intros client _. unfold client_send, example_hub. cbn [send].
    destruct (decide (client = 1%positive)) as [->|Hne];
      [rewrite lookup_singleton_eq|rewrite lookup_singleton_ne by congruence];
      reflexivity. }
  exists h'. split; [exact E|]. split.
  - destruct (Hroom 2%positive) as [_ ->]; [vm_compute|vm_compute|]; reflexivity.
  - destruct (Hfull 1%positive) as [_ ->]; [vm_compute|vm_compute|]; reflexivity.
Defined.

(** A round of [Run] on the example hub returns. *)
Lemma Run_never_panics_witness :
  exists h', Run (fun _ => 0%nat) example_hub (unregister 1%positive) = Running h' /\
             clients_open h'.
Proof.
  apply (proj1 (Run_never_panics (fun _ => 0%nat))).
  - intros client _. unfold client_send, example_hub. cbn [send].
    destruct (decide (client = 1%positive)) as [->|Hne];
      [rewrite lookup_singleton_eq|rewrite lookup_singleton_ne by congruence];
      reflexivity.
  - intros client H. discriminate H.
Defined.

(** Client 1 of the example hub leaves "grill" and "bar" when it is
    unregistered. *)
Lemma unregister_purges_client_witness :
  exists h', Run (fun _ => 0%nat) example_hub (unregister 1%positive) = Running h' /\
             registered_for h' "grill" 1%positive = false /\
             registered_for h' "bar" 1%positive = false /\
             registered_for h' "bar" 2%positive = true.
Proof.
  destruct (unregister_purges_client (fun _ => 0%nat) example_hub 1%positive)
    as (h' & E & _ & _ & Hgone & Hkept & _).
  - vm_compute. reflexivity.
  - vm_compute. reflexivity.
  - exists h'. split; [exact E|]. split; [apply Hgone|]. split; [apply Hgone|].
    rewrite Hkept by (intros H; discriminate H). vm_compute. reflexivity.
Defined.

(** * Further properties of the order store *)

(** ** What the status updates refuse *)

Lemma sql_where_id_none {R} (id_of : R -> N) id (t : list R) :
  ~ In id (List.map id_of t) -> sql_where (fun r => (id_of r =? id)%N) t = [].
Proof.
  intros H. apply sql_where_fresh, existsb_id_false, H.
Qed.

Lemma sql_update_id_none {R} (id_of : R -> N) id set (t : list R) :
  ~ In id (List.map id_of t) -> sql_update (fun r => (id_of r =? id)%N) set t = t.
Proof.
  intros H. apply sql_update_fresh, existsb_id_false, H.
Qed.


Lemma db_with_order_items_same d : db_with_order_items (order_items d) d = d.
Proof. destruct d. reflexivity. Qed.



(** ** What a status update changes *)

Lemma sql_update_Forall2 {R} (p : R -> bool) set (t : list R) :
  Forall2 (fun r r' => r' = if p r then set r else r) t (sql_update p set t).
Proof.
  induction t as [|x t IH]; simpl; constructor; [reflexivity|exact IH].
Qed.

Lemma orders_constraints_valid d rows o :
  orders_constraints d rows = None -> In o rows -> valid_order_status (order_Status o) = true.
Proof.
  unfold orders_constraints, sql_check. cbn [first_error fold_right].
  destruct (forallb _ rows) eqn:E; [|discriminate]. intros _ Hin.
  rewrite forallb_forall in E. apply (E o Hin).
Qed.

Lemma update_orders_valid p set w n w' o :
  update_orders p set w = (Ok n, w') ->
  In o (sql_where p (orders (db w))) ->
  valid_order_status (order_Status (set o)) = true.
Proof.
  unfold update_orders. intros H Hin. apply exec_ok in H as (_ & d & H & _).
  cbv zeta in H.
  destruct (orders_constraints _ _) eqn:E; [discriminate|].
  apply (orders_constraints_valid _ _ _ E), in_map, Hin.
Qed.

(** X6.  A successful [UpdateStatus id status] rewrites the order [id] and
    nothing else: the status is the one given (one of the four the schema
    allows), [updated_at] is the time of the call, and [completed_at] is set
    when the status is [Completed] and kept as it was otherwise, so that an
    order that leaves [Completed] again keeps the time of its completion.  The
    total, the order number and the other columns are not touched, nor is any
    other order or any other table. *)
Theorem UpdateStatus_effect id status w w' :
  UpdateStatus id status w = (Ok tt, w') ->
  In id (List.map order_ID (orders (db w))) /\
  valid_order_status status = true /\
  Forall2 (fun o o' => o' = if (order_ID o =? id)%N
                            then order_status_set status (clock w) o
                            else o)
    (orders (db w)) (orders (db w')) /\
  db w' = db_with_orders (orders (db w')) (db w).
Proof.
  unfold UpdateStatus. intros H.
  apply bind_ok in H as (updated & w1 & H1 & H).
  unfold time_Now in H1. inversion H1; subst updated w1; clear H1.
  apply bind_ok in H as (set & w2 & H2 & H).
  apply bind_ok in H as (n & w3 & H3 & H).
  apply wrap_ok in H3.
  destruct (Nat.eqb n 0) eqn:En; [discriminate|]. inversion H; subst w'; clear H.
  assert (Hset : db w2 = db w /\ forall o, set o = order_status_set status (clock w) o).
  { unfold order_status_set.
    destruct (String.eqb status OrderStatusCompleted).
    - apply bind_ok in H2 as (now & w2' & H2' & H2).
      unfold time_Now in H2'. inversion H2'; subst now w2'; clear H2'.
      inversion H2; subst set w2. split; reflexivity.
    - inversion H2; subst set w2. split; reflexivity. }
  destruct Hset as [Hd2 Hset].
  pose proof (update_orders_ok _ _ _ _ _ H3) as [Hn Hd3]. rewrite Hd2 in Hn, Hd3.
  assert (Hex : exists o, In o (sql_where (fun o => (order_ID o =? id)%N) (orders (db w)))).
  { destruct (sql_where _ (orders (db w))) as [|o l]; [subst n; discriminate|].
    exists o. left. reflexivity. }
  destruct Hex as (o & Ho).
  split; [|split; [|split]].
  - apply List.filter_In in Ho as [Ho Hid]. apply N.eqb_eq in Hid. subst id.
    apply in_map, Ho.
  - pose proof (update_orders_valid _ _ _ _ _ o H3) as Hv. rewrite Hd2 in Hv.
    specialize (Hv Ho). rewrite Hset in Hv. exact Hv.
  - rewrite Hd3. cbn [orders db_with_orders].
    eapply Forall2_impl; [apply sql_update_Forall2|].
    intros x y ->. cbn beta. destruct (order_ID x =? id)%N; [apply Hset|reflexivity].
  - rewrite Hd3. reflexivity.
Qed.

(** Cancelling the order of the example. *)
Lemma UpdateStatus_effect_witness :
  Forall2 (fun o o' => o' = if (order_ID o =? 101)%N
                            then order_status_set OrderStatusCancelled
                                   (clock example_placed) o
                            else o)
    (orders (db example_placed))
    (orders (db (snd (UpdateStatus 101%N OrderStatusCancelled example_placed)))).
Proof.
  apply (UpdateStatus_effect 101%N OrderStatusCancelled example_placed
           (snd (UpdateStatus 101%N OrderStatusCancelled example_placed))).
  vm_compute. reflexivity.
Defined.




(** ** Status updates and money *)

Lemma amounts_closed_under_order_updates a :
  closed_under_order_updates (fun d => amounts d = a).
Proof.
  intros d p set Hset H. unfold amounts in *. cbn [orders order_items db_with_orders].
  rewrite map_sql_update; [exact H|].
  intros o. destruct (Hset o) as [-> ->]. reflexivity.
Qed.

Lemma amounts_closed_under_item_updates a itemID status :
  closed_under_item_updates itemID status (fun d => amounts d = a).
Proof.
  intros d set Hset H. unfold amounts in *. cbn [orders order_items db_with_order_items].
  rewrite map_sql_update; [exact H|].
  intros i. destruct (Hset i) as (-> & -> & -> & -> & _). reflexivity.
Qed.

(** X8.  No status update touches money: whatever their arguments and their
    outcome, [UpdateStatus], [UpdateItemStatus] (with its completion cascade)
    and the processing of a new order leave the total of every order and the
    price, the quantity and the order of every line as they were, and add or
    remove no row. *)
Theorem status_updates_keep_amounts w :
  (forall id status, amounts (db (snd (UpdateStatus id status w))) = amounts (db w)) /\
  (forall itemID status,
     amounts (db (snd (UpdateItemStatus itemID status w))) = amounts (db w)) /\
  (forall order, amounts (db (snd (processNewOrder order w))) = amounts (db w)).
Proof.
  split; [|split].
  - intros id status.
    apply (UpdateStatus_inv (fun d => amounts d = amounts (db w)));
      [apply amounts_closed_under_order_updates|reflexivity].
  - intros itemID status.
    apply (UpdateItemStatus_inv (fun d => amounts d = amounts (db w)));
      [apply amounts_closed_under_order_updates
      |apply amounts_closed_under_item_updates|reflexivity].
  - intros order.
    apply (processNewOrder_inv (fun d => amounts d = amounts (db w)));
      [apply amounts_closed_under_order_updates
      |intros itemID; apply amounts_closed_under_item_updates|reflexivity].
Qed.

(** ** Voiding *)

(** X9.  [VoidItem] on an item that does not exist: the [UPDATE] touches no row,
    which the code does not look at, and the lookup of the item that follows
    finds nothing.  The error is the wrapped [sql.ErrNoRows] of that lookup, no
    row changes, and [voidOrderItem] answers 500. *)
Theorem VoidItem_unknown_item itemID reason w :
  (forall n, faulty w n = false) ->
  ~ In itemID (List.map item_ID (order_items (db w))) ->
  (exists w', VoidItem itemID reason w
              = (Err (ErrWrap "failed to get order info" ErrNoRows), w') /\
              db w' = db w) /\
  fst (voidOrderItem itemID reason w) = StatusInternalServerError.
Proof.
  intros Hok Hnew.
  assert (E : exists w', VoidItem itemID reason w
                         = (Err (ErrWrap "failed to get order info" ErrNoRows), w') /\
                         db w' = db w).
  { unfold VoidItem, BeginTxx, update_order_items, query.
    unfold mbind, M_bind, wrap, defer_rollback, time_Now.
    rewrite exec_run by apply Hok.
    cbn [db issued clock faulty uuid_generate_v4 world_with_db world_issue world_tick].
    rewrite exec_run by apply Hok.
    cbn [db issued clock faulty uuid_generate_v4 world_with_db world_issue world_tick].
    rewrite (sql_where_id_none item_ID itemID _ Hnew),
            (sql_update_id_none item_ID itemID _ _ Hnew), db_with_order_items_same.
    cbn [List.map order_items_constraints sql_check forallb first_error List.fold_right].
    rewrite exec_run by apply Hok.
    cbn [db issued clock faulty uuid_generate_v4 world_with_db world_issue world_tick].
    unfold order_item_by_id. rewrite (sql_where_id_none item_ID itemID _ Hnew).
    cbn [sql_get]. eexists. split; reflexivity. }
  split; [exact E|]. destruct E as (w' & E & _). unfold voidOrderItem.
  rewrite E. reflexivity.
Qed.

(** Item 999 does not exist at the example restaurant. *)
Lemma VoidItem_unknown_item_witness :
  fst (voidOrderItem 999%N "dropped" example_placed) = StatusInternalServerError.
Proof.
  apply (VoidItem_unknown_item 999%N "dropped" example_placed).
  - intros n. reflexivity.
  - vm_compute. intros [H|[H|[]]]; discriminate H.
Defined.

(** X10.  A successful [VoidItem] rewrites one item and one order: the item
    becomes [Cancelled] and its instructions carry the reason; the total of the
    order of the item goes down by [price × quantity] of the item.  Every other
    item and every other order is left as it was, as are the price and the
    quantity of the voided item. *)
Theorem VoidItem_effect itemID reason w w' :
  VoidItem itemID reason w = (Ok tt, w') ->
  exists r now now',
    order_item_by_id itemID (db w) = Ok r /\
    Forall2 (fun i i' => i' = if (item_ID i =? itemID)%N then void_item reason now i else i)
      (order_items (db w)) (order_items (db w')) /\
    Forall2 (fun o o' => o' = if (order_ID o =? item_OrderID r)%N
                              then order_with_UpdatedAt now'
                                     (order_with_Total
                                        (order_Total o - item_Price r * item_Quantity r) o)
                              else o)
      (orders (db w)) (orders (db w')) /\
    order_item_modifiers (db w') = order_item_modifiers (db w) /\
    catalog (db w') = catalog (db w).
Proof.
  intros H. apply VoidItem_ok in H as (r & now & now' & Hr & Hd).
  exists r, now, now'. split; [exact Hr|]. rewrite Hd.
  cbn [orders order_items order_item_modifiers db_with_orders db_with_order_items].
  split; [apply sql_update_Forall2|]. split; [apply sql_update_Forall2|].
  split; reflexivity.
Qed.

(** Voiding the burgers of the example. *)
Lemma VoidItem_effect_witness :
  exists r now now',
    order_item_by_id 104%N (db example_placed) = Ok r /\
    Forall2 (fun i i' => i' = if (item_ID i =? 104)%N then void_item "dropped" now i else i)
      (order_items (db example_placed)) (order_items (db example_voided)) /\
    Forall2 (fun o o' => o' = if (order_ID o =? item_OrderID r)%N
                              then order_with_UpdatedAt now'
                                     (order_with_Total
                                        (order_Total o - item_Price r * item_Quantity r) o)
                              else o)
      (orders (db example_placed)) (orders (db example_voided)) /\
    order_item_modifiers (db example_voided) = order_item_modifiers (db example_placed) /\
    catalog (db example_voided) = catalog (db example_placed).
Proof.
  apply (VoidItem_effect 104%N "dropped" example_placed example_voided).
  vm_compute. reflexivity.
Defined.

(** ** The rows of a new order *)






(** ** Order numbers *)

(** X12.  The order number is the date followed by four characters of a random
    identifier, and [orders.order_number] is unique: when the number drawn for a
    new order is the number of an order that exists, the creation fails on the
    unique constraint and leaves no row behind. *)
Theorem CreateOrder_order_number_taken req userID w :
  faulty w (issued w) = false ->
  faulty w (S (issued w)) = false ->
  ~ In (uuid_generate_v4 w (S (issued w))) (List.map order_ID (orders (db w))) ->
  In (order_OrderNumber (new_order userID w)) (List.map order_OrderNumber (orders (db w))) ->
  (exists w', CreateOrder req userID w
              = (Err (ErrWrap "failed to create order"
                        (ErrWrap "failed to create order"
                           (ErrConstraint "orders_order_number_key"))), w') /\
              db w' = db w) /\
  fst (createOrder req userID w) = StatusInternalServerError.
Proof.
  intros Hok0 Hok1 Hid Hnumber.
  assert (E : exists w', CreateOrder req userID w
                         = (Err (ErrWrap "failed to create order"
                                   (ErrWrap "failed to create order"
                                      (ErrConstraint "orders_order_number_key"))), w') /\
                         db w' = db w).
  { rewrite CreateOrder_Create.
    unfold Create, BeginTxx, insert_order.
    unfold mbind, M_bind, wrap, defer_rollback.
    rewrite exec_run by exact Hok0.
    cbn [db issued clock faulty uuid_generate_v4 world_with_db world_issue world_tick].
    rewrite exec_run by exact Hok1.
    cbn [db issued clock faulty uuid_generate_v4 world_with_db world_issue world_tick].
    unfold pkey. rewrite (proj2 (existsb_id_false order_ID _ _) Hid).
    cbn [first_error List.fold_right].
    assert (Hdup : existsb (fun o => String.eqb (order_OrderNumber o)
                                       (order_OrderNumber (new_order userID w)))
                     (orders (db w)) = true).
    { apply existsb_exists. apply in_map_iff in Hnumber as (o & Ho & Hin).
      exists o. split; [exact Hin|]. apply String.eqb_eq, Ho. }
    rewrite Hdup. eexists. split; reflexivity. }
  split; [exact E|]. destruct E as (w' & E & _). unfold createOrder.
  rewrite E. reflexivity.
Qed.

(** The example restaurant draws the same order number every time: a second
    order cannot be placed. *)
Lemma CreateOrder_order_number_taken_witness :
  fst (createOrder example_request 7%N example_placed) = StatusInternalServerError.
Proof.
  apply (CreateOrder_order_number_taken example_request 7%N example_placed).
  - reflexivity.
  - reflexivity.
  - vm_compute. intros [H|[]]. discriminate H.
  - vm_compute. left. reflexivity.
Defined.

(** * The listings of the order repository *)

Section OrderByFacts.
Context {R : Type} (key : R -> Z).

Lemma order_insert_Permutation r l : Permutation (r :: l) (order_insert key r l).
Proof.
  induction l as [|x l IH]; simpl; [reflexivity|].
  destruct (key r <=? key x); [reflexivity|].
  rewrite perm_swap. apply perm_skip, IH.
Qed.

Lemma order_by_Permutation l : Permutation l (order_by key l).
Proof.
  induction l as [|x l IH]; simpl; [reflexivity|].
  rewrite <- order_insert_Permutation. apply perm_skip, IH.
Qed.

Lemma order_insert_sorted r l :
  StronglySorted (fun a b => key a <= key b) l ->
  StronglySorted (fun a b => key a <= key b) (order_insert key r l).
Proof.
  induction l as [|x l IH]; intros Hs; simpl.
  - constructor; constructor.
  - apply StronglySorted_inv in Hs as [Hs Hx].
    destruct (key r <=? key x) eqn:E.
    + apply Z.leb_le in E. constructor; [constructor; assumption|].
      constructor; [exact E|].
      eapply List.Forall_impl; [|exact Hx]. intros y Hy. cbn beta in *. lia.
    + apply Z.leb_gt in E. constructor; [apply IH, Hs|].
      rewrite <- order_insert_Permutation. constructor; [lia|exact Hx].
Qed.

Lemma order_by_sorted l : StronglySorted (fun a b => key a <= key b) (order_by key l).
Proof.
  induction l as [|x l IH]; simpl; [constructor|]. apply order_insert_sorted, IH.
Qed.
End OrderByFacts.

Lemma StronglySorted_app_inv {A} (R : A -> A -> Prop) l1 l2 :
  StronglySorted R (l1 ++ l2) ->
  StronglySorted R l1 /\ forall x y, In x l1 -> In y l2 -> R x y.
Proof.
  induction l1 as [|a l1 IH]; simpl; intros Hs.
  - split; [constructor|]. intros x y [].
  - apply StronglySorted_inv in Hs as [Hs Ha]. destruct (IH Hs) as [Hs1 Hcross].
    split.
    + constructor; [exact Hs1|]. apply List.Forall_forall. intros x Hx.
      rewrite List.Forall_forall in Ha. apply Ha, in_or_app. left. exact Hx.
    + intros x y [<-|Hx] Hy.
      * rewrite List.Forall_forall in Ha. apply Ha, in_or_app. right. exact Hy.
      * apply Hcross; assumption.
Qed.

Lemma StronglySorted_map {A B} (R : B -> B -> Prop) (f : A -> B) l :
  StronglySorted (fun a b => R (f a) (f b)) l -> StronglySorted R (List.map f l).
Proof.
  induction 1 as [|a l Hs IH Ha]; simpl; constructor; [exact IH|].
  apply List.Forall_map. exact Ha.
Qed.

Lemma StronglySorted_weaken {A} (R S : A -> A -> Prop) l :
  (forall a b, R a b -> S a b) -> StronglySorted R l -> StronglySorted S l.
Proof.
  intros HRS. induction 1 as [|a l Hs IH Ha]; constructor; [exact IH|].
  eapply List.Forall_impl; [|exact Ha]. intros b. apply HRS.
Qed.

Lemma filter_all {A} (l : list A) : List.filter (fun _ => true) l = l.
Proof. induction l as [|x l IH]; simpl; [reflexivity|]. rewrite IH. reflexivity. Qed.

(** [WHERE p ORDER BY ordered_at DESC LIMIT n], scanned into structs. *)
Lemma newest_first_limit n p t :
  newest_first n p t
    (List.map order_row (sql_limit n (order_by_desc order_OrderedAt (sql_where p t)))).
Proof.
  unfold sql_limit, order_by_desc, sql_where.
  set (key := fun r : Order => - order_OrderedAt r).
  set (s := order_by key (List.filter p t)).
  assert (Hperm : Permutation (List.filter p t) s) by apply order_by_Permutation.
  assert (Hsorted : StronglySorted (fun a b => key a <= key b) s) by apply order_by_sorted.
  rewrite <- (firstn_skipn n s) in Hsorted.
  apply StronglySorted_app_inv in Hsorted as [Hfirst Hcross].
  split; [|split; [|split]].
  - rewrite List.length_map, List.length_firstn. lia.
  - apply List.Forall_map, List.Forall_forall. intros row Hrow. split; [reflexivity|].
    exists row.
    assert (Hs : In row s).
    { rewrite <- (firstn_skipn n s). apply in_or_app. left. exact Hrow. }
    apply (Permutation_in _ (Permutation_sym Hperm)), List.filter_In in Hs.
    rename Hs into Hrow'.
    destruct Hrow' as [Hin Hp]. auto.
  - apply StronglySorted_map. eapply StronglySorted_weaken; [|exact Hfirst].
    intros a b Hab. unfold key in Hab. cbn. lia.
  - intros row Hin Hp Hout.
    assert (Hs : In row s).
    { apply (Permutation_in _ Hperm), List.filter_In. auto. }
    rewrite <- (firstn_skipn n s) in Hs. apply in_app_or in Hs as [Hs|Hs].
    { exfalso. apply Hout, in_map, Hs. }
    split.
    + rewrite List.length_map, List.length_firstn.
      destruct (Nat.le_gt_cases n (List.length s)) as [Hle|Hgt]; [lia|].
      rewrite skipn_all2 in Hs by lia. contradiction.
    + apply List.Forall_map, List.Forall_forall. intros o Ho.
      specialize (Hcross o row Ho Hs). unfold key in Hcross. cbn. lia.
Qed.

Lemma query_run {A} (f : DB -> result A) w :
  faulty w (issued w) = false ->
  query f w = match f (db w) with
              | Ok a => (Ok a, world_issue w)
              | Err e => (Err e, world_issue w)
              end.
Proof.
  intros Hok. unfold query. rewrite exec_run by exact Hok.
  destruct (f (db w)); [|reflexivity]. destruct w; reflexivity.
Qed.

(** X13.  [List] answers with the newest hundred of the orders, or of the orders
    with the status asked for, newest first and without their items; it leaves
    an order out only when a hundred orders that are not older are there.
    Nothing is written.  The handler does not check the status it is given: for
    a status that no order can have it answers 200 with an empty list. *)
Theorem Order_List_newest_first status w :
  faulty w (issued w) = false ->
  (exists l,
     Order_List status w = (Ok l, world_issue w) /\
     newest_first 100
       (fun o => match status with
                 | Some s => String.eqb (order_Status o) s
                 | None => true
                 end)
       (orders (db w)) l) /\
  (forall statusStr,
     checked (db w) -> statusStr <> "" -> valid_order_status statusStr = false ->
     listOrders statusStr w = (StatusOK, [], world_issue w)).
Proof.
  intros Hok. split.
  - unfold Order_List, wrap. rewrite query_run by exact Hok. cbv zeta.
    eexists. split; [reflexivity|].
    + destruct status as [s|].
      * apply newest_first_limit.
      * rewrite <- (filter_all (orders (db w))) at 2. apply newest_first_limit.
  - intros statusStr [_ Hstatus] Hne Hbad. unfold listOrders.
    apply String.eqb_neq in Hne. rewrite Hne.
    unfold Order_List, wrap. rewrite query_run by exact Hok. cbv zeta.
    rewrite sql_where_fresh.
    + reflexivity.
    + apply not_true_is_false. intros Hex. apply existsb_exists in Hex as (o & Ho & E).
      apply String.eqb_eq in E. rewrite List.Forall_forall in Hstatus.
      specialize (Hstatus o Ho). congruence.
Qed.

(** X14.  [GetOrderHistory] answers with the newest five hundred of the orders
    placed between the two dates, both included, newest first and without their
    items.  Nothing is written, and a range whose end lies before its start
    holds no order. *)
Theorem GetOrderHistory_newest_first startDate endDate w :
  faulty w (issued w) = false ->
  exists l,
    GetOrderHistory startDate endDate w = (Ok l, world_issue w) /\
    newest_first 500
      (fun o => (startDate <=? order_OrderedAt o) && (order_OrderedAt o <=? endDate))
      (orders (db w)) l /\
    (endDate < startDate -> l = []).
Proof.
  intros Hok. unfold GetOrderHistory, wrap. rewrite query_run by exact Hok.
  eexists. split; [|split].
  - reflexivity.
  - apply newest_first_limit.
  - intros Hlt. rewrite sql_where_fresh; [reflexivity|].
    apply not_true_is_false. intros Hex. apply existsb_exists in Hex as (o & _ & E).
    apply andb_true_iff in E as [E1 E2]. apply Z.leb_le in E1, E2. lia.
Qed.

(** At the example restaurant after its order was placed: the orders in
    progress are listed, and the unknown status "paid" gives an empty list
    with status 200. *)
Lemma Order_List_newest_first_witness :
  (exists l,
     Order_List (Some OrderStatusInProgress) example_placed
     = (Ok l, world_issue example_placed) /\
     newest_first 100 (fun o => String.eqb (order_Status o) OrderStatusInProgress)
       (orders (db example_placed)) l) /\
  listOrders "paid" example_placed = (StatusOK, [], world_issue example_placed).
Proof.
  destruct (Order_List_newest_first (Some OrderStatusInProgress) example_placed eq_refl)
    as [Hlist Hunknown].
  split; [exact Hlist|]. apply Hunknown.
  - apply checkedb_spec. vm_compute. reflexivity.
  - intros H. discriminate H.
  - reflexivity.
Defined.

(** At the example restaurant after its order was placed: a range that ends
    before it starts selects nothing. *)
Lemma GetOrderHistory_newest_first_witness :
  exists l,
    GetOrderHistory 5 0 example_placed = (Ok l, world_issue example_placed) /\ l = [].
Proof.
  destruct (GetOrderHistory_newest_first 5 0 example_placed eq_refl) as (l & E & _ & Hnil).
  exists l. split; [exact E|]. apply Hnil. reflexivity.
Defined.

(** * Deleting stations, printers and displays *)

Lemma sql_delete_none {R} (p : R -> bool) (t : list R) :
  sql_where p t = [] -> sql_delete p t = t.
Proof.
  unfold sql_where, sql_delete. induction t as [|x t IH]; simpl; [reflexivity|].
  destruct (p x); simpl; [discriminate|]. intros H. rewrite IH by exact H. reflexivity.
Qed.

Lemma In_sql_delete {R} (p : R -> bool) (t : list R) r :
  In r (sql_delete p t) <-> In r t /\ p r = false.
Proof.
  unfold sql_delete. rewrite List.filter_In, negb_true_iff. reflexivity.
Qed.

Lemma length_zero_nil {A} (l : list A) : Nat.eqb (List.length l) 0 = true -> l = [].
Proof. destruct l; [reflexivity|discriminate]. Qed.

Lemma db_with_stations_same d :
  db_with_routing_rules (routing_rules d) (db_with_stations (stations d) d) = d.
Proof. destruct d. reflexivity. Qed.

Lemma routing_station_rules menuItemID d d' :
  routing_rules d' = routing_rules d ->
  routing_station menuItemID d' = routing_station menuItemID d.
Proof. unfold routing_station. intros ->. reflexivity. Qed.

(** X15.  [Delete] refuses a station that routing rules send items to, saying
    how many they are, and answers "station not found" for a station that does
    not exist; no row changes in either case.  When it succeeds, the station
    existed and is gone, every other station and every routing rule is as it
    was: every menu item is routed as before, and none to the station that was
    deleted. *)
Theorem Station_Delete_keeps_routing id w :
  let rules := sql_where (fun r => (rule_StationID r =? id)%N) (routing_rules (db w)) in
  (faulty w (issued w) = false ->
   rules <> [] ->
   exists w',
     Station_Delete id w
     = (Err (ErrNew ("cannot delete station with " ++ pretty (List.length rules)
                     ++ " routing rules")%string), w') /\
     db w' = db w) /\
  (faulty w (issued w) = false -> faulty w (S (issued w)) = false ->
   rules = [] ->
   ~ In id (List.map station_ID (stations (db w))) ->
   exists w', Station_Delete id w = (Err (ErrNew "station not found"), w') /\ db w' = db w) /\
  (forall w',
     Station_Delete id w = (Ok tt, w') ->
     In id (List.map station_ID (stations (db w))) /\
     stations (db w') = sql_delete (fun s => (station_ID s =? id)%N) (stations (db w)) /\
     db w' = db_with_stations (stations (db w')) (db w) /\
     forall menuItemID,
       routing_station menuItemID (db w') = routing_station menuItemID (db w) /\
       routing_station menuItemID (db w') <> Ok id).
Proof.
  intros rules. split; [|split].
  - intros Hok Hrules. unfold Station_Delete.
    unfold mbind, M_bind, wrap, fail. rewrite query_run by exact Hok.
    fold rules. destruct rules as [|r rules']; [contradiction|].
    cbn [List.length Nat.ltb Nat.leb]. eexists. split; reflexivity.
  - intros Hok0 Hok1 Hrules Hnew. unfold Station_Delete, delete_station.
    unfold mbind, M_bind, wrap, fail. rewrite query_run by exact Hok0.
    fold rules. rewrite Hrules. cbn [List.length Nat.ltb Nat.leb].
    rewrite exec_run by exact Hok1.
    cbn [db issued clock faulty uuid_generate_v4 world_with_db world_issue world_tick].
    rewrite (sql_where_id_none station_ID id _ Hnew).
    cbn [List.length Nat.eqb negb andb].
    eexists. split; [reflexivity|].
    cbn [db world_with_db]. rewrite !sql_delete_none.
    + apply db_with_stations_same.
    + apply (sql_where_id_none station_ID id _ Hnew).
    + exact Hrules.
  - intros w' H. unfold Station_Delete in H.
    apply bind_ok in H as (count & w1 & H1 & H).
    apply wrap_ok, query_ok in H1 as [Hcount Hd1].
    inversion Hcount; subst count; clear Hcount. fold rules in H.
    destruct (0 <? List.length rules)%nat eqn:Ecount; [discriminate|].
    assert (Hrules : rules = []).
    { destruct rules; [reflexivity|discriminate]. }
    apply bind_ok in H as (n & w2 & H2 & H).
    destruct (Nat.eqb n 0) eqn:En; [discriminate|]. inversion H; subst w2; clear H.
    apply wrap_ok in H2. unfold delete_station in H2.
    apply exec_ok in H2 as (_ & d & Hq & ->). cbv zeta in Hq. rewrite Hd1 in Hq.
    destruct (negb _ && _); [discriminate|]. inversion Hq; subst n d; clear Hq.
    cbn [db world_with_db stations routing_rules db_with_routing_rules db_with_stations].
    assert (Hsame : sql_delete (fun r => (rule_StationID r =? id)%N) (routing_rules (db w))
                    = routing_rules (db w)) by (apply sql_delete_none, Hrules).
    split; [|split; [reflexivity|split]].
    + destruct (sql_where _ (stations (db w))) as [|s l] eqn:Es; [discriminate|].
      assert (Hs : In s (sql_where (fun s => (station_ID s =? id)%N) (stations (db w)))).
      { rewrite Es. left. reflexivity. }
      apply List.filter_In in Hs as [Hs Hid]. apply N.eqb_eq in Hid. subst id.
      apply in_map, Hs.
    + rewrite Hsame. destruct (db w); reflexivity.
    + intros menuItemID.
      assert (E : routing_station menuItemID
                    (db_with_routing_rules
                       (sql_delete (fun r => (rule_StationID r =? id)%N)
                          (routing_rules (db w)))
                       (db_with_stations
                          (sql_delete (fun s => (station_ID s =? id)%N) (stations (db w)))
                          (db w)))
                  = routing_station menuItemID (db w)).
      { apply routing_station_rules. exact Hsame. }
      split; [exact E|]. rewrite E.
      pose proof (routing_station_spec menuItemID (db w)) as Hspec.
      destruct (routing_station menuItemID (db w)) as [stationID|e]; [|discriminate].
      destruct Hspec as (rule & Hin & _ & Hst & _). intros Heq.
      assert (Hst' : rule_StationID rule = id) by congruence.
      assert (Hr : In rule rules).
      { apply List.filter_In. split; [exact Hin|]. apply N.eqb_eq, Hst'. }
      rewrite Hrules in Hr. contradiction.
Qed.

(** Station 31 of the example restaurant, the kitchen, is a routing target:
    it cannot be deleted. *)
Lemma Station_Delete_keeps_routing_witness :
  exists e w', Station_Delete 31%N example_world = (Err e, w') /\ db w' = db example_world.
Proof.
  destruct (proj1 (Station_Delete_keeps_routing 31%N example_world)) as (w' & E & Hd).
  - reflexivity.
  - vm_compute. intros H. discriminate H.
  - eexists. exists w'. split; [exact E|exact Hd].
Defined.




(** ** References between the tables *)

Lemma linkedb_spec d : linkedb d = true -> linked d.
Proof.
  unfold linkedb, linked. rewrite !andb_true_iff, !forallb_forall.
  intros [[[Hrules Hitems] Hprinters] Hdisplays]. split; [|split; [|split]].
  - intros r Hr. apply existsb_id_In, Hrules, Hr.
  - intros i Hi. apply existsb_id_In, Hitems, Hi.
  - intros s p Hs Hp. specialize (Hprinters s Hs). rewrite Hp in Hprinters.
    apply existsb_id_In, Hprinters.
  - intros s p Hs Hp. specialize (Hdisplays s Hs). rewrite Hp in Hdisplays.
    apply existsb_id_In, Hdisplays.
Qed.

Lemma delete_station_linked id :
  db_inv linked (delete_station id).
Proof.
  apply db_inv_exec. intros d _ _ a d' (Hrules & Hitems & Hprinters & Hdisplays) Hq.
  cbv zeta in Hq.
  destruct (negb _ && _) eqn:Efk; [discriminate|]. inversion Hq; subst a d'; clear Hq.
  assert (Hkept : forall stationID,
             stationID <> id -> In stationID (List.map station_ID (stations d)) ->
             In stationID
               (List.map station_ID
                  (sql_delete (fun s => (station_ID s =? id)%N) (stations d)))).
  { intros stationID Hne Hin. apply in_map_iff in Hin as (s & Hs & Hin).
    apply in_map_iff. exists s. split; [exact Hs|].
    apply In_sql_delete. split; [exact Hin|]. apply N.eqb_neq. congruence. }
  split; [|split; [|split]];
    cbn [routing_rules order_items stations printers displays
         db_with_routing_rules db_with_stations].
  - intros r Hr. apply In_sql_delete in Hr as [Hr Hne]. apply N.eqb_neq in Hne.
    apply Hkept; [exact Hne|apply Hrules, Hr].
  - intros i Hi. destruct (N.eqb_spec (item_StationID i) id) as [Heq|Hne].
    + apply andb_false_iff in Efk as [Efk|Efk].
      * apply negb_false_iff, length_zero_nil in Efk.
        rewrite sql_delete_none by exact Efk. apply Hitems, Hi.
      * exfalso. apply not_true_iff_false in Efk. apply Efk, existsb_exists.
        exists i. split; [exact Hi|]. apply N.eqb_eq, Heq.
    + apply Hkept; [exact Hne|apply Hitems, Hi].
  - intros s p Hs. apply In_sql_delete in Hs as [Hs _]. apply Hprinters, Hs.
  - intros s x Hs. apply In_sql_delete in Hs as [Hs _]. apply Hdisplays, Hs.
Qed.

Lemma delete_printer_linked id :
  db_inv linked (delete_printer id).
Proof.
  apply db_inv_exec. intros d _ _ a d' (Hrules & Hitems & Hprinters & Hdisplays) Hq.
  cbv zeta in Hq.
  destruct (negb _ && _) eqn:Efk; [discriminate|]. inversion Hq; subst a d'; clear Hq.
  split; [|split; [|split]];
    cbn [routing_rules order_items stations printers displays db_with_printers];
    try assumption.
  intros s p Hs Hp. apply andb_false_iff in Efk as [Efk|Efk].
  - apply negb_false_iff, length_zero_nil in Efk.
    rewrite sql_delete_none by exact Efk. apply (Hprinters s p Hs Hp).
  - pose proof (Hprinters s p Hs Hp) as Hin.
    apply in_map_iff in Hin as (x & Hx & Hin). apply in_map_iff. exists x.
    split; [exact Hx|]. apply In_sql_delete. split; [exact Hin|].
    apply N.eqb_neq. intros Heq. apply not_true_iff_false in Efk. apply Efk.
    apply existsb_exists. exists s. split; [exact Hs|]. rewrite Hp.
    apply N.eqb_eq. congruence.
Qed.

Lemma delete_display_linked id :
  db_inv linked (delete_display id).
Proof.
  apply db_inv_exec. intros d _ _ a d' (Hrules & Hitems & Hprinters & Hdisplays) Hq.
  cbv zeta in Hq.
  destruct (negb _ && _) eqn:Efk; [discriminate|]. inversion Hq; subst a d'; clear Hq.
  split; [|split; [|split]];
    cbn [routing_rules order_items stations printers displays db_with_displays];
    try assumption.
  intros s p Hs Hp. apply andb_false_iff in Efk as [Efk|Efk].
  - apply negb_false_iff, length_zero_nil in Efk.
    rewrite sql_delete_none by exact Efk. apply (Hdisplays s p Hs Hp).
  - pose proof (Hdisplays s p Hs Hp) as Hin.
    apply in_map_iff in Hin as (x & Hx & Hin). apply in_map_iff. exists x.
    split; [exact Hx|]. apply In_sql_delete. split; [exact Hin|].
    apply N.eqb_neq. intros Heq. apply not_true_iff_false in Efk. apply Efk.
    apply existsb_exists. exists s. split; [exact Hs|]. rewrite Hp.
    apply N.eqb_eq. congruence.
Qed.

(** X17.  No deletion leaves a reference dangling: whatever their argument and
    their outcome, after [Delete] of a station, [DeletePrinter] and
    [DeleteDisplay] every routing rule and every order item still refers to a
    station that exists, and every station to a printer and a display that
    exist. *)
Theorem deletions_keep_references w :
  linked (db w) ->
  (forall id, linked (db (snd (Station_Delete id w)))) /\
  (forall id, linked (db (snd (DeletePrinter id w)))) /\
  (forall id, linked (db (snd (DeleteDisplay id w)))).
Proof.
  intros Hlinked. split; [|split]; intros id.
  - revert w Hlinked. change (db_inv linked (Station_Delete id)).
    unfold Station_Delete. repeat db_inv_step. apply delete_station_linked.
  - revert w Hlinked. change (db_inv linked (DeletePrinter id)).
    unfold DeletePrinter. repeat db_inv_step. apply delete_printer_linked.
  - revert w Hlinked. change (db_inv linked (DeleteDisplay id)).
    unfold DeleteDisplay. repeat db_inv_step. apply delete_display_linked.
Qed.

(** The example restaurant after its order was placed: every reference is
    still there after deleting station 32, printer 40 or display 50. *)
Lemma deletions_keep_references_witness :
  linked (db (snd (Station_Delete 32%N example_placed))) /\
  linked (db (snd (DeletePrinter 40%N example_placed))) /\
  linked (db (snd (DeleteDisplay 50%N example_placed))).
Proof.
  destruct (deletions_keep_references example_placed) as (Hs & Hp & Hd).
  - apply linkedb_spec. vm_compute. reflexivity.
  - split; [apply Hs|split; [apply Hp|apply Hd]].
Defined.

(** * The processing of a new order *)

(** ** What the operations leave alone *)

Section Keeps.
Context {X : Type} (f : World -> X) (Hf : oracle f).

Lemma keeps_ret {A} (a : A) : keeps f (mret a).
Proof. intros w. reflexivity. Qed.

Lemma keeps_fail {A} e : keeps f (@fail A e).
Proof. intros w. reflexivity. Qed.

Lemma keeps_bind {A B} (m : M A) (k : A -> M B) :
  keeps f m -> (forall a, keeps f (k a)) -> keeps f (m ≫= k).
Proof.
  intros Hm Hk w. unfold mbind, M_bind. specialize (Hm w).
  destruct (m w) as [[a|e] w1]; cbn [snd] in *.
  - rewrite Hk. exact Hm.
  - exact Hm.
Qed.

Lemma keeps_wrap {A} msg (m : M A) : keeps f m -> keeps f (wrap msg m).
Proof. intros Hm w. rewrite wrap_snd. apply Hm. Qed.

Lemma keeps_exec {A} (q : DB -> Z -> N -> result (A * DB)) : keeps f (exec q).
Proof.
  destruct Hf as (Hdb & Hissue & _). intros w. unfold exec.
  destruct (faulty w (issued w)); [apply Hissue|].
  destruct (q _ _ _) as [[a d]|e]; cbn [snd]; [rewrite Hdb|]; apply Hissue.
Qed.

Lemma keeps_time_Now : keeps f time_Now.
Proof. destruct Hf as (_ & _ & Htick). intros w. apply Htick. Qed.

Lemma keeps_defer_rollback {A} tx (body : M A) :
  keeps f body -> keeps f (defer_rollback tx body).
Proof.
  destruct Hf as (Hdb & _ & _). intros Hm w. unfold defer_rollback. specialize (Hm w).
  destruct (body w) as [[a|e] w1]; cbn [snd] in *; [exact Hm|].
  unfold Rollback. rewrite Hdb. exact Hm.
Qed.

Lemma keeps_if {A} (b : bool) (m1 m2 : M A) :
  keeps f m1 -> keeps f m2 -> keeps f (if b then m1 else m2).
Proof. destruct b; auto. Qed.
End Keeps.

Ltac keeps_step :=
  lazymatch goal with
  | |- keeps _ (_ ≫= _) => apply keeps_bind; [|intros ?]
  | |- keeps _ (wrap _ _) => apply keeps_wrap
  | |- keeps _ (defer_rollback _ _) => apply keeps_defer_rollback; [assumption|]
  | |- keeps _ (if _ then _ else _) => apply keeps_if
  | |- keeps _ (match ?x with _ => _ end) => destruct x
  | |- keeps _ (mret _) => apply keeps_ret
  | |- keeps _ (fail _) => apply keeps_fail
  | |- keeps _ (exec _) => apply keeps_exec; assumption
  | |- keeps _ time_Now => apply keeps_time_Now; assumption
  end.

Section KeepsCreate.
Context {X : Type} (f : World -> X) (Hf : oracle f).

Lemma keeps_create_modifiers itemID mods : forall price created,
  keeps f (create_modifiers itemID mods price created).
Proof.
  induction mods as [|modReq rest IH]; intros price created; cbn [create_modifiers].
  - keeps_step.
  - unfold query, insert_order_item_modifier. repeat keeps_step. apply IH.
Qed.

Lemma keeps_create_item createdOrder itemReq : keeps f (create_item createdOrder itemReq).
Proof.
  unfold create_item, query, insert_order_item, update_order_items.
  repeat keeps_step. apply keeps_create_modifiers.
Qed.

Lemma keeps_create_items itemRequests : forall createdOrder,
  keeps f (create_items createdOrder itemRequests).
Proof.
  induction itemRequests as [|itemReq rest IH]; intros createdOrder; cbn [create_items].
  - keeps_step.
  - keeps_step; [apply keeps_create_item|apply IH].
Qed.

Lemma keeps_Create order itemRequests : keeps f (Create order itemRequests).
Proof.
  unfold Create, BeginTxx, insert_order, update_orders, Commit.
  keeps_step; [repeat keeps_step|].
  keeps_step. keeps_step; [repeat keeps_step|].
  keeps_step; [apply keeps_create_items|]. repeat keeps_step.
Qed.
End KeepsCreate.

Lemma oracle_faulty : oracle faulty.
Proof. repeat split. Qed.

Lemma oracle_stdout : oracle stdout.
Proof. repeat split. Qed.

Lemma oracle_range_picks : oracle range_picks.
Proof. repeat split. Qed.

(** ** Sending items to their stations *)

Lemma same_line_refl r : same_line r r.
Proof. repeat split. Qed.

Lemma same_line_trans r1 r2 r3 : same_line r1 r2 -> same_line r2 r3 -> same_line r1 r3.
Proof.
  intros (H1 & H2 & H3 & H4 & H5 & H6) (K1 & K2 & K3 & K4 & K5 & K6).
  repeat split; congruence.
Qed.

Lemma sent_row_nil r : sent_row [] r r.
Proof.
  split; [apply same_line_refl|]. split; [intros []|]. split; auto.
Qed.

Lemma sent_row_app ids1 ids2 r r1 r2 :
  sent_row ids1 r r1 -> sent_row ids2 r1 r2 -> sent_row (ids1 ++ ids2) r r2.
Proof.
  intros (Hs1 & Hin1 & Hout1 & Hst1) (Hs2 & Hin2 & Hout2 & Hst2).
  assert (Hid : item_ID r1 = item_ID r) by apply Hs1.
  split; [eapply same_line_trans; eassumption|]. split; [|split].
  - intros Hin. destruct (in_dec N.eq_dec (item_ID r) ids2) as [H2|H2].
    + apply Hin2. rewrite Hid. exact H2.
    + rewrite Hout2 by (rewrite Hid; exact H2).
      apply in_app_or in Hin as [Hin|Hin]; [apply Hin1, Hin|contradiction].
  - intros Hout. rewrite Hout2, Hout1; [reflexivity| |].
    + intros H. apply Hout, in_or_app. left. exact H.
    + rewrite Hid. intros H. apply Hout, in_or_app. right. exact H.
  - intros t Ht. apply Hst2, Hst1, Ht.
Qed.

Lemma Forall2_sent_row_nil t : Forall2 (sent_row []) t t.
Proof. induction t; constructor; [apply sent_row_nil|assumption]. Qed.

Lemma Forall2_sent_row_app ids1 ids2 t t1 t2 :
  Forall2 (sent_row ids1) t t1 -> Forall2 (sent_row ids2) t1 t2 ->
  Forall2 (sent_row (ids1 ++ ids2)) t t2.
Proof.
  intros H. revert t2. induction H as [|r r1 t t1 Hr _ IH]; intros t2 H2.
  - inversion H2; subst. constructor.
  - inversion H2; subst. constructor; [eapply sent_row_app; eassumption|apply IH; assumption].
Qed.

Lemma Forall2_sent_row_ids ids t t' :
  Forall2 (sent_row ids) t t' -> List.map item_ID t' = List.map item_ID t.
Proof.
  induction 1 as [|r r' t t' Hr _ IH]; [reflexivity|].
  cbn [List.map]. rewrite IH. f_equal. apply Hr.
Qed.

Lemma Forall2_sent_row_checked ids t t' :
  Forall2 (sent_row ids) t t' ->
  Forall (fun i => 0 < item_Quantity i /\ 0 <= item_Price i) t ->
  Forall (fun i => 0 < item_Quantity i /\ 0 <= item_Price i) t'.
Proof.
  induction 1 as [|r r' t t' Hr _ IH]; intros Hc; [constructor|].
  apply List.Forall_cons_iff in Hc as [Hc Hrest]. constructor; [|apply IH, Hrest].
  destruct Hr as ((_ & _ & _ & _ & -> & ->) & _). exact Hc.
Qed.

Lemma stamp_once_Some now sent : stamp_once now sent <> None.
Proof. destruct sent; discriminate. Qed.

Lemma UpdateItemStatus_InProgress_run itemID w :
  (forall n, faulty w n = false) ->
  Forall (fun i => 0 < item_Quantity i /\ 0 <= item_Price i) (order_items (db w)) ->
  In itemID (List.map item_ID (order_items (db w))) ->
  exists w1 rows,
    UpdateItemStatus itemID OrderItemStatusInProgress w = (Ok tt, w1) /\
    faulty w1 = faulty w /\ stdout w1 = stdout w /\ range_picks w1 = range_picks w /\
    db w1 = db_with_order_items rows (db w) /\
    Forall2 (sent_row [itemID]) (order_items (db w)) rows.
Proof.
  intros Hok Hchecked Hin.
  assert (E : exists w1,
             UpdateItemStatus itemID OrderItemStatusInProgress w = (Ok tt, w1) /\
             faulty w1 = faulty w /\ stdout w1 = stdout w /\
             range_picks w1 = range_picks w).
  { unfold UpdateItemStatus.
    change (String.eqb OrderItemStatusInProgress OrderItemStatusCompleted) with false.
    change (String.eqb OrderItemStatusInProgress OrderItemStatusInProgress) with true.
    cbv iota. unfold update_order_items.
    unfold mbind, M_bind, wrap, time_Now, mret, M_ret.
    rewrite exec_run by apply Hok.
    cbn [db issued clock faulty uuid_generate_v4 world_with_db world_issue world_tick].
    rewrite order_items_constraints_pass.
    2:{ apply List.Forall_map. unfold sql_where.
        apply List.Forall_forall. intros i Hi. apply List.filter_In in Hi as [Hi _].
        rewrite List.Forall_forall in Hchecked.
        destruct (Hchecked i Hi) as [Hq Hp]. cbn. auto. }
    rewrite List.length_map, (sql_where_id_length item_ID itemID _ Hin).
    eexists. repeat split. }
  destruct E as (w1 & E & Hf & Hs & Hp).
  pose proof (UpdateItemStatus_InProgress_ok _ _ _ E) as Hd.
  eexists. eexists. split; [exact E|]. split; [exact Hf|]. split; [exact Hs|].
  split; [exact Hp|]. split; [exact Hd|].
  eapply Forall2_impl; [apply sql_update_Forall2|].
  intros r r' ->. cbn beta.
  destruct (N.eqb_spec (item_ID r) itemID) as [Heq|Hne].
  - split; [repeat split|]. split; [|split].
    + intros _. split; [reflexivity|]. cbn. apply stamp_once_Some.
    + intros Hnot. exfalso. apply Hnot. left. congruence.
    + intros t Ht. cbn. rewrite Ht. reflexivity.
  - split; [apply same_line_refl|]. split; [|split].
    + intros [H|[]]. congruence.
    + reflexivity.
    + auto.
Qed.

Lemma update_items_status_run items : forall w,
  (forall n, faulty w n = false) ->
  Forall (fun i => 0 < item_Quantity i /\ 0 <= item_Price i) (order_items (db w)) ->
  (forall i, In i items -> In (item_ID i) (List.map item_ID (order_items (db w)))) ->
  exists w1 rows,
    update_items_status items OrderItemStatusInProgress w = (Ok tt, w1) /\
    faulty w1 = faulty w /\ stdout w1 = stdout w /\ range_picks w1 = range_picks w /\
    db w1 = db_with_order_items rows (db w) /\
    Forall2 (sent_row (List.map item_ID items)) (order_items (db w)) rows.
Proof.
  induction items as [|x items IH]; intros w Hok Hchecked Hin.
  - exists w, (order_items (db w)). cbn [update_items_status List.map].
    repeat split; [destruct (db w); reflexivity|apply Forall2_sent_row_nil].
  - destruct (UpdateItemStatus_InProgress_run (item_ID x) w Hok Hchecked)
      as (w1 & rows1 & E1 & Hf1 & Hs1 & Hp1 & Hd1 & Hrows1).
    { apply Hin. left. reflexivity. }
    assert (Hitems1 : order_items (db w1) = rows1) by (rewrite Hd1; reflexivity).
    destruct (IH w1) as (w2 & rows2 & E2 & Hf2 & Hs2 & Hp2 & Hd2 & Hrows2).
    { intros n. rewrite Hf1. apply Hok. }
    { rewrite Hitems1. eapply Forall2_sent_row_checked; eassumption. }
    { intros i Hi. rewrite Hitems1, (Forall2_sent_row_ids _ _ _ Hrows1).
      apply Hin. right. exact Hi. }
    exists w2, rows2. split; [|split; [|split; [|split; [|split]]]].
    + cbn [update_items_status]. unfold mbind, M_bind at 1.
      rewrite (wrap_Ok _ _ _ _ _ E1). exact E2.
    + congruence.
    + congruence.
    + congruence.
    + rewrite Hd2, Hd1. reflexivity.
    + rewrite Hitems1 in Hrows2.
      apply (Forall2_sent_row_app [item_ID x] (List.map item_ID items) _ _ _ Hrows1 Hrows2).
Qed.

(** ** One station *)

Lemma by_id_exists {R} (id_of : R -> N) id (t : list R) :
  In id (List.map id_of t) ->
  exists r, sql_get (sql_where (fun r => (id_of r =? id)%N) t) = Ok r.
Proof.
  intros Hin. pose proof (sql_where_id_length id_of id t Hin) as H.
  destruct (sql_where _ t) as [|r l]; [discriminate|]. exists r. reflexivity.
Qed.

Lemma Station_GetByID_run id w s :
  (forall n, faulty w n = false) ->
  linked (db w) ->
  station_by_id id (db w) = Ok s ->
  exists station w1,
    Station_GetByID id w = (Ok station, w1) /\
    station_PrinterID station = station_PrinterID s /\
    db w1 = db w /\ faulty w1 = faulty w /\ stdout w1 = stdout w /\
    range_picks w1 = range_picks w.
Proof.
  intros Hok (_ & _ & Hprinters & Hdisplays) Hs.
  pose proof (sql_get_where_In _ _ _ Hs) as [Hin _].
  unfold Station_GetByID, GetPrinterByID, getDisplay.
  unfold mbind, M_bind, wrap, mret, M_ret.
  rewrite query_run by apply Hok. rewrite Hs.
  destruct (station_PrinterID s) as [p|] eqn:Ep.
  - destruct (by_id_exists printer_ID p (printers (db w)) (Hprinters s p Hin Ep))
      as (printer & Hprinter).
    rewrite query_run by apply Hok. unfold printer_by_id at 1.
    cbn [db world_issue]. rewrite Hprinter.
    cbn [station_DisplayID station_with_Printer].
    destruct (station_DisplayID s) as [x|] eqn:Ex.
    + destruct (by_id_exists display_ID x (displays (db w)) (Hdisplays s x Hin Ex))
        as (display & Hdisplay).
      rewrite query_run by apply Hok. unfold display_by_id at 1.
      cbn [db world_issue]. rewrite Hdisplay.
      eexists. eexists. split; [reflexivity|]. cbn. rewrite Ep. repeat split.
    + eexists. eexists. split; [reflexivity|]. cbn. rewrite Ep. repeat split.
  - destruct (station_DisplayID s) as [x|] eqn:Ex.
    + destruct (by_id_exists display_ID x (displays (db w)) (Hdisplays s x Hin Ex))
        as (display & Hdisplay).
      rewrite query_run by apply Hok. unfold display_by_id at 1.
      cbn [db world_issue]. rewrite Hdisplay.
      eexists. eexists. split; [reflexivity|]. cbn. rewrite Ep. repeat split.
    + eexists. eexists. split; [reflexivity|]. repeat split. exact Ep.
Qed.

Lemma PrintOrderItems_run order items printerID w printer :
  (forall n, faulty w n = false) ->
  printer_by_id printerID (db w) = Ok printer ->
  exists w1,
    PrintOrderItems order items printerID w = (Ok tt, w1) /\
    db w1 = db w /\ faulty w1 = faulty w /\
    stdout w1 = stdout w ++ [Printing printer (order_ID order) (List.map item_ID items)] /\
    range_picks w1 = range_picks w.
Proof.
  intros Hok Hprinter. unfold PrintOrderItems, GetPrinterByID.
  unfold mbind, M_bind, wrap, time_Now, Printf.
  rewrite query_run by apply Hok. rewrite Hprinter.
  eexists. split; [reflexivity|]. repeat split.
Qed.

Lemma process_station_run order stationID items w :
  (forall n, faulty w n = false) ->
  linked (db w) ->
  Forall (fun i => 0 < item_Quantity i /\ 0 <= item_Price i) (order_items (db w)) ->
  In stationID (List.map station_ID (stations (db w))) ->
  (forall i, In i items -> In (item_ID i) (List.map item_ID (order_items (db w)))) ->
  exists w1 rows,
    process_station order stationID items w = (Ok tt, w1) /\
    faulty w1 = faulty w /\ range_picks w1 = range_picks w /\
    stdout w1 = stdout w ++ ticket (db w) order (stationID, items) /\
    db w1 = db_with_order_items rows (db w) /\
    Forall2 (sent_row (List.map item_ID items)) (order_items (db w)) rows.
Proof.
  intros Hok Hlinked Hchecked Hstation Hitems.
  destruct (by_id_exists station_ID stationID _ Hstation) as (s & Hs).
  fold (station_by_id stationID (db w)) in Hs.
  destruct (Station_GetByID_run stationID w s Hok Hlinked Hs)
    as (station & w1 & E1 & Hp1 & Hd1 & Hf1 & Hs1 & Hr1).
  unfold process_station. unfold mbind, M_bind at 1.
  rewrite (wrap_Ok _ _ _ _ _ E1). unfold ticket. cbn [fst snd].
  rewrite Hs. rewrite Hp1.
  destruct (station_PrinterID s) as [p|] eqn:Ep.
  - assert (Hin : In s (stations (db w))) by (apply (sql_get_where_In _ _ _ Hs)).
    destruct Hlinked as (_ & _ & Hprinters & _).
    destruct (by_id_exists printer_ID p _ (Hprinters s p Hin Ep)) as (printer & Hprinter).
    fold (printer_by_id p (db w)) in Hprinter. rewrite Hprinter.
    destruct (PrintOrderItems_run order items p w1 printer)
      as (w2 & E2 & Hd2 & Hf2 & Hs2 & Hr2).
    { intros n. rewrite Hf1. apply Hok. }
    { rewrite Hd1. exact Hprinter. }
    unfold mbind, M_bind. rewrite (wrap_Ok _ _ _ _ _ E2).
    destruct (update_items_status_run items w2)
      as (w3 & rows & E3 & Hf3 & Hs3 & Hr3 & Hd3 & Hrows).
    { intros n. rewrite Hf2, Hf1. apply Hok. }
    { rewrite Hd2, Hd1. exact Hchecked. }
    { rewrite Hd2, Hd1. exact Hitems. }
    exists w3, rows. split; [exact E3|]. rewrite Hd2, Hd1 in Hd3, Hrows.
    repeat split; try congruence.
  - unfold mbind, M_bind, mret, M_ret.
    destruct (update_items_status_run items w1)
      as (w3 & rows & E3 & Hf3 & Hs3 & Hr3 & Hd3 & Hrows).
    { intros n. rewrite Hf1. apply Hok. }
    { rewrite Hd1. exact Hchecked. }
    { rewrite Hd1. exact Hitems. }
    exists w3, rows. split; [exact E3|]. rewrite Hd1 in Hd3, Hrows.
    rewrite app_nil_r. repeat split; try congruence.
Qed.

(** ** The stations of an order *)

Lemma ticket_catalog d d' order g :
  catalog d' = catalog d -> ticket d' order g = ticket d order g.
Proof.
  unfold catalog. intros H. inversion H as [[Hm Ho Hr Hs Hp Hd]].
  unfold ticket, station_by_id, printer_by_id. rewrite Hs, Hp. reflexivity.
Qed.

Lemma linked_sent ids d rows :
  linked d -> Forall2 (sent_row ids) (order_items d) rows ->
  linked (db_with_order_items rows d).
Proof.
  intros (Hrules & Hitems & Hprinters & Hdisplays) Hrows.
  split; [exact Hrules|]. split; [|split; assumption].
  cbn [order_items stations db_with_order_items]. intros i Hi.
  assert (Hex : exists r, In r (order_items d) /\ sent_row ids r i).
  { clear -Hrows Hi. induction Hrows as [|r r' t t' Hr _ IH]; [contradiction|].
    destruct Hi as [<-|Hi].
    - exists r. split; [left; reflexivity|exact Hr].
    - destruct (IH Hi) as (x & Hx & Hs). exists x. split; [right; exact Hx|exact Hs]. }
  destruct Hex as (r & Hr & ((_ & _ & _ & Hst & _) & _)). rewrite Hst. apply Hitems, Hr.
Qed.

Lemma process_stations_run order groups : forall w,
  (forall n, faulty w n = false) ->
  linked (db w) ->
  Forall (fun i => 0 < item_Quantity i /\ 0 <= item_Price i) (order_items (db w)) ->
  Forall (fun g => In (fst g) (List.map station_ID (stations (db w))) /\
                   forall i, In i (snd g) ->
                             In (item_ID i) (List.map item_ID (order_items (db w))))
    groups ->
  exists w1 rows,
    process_stations order groups w = (Ok tt, w1) /\
    faulty w1 = faulty w /\ range_picks w1 = range_picks w /\
    stdout w1 = stdout w ++ tickets (db w) order groups /\
    db w1 = db_with_order_items rows (db w) /\
    Forall2 (sent_row (List.concat (List.map (fun g => List.map item_ID (snd g)) groups)))
      (order_items (db w)) rows.
Proof.
  induction groups as [|[stationID items] groups IH]; intros w Hok Hlinked Hchecked Hgroups.
  - exists w, (order_items (db w)). cbn [process_stations List.map List.concat tickets].
    rewrite app_nil_r. repeat split; [destruct (db w); reflexivity|].
    apply Forall2_sent_row_nil.
  - apply List.Forall_cons_iff in Hgroups as [[Hstation Hitems] Hgroups].
    cbn [fst snd] in Hstation, Hitems.
    destruct (process_station_run order stationID items w Hok Hlinked Hchecked Hstation
                Hitems)
      as (w1 & rows1 & E1 & Hf1 & Hr1 & Hs1 & Hd1 & Hrows1).
    assert (Hitems1 : order_items (db w1) = rows1) by (rewrite Hd1; reflexivity).
    assert (Hcat1 : catalog (db w1) = catalog (db w))
      by (rewrite Hd1; apply catalog_db_with_order_items).
    destruct (IH w1) as (w2 & rows2 & E2 & Hf2 & Hr2 & Hs2 & Hd2 & Hrows2).
    { intros n. rewrite Hf1. apply Hok. }
    { rewrite Hd1. eapply linked_sent; eassumption. }
    { rewrite Hitems1. eapply Forall2_sent_row_checked; eassumption. }
    { eapply List.Forall_impl; [|exact Hgroups]. intros g [Hg1 Hg2]. split.
      - rewrite Hd1. exact Hg1.
      - intros i Hi. rewrite Hitems1, (Forall2_sent_row_ids _ _ _ Hrows1). apply Hg2, Hi. }
    exists w2, rows2. split; [|split; [|split; [|split; [|split]]]].
    + cbn [process_stations]. unfold mbind, M_bind at 1. rewrite E1. exact E2.
    + congruence.
    + congruence.
    + rewrite Hs2, Hs1. unfold tickets. cbn [List.map List.concat].
      rewrite <- app_assoc. f_equal. f_equal.
      apply f_equal, List.map_ext. intros g. apply ticket_catalog, Hcat1.
    + rewrite Hd2, Hd1. reflexivity.
    + rewrite Hitems1 in Hrows2. cbn [List.map List.concat snd].
      eapply Forall2_sent_row_app; eassumption.
Qed.

(** The groups of [processNewOrder]: the group of a station holds the items
    of the order that go to this station, in the order of the request, and
    a station without an item has no group. *)
Lemma group_by_station_lookup items stationID :
  group_by_station items !! stationID
  = match List.filter (fun i => (item_StationID i =? stationID)%N) items with
    | [] => None
    | g => Some g
    end.
Proof.
  unfold group_by_station.
  assert (H : forall (l : list OrderItem) (m : gmap N (list OrderItem)),
             foldl (fun stationItems item =>
                      <[item_StationID item :=
                          default [] (stationItems !! item_StationID item) ++ [item]]>
                        stationItems) m l !! stationID
             = match List.filter (fun i => (item_StationID i =? stationID)%N) l with
               | [] => m !! stationID
               | g => Some (default [] (m !! stationID) ++ g)
               end).
  { induction l as [|x l IH]; intros m; [reflexivity|].
    cbn [foldl List.filter]. rewrite IH.
    destruct (N.eqb_spec (item_StationID x) stationID) as [Heq|Hne].
    - rewrite Heq, lookup_insert_eq. cbn [default from_option id].
      destruct (List.filter _ l); [reflexivity|].
      rewrite <- app_assoc. reflexivity.
    - rewrite lookup_insert_ne by exact Hne. reflexivity. }
  rewrite H, lookup_empty. destruct (List.filter _ items); reflexivity.
Qed.

(** ** The checks of [order_items] hold after every statement *)

Lemma order_items_constraints_checked d rows :
  order_items_constraints d rows = None ->
  Forall (fun i => 0 < item_Quantity i /\ 0 <= item_Price i) rows.
Proof.
  unfold order_items_constraints, sql_check. cbn [first_error List.fold_right].
  destruct (forallb (fun i => 0 <? item_Quantity i) rows) eqn:E1; [|discriminate].
  destruct (forallb (fun i => 0 <=? item_Price i) rows) eqn:E2; [|discriminate].
  intros _. rewrite forallb_forall in E1, E2. apply List.Forall_forall. intros i Hi.
  split; [apply Z.ltb_lt, E1, Hi|apply Z.leb_le, E2, Hi].
Qed.

Lemma update_order_items_checked p set : db_inv items_checked (update_order_items p set).
Proof.
  apply db_inv_exec. intros d _ _ n d' Hc Hq. cbv zeta in Hq.
  destruct (order_items_constraints _ _) eqn:E; [discriminate|].
  inversion Hq; subst n d'; clear Hq.
  apply order_items_constraints_checked in E.
  unfold items_checked in *. cbn [order_items db_with_order_items].
  unfold sql_update. apply List.Forall_map, List.Forall_forall. intros i Hi.
  destruct (p i) eqn:Ep.
  - rewrite List.Forall_forall in E. apply E, in_map, List.filter_In. auto.
  - rewrite List.Forall_forall in Hc. apply Hc, Hi.
Qed.

Lemma insert_order_item_checked orderID menuItemID stationID quantity price status instr :
  db_inv items_checked
    (insert_order_item orderID menuItemID stationID quantity price status instr).
Proof.
  apply db_inv_exec. intros d now id row d' Hc Hq. cbv zeta in Hq.
  destruct (first_error _) eqn:E; [discriminate|]. inversion Hq; subst row d'; clear Hq.
  apply first_error_None_cons in E as [_ E]. apply first_error_None_cons in E as [_ E].
  apply first_error_None_cons in E as [_ E]. apply first_error_None_cons in E as [_ E].
  apply first_error_None_cons in E as [E _].
  apply order_items_constraints_checked in E.
  unfold items_checked in *. cbn [order_items db_with_order_items].
  apply Forall_app. split; assumption.
Qed.

Lemma create_modifiers_checked itemID mods : forall price created,
  db_inv items_checked (create_modifiers itemID mods price created).
Proof.
  induction mods as [|modReq rest IH]; intros price created; cbn [create_modifiers].
  - db_inv_step.
  - db_inv_step; [repeat db_inv_step|].
    db_inv_step; [|apply IH].
    db_inv_step. apply db_inv_exec. intros d now id row d' Hc Hq. cbv zeta in Hq.
    destruct (first_error _); [discriminate|]. inversion Hq; subst. exact Hc.
Qed.

Lemma create_items_checked itemRequests : forall createdOrder,
  db_inv items_checked (create_items createdOrder itemRequests).
Proof.
  induction itemRequests as [|itemReq rest IH]; intros createdOrder; cbn [create_items].
  - db_inv_step.
  - db_inv_step; [|apply IH]. unfold create_item.
    db_inv_step; [repeat db_inv_step|].
    db_inv_step; [repeat db_inv_step|].
    db_inv_step; [db_inv_step; apply insert_order_item_checked|].
    db_inv_step; [repeat db_inv_step|].
    apply db_inv_bind; [apply create_modifiers_checked|intros [price modifiers]].
    db_inv_step; [db_inv_step; apply update_order_items_checked|db_inv_step].
Qed.

Lemma Create_checked order itemRequests w o w' :
  items_checked (db w) ->
  Create order itemRequests w = (Ok o, w') ->
  items_checked (db w').
Proof.
  intros Hc H. apply transaction_ok in H as (tx & w0 & Hd0 & H).
  assert (Hinv : db_inv items_checked
                   (createdOrder ← wrap "failed to create order" (insert_order order);
                    createdOrder ← create_items createdOrder itemRequests;
                    wrap "failed to update order total"
                      (update_orders (fun o => (order_ID o =? order_ID createdOrder)%N)
                         (order_with_Total (order_Total createdOrder)));;
                    wrap "failed to commit transaction" (Commit tx);;
                    mret createdOrder)).
  { db_inv_step.
    - db_inv_step. apply db_inv_exec. intros d now id row d' Hd Hq. cbv zeta in Hq.
      destruct (first_error _); [discriminate|]. inversion Hq; subst. exact Hd.
    - db_inv_step; [apply create_items_checked|].
      db_inv_step.
      + db_inv_step. apply db_inv_exec. intros d now id n d' Hd Hq. cbv zeta in Hq.
        destruct (orders_constraints _ _); [discriminate|]. inversion Hq; subst. exact Hd.
      + db_inv_step; [|db_inv_step]. db_inv_step.
        apply db_inv_exec. intros d now id n d' Hd Hq. inversion Hq; subst. exact Hd. }
  specialize (Hinv w0). rewrite Hd0 in Hinv. specialize (Hinv Hc).
  rewrite H in Hinv. exact Hinv.
Qed.

(** ** The whole of the processing *)

Lemma sql_update_ext {R} (p : R -> bool) set set' (t : list R) :
  (forall r, set r = set' r) -> sql_update p set t = sql_update p set' t.
Proof.
  intros H. unfold sql_update. apply List.map_ext. intros r. rewrite H. reflexivity.
Qed.

Lemma UpdateStatus_InProgress_run id w :
  (forall n, faulty w n = false) ->
  In id (List.map order_ID (orders (db w))) ->
  exists w1,
    UpdateStatus id OrderStatusInProgress w = (Ok tt, w1) /\
    faulty w1 = faulty w /\ stdout w1 = stdout w /\ range_picks w1 = range_picks w /\
    db w1 = db_with_orders
              (sql_update (fun o => (order_ID o =? id)%N)
                 (order_status_set OrderStatusInProgress (clock w)) (orders (db w)))
              (db w).
Proof.
  intros Hok Hin. unfold UpdateStatus.
  change (String.eqb OrderStatusInProgress OrderStatusCompleted) with false. cbv iota.
  unfold update_orders. unfold mbind, M_bind, wrap, time_Now, mret, M_ret.
  rewrite exec_run by apply Hok.
  cbn [db issued clock faulty uuid_generate_v4 world_with_db world_issue world_tick].
  rewrite orders_constraints_pass
    by (apply List.Forall_map, List.Forall_forall; intros o _; reflexivity).
  rewrite List.length_map, (sql_where_id_length order_ID id (orders (db w)) Hin).
  eexists. split; [reflexivity|]. repeat split.
Qed.

Lemma group_items_In items stationID g :
  In (stationID, g) (map_to_list (group_by_station items)) ->
  g = List.filter (fun i => (item_StationID i =? stationID)%N) items /\ g <> [].
Proof.
  intros H. apply list_elem_of_In, elem_of_map_to_list in H.
  rewrite group_by_station_lookup in H.
  destruct (List.filter _ items) as [|x l]; [discriminate|].
  inversion H; subst g. split; [reflexivity|discriminate].
Qed.

Lemma processNewOrder_run order w :
  (forall n, faulty w n = false) ->
  linked (db w) ->
  items_checked (db w) ->
  In (order_ID order) (List.map order_ID (orders (db w))) ->
  Forall (fun i => In (item_ID i) (List.map item_ID (order_items (db w))) /\
                   In (item_StationID i) (List.map station_ID (stations (db w))))
    (order_Items order) ->
  exists w1 rows groups,
    processNewOrder order w = (Ok tt, w1) /\
    groups = go_range (range_picks w) (map_to_list (group_by_station (order_Items order))) /\
    stdout w1 = stdout w ++ tickets (db w) order groups /\
    db w1 = db_with_order_items rows
              (db_with_orders
                 (sql_update (fun o => (order_ID o =? order_ID order)%N)
                    (order_status_set OrderStatusInProgress (clock w)) (orders (db w)))
                 (db w)) /\
    Forall2 (sent_row (List.concat (List.map (fun g => List.map item_ID (snd g)) groups)))
      (order_items (db w)) rows.
Proof.
  intros Hok Hlinked Hchecked Horder Hitems.
  destruct (UpdateStatus_InProgress_run (order_ID order) w Hok Horder)
    as (w1 & E1 & Hf1 & Hs1 & Hr1 & Hd1).
  set (groups := go_range (range_picks w) (map_to_list (group_by_station (order_Items order)))).
  assert (Hgroups : Forall (fun g => In (fst g) (List.map station_ID (stations (db w1))) /\
                                     forall i, In i (snd g) ->
                                       In (item_ID i)
                                          (List.map item_ID (order_items (db w1))))
                      groups).
  { apply List.Forall_forall. intros [stationID g] Hg. cbn [fst snd].
    apply go_range_In, group_items_In in Hg as [Hg Hne].
    rewrite List.Forall_forall in Hitems. rewrite Hd1.
    cbn [stations order_items db_with_orders]. split.
    - destruct g as [|x l]; [contradiction|].
      assert (Hx : In x (List.filter (fun i => (item_StationID i =? stationID)%N)
                           (order_Items order))) by (rewrite <- Hg; left; reflexivity).
      apply List.filter_In in Hx as [Hx Hst]. apply N.eqb_eq in Hst. subst stationID.
      apply Hitems, Hx.
    - intros i Hi. rewrite Hg in Hi. apply List.filter_In in Hi as [Hi _].
      apply Hitems, Hi. }
  destruct (process_stations_run order groups w1)
    as (w2 & rows & E2 & Hf2 & Hr2 & Hs2 & Hd2 & Hrows).
  { intros n. rewrite Hf1. apply Hok. }
  { rewrite Hd1. destruct Hlinked as (H1 & H2 & H3 & H4). repeat split; assumption. }
  { rewrite Hd1. exact Hchecked. }
  { exact Hgroups. }
  exists w2, rows, groups. split; [|split; [reflexivity|split; [|split]]].
  - unfold processNewOrder. unfold mbind, M_bind at 1.
    rewrite (wrap_Ok _ _ _ _ _ E1). unfold mbind, M_bind, range_stations.
    rewrite Hr1. exact E2.
  - rewrite Hs2, Hs1. f_equal. unfold tickets. apply f_equal, List.map_ext. intros g.
    apply ticket_catalog. rewrite Hd1. apply catalog_db_with_orders.
  - rewrite Hd2, Hd1. reflexivity.
  - rewrite Hd1 in Hrows. exact Hrows.
Qed.

(** ** A new order, from the request to the stations *)

Lemma Forall2_sent_row_untouched ids t t' :
  Forall2 (sent_row ids) t t' ->
  (forall r, In r t -> ~ In (item_ID r) ids) ->
  t' = t.
Proof.
  induction 1 as [|r r' t t' Hr _ IH]; intros Hout; [reflexivity|].
  destruct Hr as (_ & _ & Hsame & _). rewrite Hsame by (apply Hout; left; reflexivity).
  f_equal. apply IH. intros x Hx. apply Hout. right. exact Hx.
Qed.

Lemma Forall2_map_l {A B C} (R : B -> C -> Prop) (f : A -> B) l l' :
  Forall2 R (List.map f l) l' -> Forall2 (fun x y => R (f x) y) l l'.
Proof.
  revert l'. induction l as [|x l IH]; intros l' H; inversion H; subst; constructor; auto.
Qed.

Lemma Forall2_impl_In {A B} (P Q : A -> B -> Prop) l k :
  Forall2 P l k -> (forall x y, In x l -> P x y -> Q x y) -> Forall2 Q l k.
Proof.
  induction 1 as [|x y l k Hxy _ IH]; intros HPQ; constructor.
  - apply HPQ; [left; reflexivity|exact Hxy].
  - apply IH. intros a b Ha. apply HPQ. right. exact Ha.
Qed.

Lemma created_item_station d orderID itemReq i :
  linked d -> created_item d orderID itemReq i ->
  In (item_StationID i) (List.map station_ID (stations d)).
Proof.
  intros (Hrules & _) (_ & _ & _ & _ & _ & _ & Hroute & _).
  pose proof (routing_station_spec (req_MenuItemID itemReq) d) as Hspec.
  rewrite Hroute in Hspec. destruct Hspec as (rule & Hin & _ & Hst & _).
  rewrite <- Hst. apply Hrules, Hin.
Qed.

Lemma CreateOrder_run req userID w o w' :
  (forall n, faulty w n = false) ->
  checked (db w) ->
  linked (db w) ->
  CreateOrder req userID w = (Ok o, w') ->
  exists updated rows groups,
    groups = go_range (range_picks w) (map_to_list (group_by_station (order_Items o))) /\
    stdout w' = stdout w ++ tickets (db w) o groups /\
    orders (db w')
    = orders (db w) ++ [order_status_set OrderStatusInProgress updated (order_row o)] /\
    order_items (db w') = order_items (db w) ++ rows /\
    Forall2 (fun i row => same_line i row /\
                          item_Status row = OrderItemStatusInProgress /\
                          item_SentToStationAt row <> None)
      (order_Items o) rows.
Proof.
  intros Hok [Hchecked _] Hlinked H.
  rewrite CreateOrder_Create in H.
  set (w0 := world_tick (world_tick w)) in *.
  destruct (Create (new_order userID w) (req_Items req) w0) as [[o2|e] w2] eqn:E;
    [|discriminate].
  inversion H; subst o2 w'; clear H.
  pose proof (Create_ok _ _ _ _ _ E)
    as (Hfresh & _ & _ & Hall & Hnd & Hfr & Ho & Hi & Hc).
  pose proof (Create_checked _ _ w0 _ _ Hchecked E) as Hchecked2.
  pose proof (keeps_Create faulty oracle_faulty (new_order userID w) (req_Items req) w0)
    as Hf2.
  pose proof (keeps_Create stdout oracle_stdout (new_order userID w) (req_Items req) w0)
    as Hs2.
  pose proof (keeps_Create range_picks oracle_range_picks (new_order userID w)
                (req_Items req) w0) as Hr2.
  rewrite E in Hf2, Hs2, Hr2. cbn [snd] in Hf2, Hs2, Hr2.
  change (db w0) with (db w) in *.
  assert (Hstations : stations (db w2) = stations (db w)).
  { unfold catalog in Hc. inversion Hc. reflexivity. }
  assert (Hnew : Forall (fun i => In (item_StationID i) (List.map station_ID (stations (db w))))
                   (order_Items o)).
  { eapply Forall2_Forall_r; [exact Hall|]. intros x y Hxy.
    eapply created_item_station; eassumption. }
  assert (Hlinked2 : linked (db w2)).
  { destruct Hlinked as (Hrules & Hitems & Hprinters & Hdisplays).
    unfold catalog in Hc. inversion Hc as [[Hc1 Hc2 Hc3 Hc4 Hc5 Hc6]].
    split; [|split; [|split]].
    - rewrite Hc3, Hc4. exact Hrules.
    - rewrite Hi, Hc4. intros i Hin. apply in_app_or in Hin as [Hin|Hin].
      + apply Hitems, Hin.
      + apply in_map_iff in Hin as (x & <- & Hx). rewrite List.Forall_forall in Hnew.
        apply (Hnew x Hx).
    - rewrite Hc4, Hc5. exact Hprinters.
    - rewrite Hc4, Hc6. exact Hdisplays. }
  destruct (processNewOrder_run o w2) as (w3 & rows & groups & E3 & Hg & Hs3 & Hd3 & Hrows).
  { intros n. rewrite Hf2. apply Hok. }
  { exact Hlinked2. }
  { exact Hchecked2. }
  { rewrite Ho, List.map_app. apply in_or_app. right. left. reflexivity. }
  { apply List.Forall_forall. intros i Hin. split.
    - rewrite Hi, List.map_app. apply in_or_app. right.
      rewrite List.map_map. apply in_map_iff. exists i. split; [reflexivity|exact Hin].
    - rewrite Hstations. rewrite List.Forall_forall in Hnew. apply Hnew, Hin. }
  unfold log_error. rewrite E3. cbn [snd].
  rewrite Hi in Hrows. apply Forall2_app_inv_l in Hrows as (rows1 & rows2 & H1 & H2 & ->).
  set (ids := List.concat (List.map (fun g => List.map item_ID (snd g)) groups)) in *.
  assert (Hids : forall id, In id ids <-> In id (List.map item_ID (order_Items o))).
  { intros id. unfold ids. rewrite in_concat. split.
    - intros (l & Hl & Hid). apply in_map_iff in Hl as ([stationID g] & <- & Hg').
      cbn [snd] in Hid. apply in_map_iff in Hid as (i & <- & Hin).
      rewrite Hg in Hg'. apply go_range_In, group_items_In in Hg' as [-> _].
      apply List.filter_In in Hin as [Hin _]. apply in_map, Hin.
    - intros Hin. apply in_map_iff in Hin as (i & <- & Hin).
      set (g := List.filter (fun j => (item_StationID j =? item_StationID i)%N)
                  (order_Items o)).
      assert (Hig : In i g) by (apply List.filter_In; split; [exact Hin|apply N.eqb_refl]).
      exists (List.map item_ID g). split; [|apply in_map, Hig].
      apply in_map_iff. exists (item_StationID i, g). split; [reflexivity|].
      rewrite Hg. apply go_range_In, list_elem_of_In, elem_of_map_to_list.
      rewrite group_by_station_lookup. fold g.
      destruct g; [contradiction|reflexivity]. }
  assert (Hold : rows1 = order_items (db w)).
  { apply (Forall2_sent_row_untouched ids); [exact H1|].
    intros r Hr Hin. apply Hids in Hin. apply in_map_iff in Hin as (i & Hid & Hin).
    rewrite List.Forall_forall in Hfr. specialize (Hfr i Hin).
    apply existsb_id_false in Hfr. apply Hfr. rewrite Hid. apply in_map, Hr. }
  exists (clock w2), rows2, groups. split; [|split; [|split; [|split]]].
  - rewrite Hg, Hr2. reflexivity.
  - rewrite Hs3, Hs2. f_equal. unfold tickets. apply f_equal, List.map_ext. intros g.
    apply ticket_catalog, Hc.
  - rewrite Hd3. cbn [orders db_with_orders db_with_order_items].
    rewrite Ho, sql_update_app, sql_update_fresh by exact Hfresh.
    f_equal. cbn [sql_update List.map].
    change (order_ID (order_row o)) with (order_ID o). rewrite N.eqb_refl. reflexivity.
  - rewrite Hd3. cbn [order_items db_with_order_items]. rewrite Hold. reflexivity.
  - apply Forall2_map_l in H2. eapply Forall2_impl_In; [exact H2|].
    intros i row Hin Hrow. destruct Hrow as (Hsame & Hsent & _).
    split; [exact Hsame|]. apply Hsent.
    apply Hids. change (item_ID (item_row i)) with (item_ID i). apply in_map. exact Hin.
Qed.



(** X19.  With a storage layer that does not fail and tables that respect
    the schema, the processing of the order that [CreateOrder] stores fails
    nowhere, and what it prints is one ticket for every station that has a
    printer and at least one line of the order, with the lines of that
    station in the order of the request.  Every such station is visited
    once, in the order the runtime chooses. *)
Theorem CreateOrder_prints_one_ticket_per_station req userID w o w' :
  (forall n, faulty w n = false) ->
  checked (db w) ->
  linked (db w) ->
  CreateOrder req userID w = (Ok o, w') ->
  exists groups,
    List.NoDup (List.map fst groups) /\
    (forall stationID g,
       In (stationID, g) groups <->
       g <> [] /\
       g = List.filter (fun i => (item_StationID i =? stationID)%N) (order_Items o)) /\
    stdout w' = stdout w ++ tickets (db w) o groups.
Proof.
  intros Hok Hchecked Hlinked H.
  destruct (CreateOrder_run _ _ _ _ _ Hok Hchecked Hlinked H)
    as (updated & rows & groups & Hg & Hs & _).
  exists groups. split; [|split; [|exact Hs]].
  - rewrite Hg. eapply Permutation_NoDup.
    + apply Permutation_map. symmetry. apply go_range_Permutation.
    + apply NoDup_ListNoDup, NoDup_fst_map_to_list.
  - intros stationID g. rewrite Hg, go_range_In. split.
    + intros Hin. apply group_items_In in Hin as [-> Hne]. auto.
    + intros [Hne ->]. apply list_elem_of_In, elem_of_map_to_list.
      rewrite group_by_station_lookup.
      destruct (List.filter _ (order_Items o)); [contradiction|reflexivity].
Qed.

(** The order of the example: burgers for the kitchen, which has printer 40,
    and a beer for the bar, which has none. *)
Lemma CreateOrder_prints_one_ticket_per_station_witness :
  exists groups,
    List.NoDup (List.map fst groups) /\
    stdout example_placed
    = tickets (db example_world)
        (match fst (CreateOrder example_request 7%N example_world) with
         | Ok o => o
         | Err _ => new_order 7%N example_world
         end) groups.
Proof.
  destruct (CreateOrder_prints_one_ticket_per_station example_request 7%N example_world
              (match fst (CreateOrder example_request 7%N example_world) with
               | Ok o => o
               | Err _ => new_order 7%N example_world
               end) example_placed)
    as (groups & Hnd & _ & Hs).
  - intros n. reflexivity.
  - apply checkedb_spec. vm_compute. reflexivity.
  - apply linkedb_spec. vm_compute. reflexivity.
  - vm_compute. reflexivity.
  - exists groups. split; [exact Hnd|exact Hs].
Defined.

(** * The routing of the order handlers *)

Lemma prefix_cons c p c' s :
  String.prefix (String c p) (String c' s)
  = if Ascii.eqb c c' then String.prefix p s else false.
Proof.
  change (String.prefix (String c p) (String c' s))
    with (if ascii_dec c c' then String.prefix p s else false).
  destruct (ascii_dec c c') as [->|Hne].
  - rewrite Ascii.eqb_refl. reflexivity.
  - apply Ascii.eqb_neq in Hne. rewrite Hne. reflexivity.
Qed.

Lemma prefix_nil_r c p : String.prefix (String c p) EmptyString = false.
Proof. reflexivity. Qed.

Lemma prefix_nil_l s : String.prefix EmptyString s = true.
Proof. destruct s; reflexivity. Qed.

Lemma append_cons c s t : (String c s ++ t)%string = String c (s ++ t).
Proof. reflexivity. Qed.

Lemma HasPrefix_app prefix s : HasPrefix (prefix ++ s) prefix = true.
Proof.
  unfold HasPrefix. induction prefix as [|c p IH].
  - apply prefix_nil_l.
  - rewrite append_cons, prefix_cons, Ascii.eqb_refl. exact IH.
Qed.

Lemma string_drop_app prefix s : string_drop (String.length prefix) (prefix ++ s) = s.
Proof. induction prefix as [|c p IH]; [reflexivity|exact IH]. Qed.

Lemma TrimPrefix_app prefix s : TrimPrefix (prefix ++ s) prefix = s.
Proof. unfold TrimPrefix. rewrite HasPrefix_app. apply string_drop_app. Qed.

Lemma TrimPrefix_other s prefix : HasPrefix s prefix = false -> TrimPrefix s prefix = s.
Proof. unfold TrimPrefix. intros ->. reflexivity. Qed.

Lemma Contains_cons c s substr :
  Contains (String c s) substr = HasPrefix (String c s) substr || Contains s substr.
Proof. reflexivity. Qed.

Lemma Contains_app s t substr : Contains t substr = true -> Contains (s ++ t) substr = true.
Proof.
  intros H. induction s as [|c s IH]; [exact H|].
  rewrite append_cons, Contains_cons, IH. apply orb_true_r.
Qed.

Lemma segment_head s : segment s -> exists c s', s = String c s' /\ c <> "/"%char.
Proof.
  intros [Hne Hall]. destruct s as [|c s']; [contradiction|].
  exists c, s'. split; [reflexivity|].
  change (list_ascii_of_string (String c s')) with (c :: list_ascii_of_string s') in Hall.
  apply List.Forall_cons_iff in Hall as [H _]. exact H.
Qed.

Lemma Split_cons c s sep :
  Split (String c s) sep
  = if Ascii.eqb c sep then EmptyString :: Split s sep
    else match Split s sep with
         | part :: parts => String c part :: parts
         | [] => [String c EmptyString]
         end.
Proof. reflexivity. Qed.

Lemma Split_segment s t :
  Forall (fun c => c <> "/"%char) (list_ascii_of_string s) ->
  Split (s ++ String "/" t) "/" = s :: Split t "/".
Proof.
  induction s as [|c s IH]; intros Hall.
  - change (EmptyString ++ String "/" t)%string with (String "/" t).
    rewrite Split_cons, Ascii.eqb_refl. reflexivity.
  - change (list_ascii_of_string (String c s)) with (c :: list_ascii_of_string s) in Hall.
    apply List.Forall_cons_iff in Hall as [Hc Hall].
    rewrite append_cons, Split_cons, IH by exact Hall.
    apply Ascii.eqb_neq in Hc. rewrite Hc. reflexivity.
Qed.

Lemma segmentb_spec s : segmentb s = true -> segment s.
Proof.
  intros H. split; [destruct s; [discriminate|discriminate]|].
  induction s as [|c s IH]; [discriminate|].
  change (list_ascii_of_string (String c s)) with (c :: list_ascii_of_string s).
  destruct s as [|c' s'].
  - change (segmentb (String c EmptyString)) with (negb (Ascii.eqb c "/")) in H.
    apply negb_true_iff, Ascii.eqb_neq in H. constructor; [exact H|constructor].
  - change (segmentb (String c (String c' s')))
      with (negb (Ascii.eqb c "/") && segmentb (String c' s')) in H.
    apply andb_true_iff in H as [Hc Hs].
    apply negb_true_iff, Ascii.eqb_neq in Hc. constructor; [exact Hc|apply IH, Hs].
Qed.

Lemma HasPrefix_segment prefix s rest :
  Forall (fun c => c <> "/"%char) (list_ascii_of_string prefix) ->
  HasPrefix (s ++ String "/" rest) prefix = HasPrefix s prefix.
Proof.
  unfold HasPrefix. revert prefix. induction s as [|c s IH]; intros prefix Hall.
  - change (EmptyString ++ String "/" rest)%string with (String "/" rest).
    destruct prefix as [|c' p']; [reflexivity|].
    change (list_ascii_of_string (String c' p')) with (c' :: list_ascii_of_string p') in Hall.
    apply List.Forall_cons_iff in Hall as [Hc _].
    rewrite prefix_cons, prefix_nil_r. apply Ascii.eqb_neq in Hc. rewrite Hc. reflexivity.
  - destruct prefix as [|c' p']; [reflexivity|].
    change (list_ascii_of_string (String c' p')) with (c' :: list_ascii_of_string p') in Hall.
    apply List.Forall_cons_iff in Hall as [_ Hall].
    rewrite append_cons, !prefix_cons, IH by exact Hall. reflexivity.
Qed.

Lemma Contains_segment s substr :
  Forall (fun c => c <> "/"%char) (list_ascii_of_string s) ->
  Contains s (String "/" substr) = false.
Proof.
  induction s as [|c s IH]; intros Hall; [reflexivity|].
  change (list_ascii_of_string (String c s)) with (c :: list_ascii_of_string s) in Hall.
  apply List.Forall_cons_iff in Hall as [Hc Hall].
  rewrite Contains_cons, IH by exact Hall. unfold HasPrefix. rewrite prefix_cons.
  assert (E : Ascii.eqb "/" c = false) by (apply Ascii.eqb_neq; congruence).
  rewrite E. reflexivity.
Qed.

Section RoutingFacts.
Variable uuid_Parse : string -> option UUID.

(** X20.  The receipt of an order is reprinted by a [POST] whose path names
    [reprint] right after the order and [/receipt] after that.  A [POST] to
    [/orders/{id}/receipt/reprint] is not: [HandleOrders] compares the segment
    after the order, which is [receipt], with [reprint], and answers 405 (400
    when the identifier does not parse). *)
Theorem reprint_is_routed_by_its_second_segment id :
  segment id ->
  HasPrefix id "history" = false ->
  HandleOrders uuid_Parse MethodPost ("/orders/" ++ id ++ "/receipt/reprint")
  = match uuid_Parse id with
    | Some _ => http_Error "Method not allowed" StatusMethodNotAllowed
    | None => http_Error "Invalid order ID" StatusBadRequest
    end /\
  HandleOrders uuid_Parse MethodPost ("/orders/" ++ id ++ "/reprint/receipt")
  = match uuid_Parse id with
    | Some orderID => to_reprintOrderReceipt orderID
    | None => http_Error "Invalid order ID" StatusBadRequest
    end.
Proof.
  intros Hid Hhistory.
  assert (Hpath : forall rest,
             TrimPrefix (TrimPrefix ("/orders/" ++ id ++ String "/" rest) "/orders") "/"
             = (id ++ String "/" rest)%string).
  { intros rest.
    change ("/orders/" ++ id ++ String "/" rest)%string
      with ("/orders" ++ ("/" ++ (id ++ String "/" rest)))%string.
    rewrite TrimPrefix_app. apply (TrimPrefix_app "/"). }
  assert (Hnot : forall rest, HasPrefix (id ++ String "/" rest) "history" = false).
  { intros rest. rewrite HasPrefix_segment; [exact Hhistory|].
    repeat constructor; discriminate. }
  destruct Hid as [_ Hall].
  split; unfold HandleOrders.
  - change ("/receipt/reprint")%string with (String "/" "receipt/reprint").
    cbv zeta. rewrite Hpath, Hnot.
    rewrite (Contains_app id (String "/" "receipt/reprint") "/receipt") by reflexivity.
    rewrite Split_segment by exact Hall.
    cbn [Split List.length Nat.ltb Nat.leb nth].
    destruct (uuid_Parse id); reflexivity.
  - change ("/reprint/receipt")%string with (String "/" "reprint/receipt").
    cbv zeta. rewrite Hpath, Hnot.
    rewrite (Contains_app id (String "/" "reprint/receipt") "/receipt") by reflexivity.
    rewrite Split_segment by exact Hall.
    cbn [Split List.length Nat.ltb Nat.leb nth].
    destruct (uuid_Parse id); reflexivity.
Qed.

(** X21.  [HandleStationItems] trims [/items] from the front of what follows
    [/stations/], where it never is in [/stations/{id}/items]: the identifier is
    parsed with [/items] still attached, and the request is answered 400
    whenever [uuid.Parse] rejects that.  What the handler serves is the path
    with [/items] before the identifier. *)
Theorem HandleStationItems_keeps_the_suffix id :
  segment id ->
  HandleStationItems uuid_Parse MethodGet ("/stations/" ++ id ++ "/items")
  = match uuid_Parse (id ++ "/items") with
    | Some stationID => to_GetStationItems stationID
    | None => http_Error "Invalid station ID" StatusBadRequest
    end /\
  HandleStationItems uuid_Parse MethodGet ("/stations/" ++ "/items" ++ id)
  = match uuid_Parse id with
    | Some stationID => to_GetStationItems stationID
    | None => http_Error "Invalid station ID" StatusBadRequest
    end.
Proof.
  intros Hid. split; unfold HandleStationItems.
  - change (negb (String.eqb MethodGet MethodGet)) with false. cbv iota zeta.
    rewrite (TrimPrefix_app "/stations/").
    rewrite TrimPrefix_other; [reflexivity|].
    destruct (segment_head id Hid) as (c & s' & -> & Hc).
    unfold HasPrefix. rewrite append_cons.
    change "/items"%string with (String "/" "items"). rewrite prefix_cons.
    assert (E : Ascii.eqb "/" c = false) by (apply Ascii.eqb_neq; congruence).
    rewrite E. reflexivity.
  - change (negb (String.eqb MethodGet MethodGet)) with false. cbv iota zeta.
    rewrite (TrimPrefix_app "/stations/"), (TrimPrefix_app "/items"). reflexivity.
Qed.

(** X22.  [HandleOrderItems] on the two paths of an order item.  On
    [/order-items/{id}/void] the identifier is parsed before the method is
    looked at: a bad identifier is answered 400 whatever the method, a good one
    is voided by [PUT] and answered 405 otherwise.  On [/order-items/{id}] the
    method comes first: anything but [PUT] is answered 405, also with a bad
    identifier. *)
Theorem HandleOrderItems_routes method id :
  segment id ->
  HandleOrderItems uuid_Parse method ("/order-items/" ++ id ++ "/void")
  = match uuid_Parse id with
    | None => http_Error "Invalid item ID" StatusBadRequest
    | Some itemID =>
        if String.eqb method MethodPut then to_voidOrderItem itemID
        else http_Error "Method not allowed" StatusMethodNotAllowed
    end /\
  HandleOrderItems uuid_Parse method ("/order-items/" ++ id)
  = if String.eqb method MethodPut
    then match uuid_Parse id with
         | None => http_Error "Invalid item ID" StatusBadRequest
         | Some itemID => to_updateOrderItemStatus itemID
         end
    else http_Error "Method not allowed" StatusMethodNotAllowed.
Proof.
  intros [_ Hall]. split; unfold HandleOrderItems; cbv zeta.
  - change ("/order-items/" ++ id ++ "/void")%string
      with ("/order-items" ++ ("/" ++ (id ++ String "/" "void")))%string.
    rewrite TrimPrefix_app, (TrimPrefix_app "/").
    rewrite (Contains_app id (String "/" "void") "/void") by reflexivity.
    rewrite Split_segment by exact Hall.
    cbn [Split List.length Nat.ltb Nat.leb nth].
    destruct (uuid_Parse id); reflexivity.
  - change ("/order-items/" ++ id)%string with ("/order-items" ++ ("/" ++ id))%string.
    rewrite TrimPrefix_app, (TrimPrefix_app "/").
    change "/void"%string with (String "/" "void").
    rewrite Contains_segment by exact Hall. reflexivity.
Qed.
End RoutingFacts.

(** Order 101 of the examples. *)
Lemma reprint_is_routed_by_its_second_segment_witness :
  HandleOrders example_uuid_Parse MethodPost "/orders/101/receipt/reprint"
  = http_Error "Method not allowed" StatusMethodNotAllowed /\
  HandleOrders example_uuid_Parse MethodPost "/orders/101/reprint/receipt"
  = to_reprintOrderReceipt 101%N.
Proof.
  apply (reprint_is_routed_by_its_second_segment example_uuid_Parse "101").
  - apply segmentb_spec. reflexivity.
  - reflexivity.
Defined.

(** Station 31 of the examples, the kitchen. *)
Lemma HandleStationItems_keeps_the_suffix_witness :
  HandleStationItems example_uuid_Parse MethodGet "/stations/31/items"
  = http_Error "Invalid station ID" StatusBadRequest /\
  HandleStationItems example_uuid_Parse MethodGet "/stations//items31"
  = to_GetStationItems 31%N.
Proof.
  apply (HandleStationItems_keeps_the_suffix example_uuid_Parse "31").
  apply segmentb_spec. reflexivity.
Defined.

(** Item 104 of the examples. *)
Lemma HandleOrderItems_routes_witness :
  HandleOrderItems example_uuid_Parse MethodPut "/order-items/104/void"
  = to_voidOrderItem 104%N /\
  HandleOrderItems example_uuid_Parse MethodPut "/order-items/104"
  = to_updateOrderItemStatus 104%N.
Proof.
  apply (HandleOrderItems_routes example_uuid_Parse MethodPut "104").
  apply segmentb_spec. reflexivity.
Defined.
